(** * setup.py: the instance generator of splunk-uf-docker-factory

    A shallow embedding of the pure and state-passing parts of [setup.py]:
    the name sanitizer, the host and port prompts, the post-processing of
    an external command's result, the update of the root ignore list, the
    preference file (JSON) and the rendering of [inputs.conf].

    Python strings are sequences of Unicode code points; they are modelled
    as lists of code points in [N].  Library tables that the script reaches
    through [str.lower] and [int] (Unicode case mapping, Unicode decimal
    digits) are section variables; their ASCII parts are given here.  So
    are the settings of the interpreter that [json] depends on: the digit
    limit of [int], the room that the recursion limit leaves to the
    decoder, and the text of a [float]. *)

From Stdlib Require Import List NArith ZArith Bool Lia String Ascii.
From Stdlib Require Import DecimalString.
Import ListNotations.

Open Scope N_scope.
Open Scope list_scope.

(* ================================================================== *)
(** ** Strings as lists of code points *)

Module Text.

Definition str := list N.

(** An ASCII literal of the script as a list of code points. *)
Definition lit (s : string) : str :=
  List.map N_of_ascii (list_ascii_of_string s).

Definition is_empty (s : str) : bool :=
  match s with [] => true | _ :: _ => false end.

(** Python's [x or y] on strings: [x] unless it is empty. *)
Definition py_or (x y : str) : str :=
  if is_empty x then y else x.

Fixpoint str_eqb (a b : str) : bool :=
  match a, b with
  | [], [] => true
  | x :: a', y :: b' => (x =? y) && str_eqb a' b'
  | _, _ => false
  end.

(** [Py_UNICODE_ISSPACE]: the code points that [str.strip()], [\s] and
    [str.isspace] treat as whitespace. *)
Definition isspace (c : N) : bool :=
  ((9 <=? c) && (c <=? 13)) || ((28 <=? c) && (c <=? 32))
  || (c =? 133) || (c =? 160) || (c =? 5760)
  || ((8192 <=? c) && (c <=? 8202))
  || (c =? 8232) || (c =? 8233) || (c =? 8239) || (c =? 8287)
  || (c =? 12288).

Fixpoint dropwhile (p : N -> bool) (s : str) : str :=
  match s with
  | [] => []
  | c :: t => if p c then dropwhile p t else s
  end.

(** [s.strip(chars)] with [p] the membership test of [chars]: the left
    end is cut first, then the right end. *)
Definition strip_by (p : N -> bool) (s : str) : str :=
  rev (dropwhile p (rev (dropwhile p s))).

(** [s.strip()] *)
Definition strip (s : str) : str := strip_by isspace s.

Fixpoint starts_with (pat s : str) : bool :=
  match pat, s with
  | [], _ => true
  | _ :: _, [] => false
  | x :: pat', y :: s' => (x =? y) && starts_with pat' s'
  end.

(** [pat in s] for strings: [pat] occurs as a contiguous substring. *)
Fixpoint contains (pat s : str) : bool :=
  starts_with pat s ||
  match s with
  | [] => false
  | _ :: t => contains pat t
  end.

Definition head_is (p : N -> bool) (s : str) : bool :=
  match s with [] => false | c :: _ => p c end.

Definition last_is (p : N -> bool) (s : str) : bool :=
  head_is p (rev s).

(** ASCII part of [str.lower]: ['A'..'Z'] are shifted, every other code
    point is left in place. *)
Definition lower_ascii_char (c : N) : N :=
  if (65 <=? c) && (c <=? 90) then c + 32 else c.

Definition lower_ascii (s : str) : str := List.map lower_ascii_char s.

(** *** Lemmas *)

Lemma str_eqb_spec (a b : str) : reflect (a = b) (str_eqb a b).
Proof.
  revert b; induction a as [|x a IH]; intros [|y b]; simpl;
    try (constructor; congruence).
  destruct (N.eqb_spec x y) as [->|Hne]; simpl.
  - destruct (IH b) as [->|Hne]; constructor; congruence.
  - constructor; congruence.
Qed.

Lemma str_eqb_eq (a b : str) : str_eqb a b = true <-> a = b.
Proof. destruct (str_eqb_spec a b); split; congruence. Qed.

Lemma str_eqb_refl (a : str) : str_eqb a a = true.
Proof. now apply str_eqb_eq. Qed.

Lemma is_empty_true (s : str) : is_empty s = true <-> s = [].
Proof. destruct s; simpl; split; congruence. Qed.

Lemma is_empty_false (s : str) : is_empty s = false <-> s <> [].
Proof. destruct s; simpl; split; congruence. Qed.

Lemma dropwhile_Forall (p : N -> bool) (s : str) (P : N -> Prop) :
  Forall P s -> Forall P (dropwhile p s).
Proof.
  induction 1 as [|c t Hc Ht IH]; simpl; [constructor|].
  destruct (p c); [exact IH | now constructor].
Qed.

Lemma dropwhile_head (p : N -> bool) (s : str) :
  head_is p (dropwhile p s) = false.
Proof.
  induction s as [|c t IH]; simpl; [reflexivity|].
  destruct (p c) eqn:E; [exact IH | simpl; exact E].
Qed.

Lemma dropwhile_id (p : N -> bool) (s : str) :
  head_is p s = false -> dropwhile p s = s.
Proof. destruct s as [|c t]; simpl; [reflexivity|]. now intros ->. Qed.

Lemma dropwhile_all (p : N -> bool) (s : str) :
  forallb p s = true -> dropwhile p s = [].
Proof.
  induction s as [|c t IH]; simpl; [reflexivity|].
  destruct (p c); simpl; [exact IH | discriminate].
Qed.

Lemma dropwhile_app_stop (p : N -> bool) (a b : str) :
  head_is p b = false -> b <> [] ->
  dropwhile p (a ++ b) = dropwhile p a ++ b \/
  (forallb p a = true /\ dropwhile p (a ++ b) = b).
Proof.
  intros Hb Hne; induction a as [|c t IH]; simpl.
  - right; split; [reflexivity | now apply dropwhile_id].
  - destruct (p c) eqn:E; simpl; [exact IH | now left].
Qed.

(** A string that keeps its first and last element under [dropwhile]
    is fixed by [strip_by]. *)
Lemma strip_by_id (p : N -> bool) (s : str) :
  head_is p s = false -> last_is p s = false -> strip_by p s = s.
Proof.
  intros Hh Hl; unfold strip_by.
  rewrite (dropwhile_id p s Hh), (dropwhile_id p (rev s) Hl).
  apply rev_involutive.
Qed.

Lemma strip_by_Forall (p : N -> bool) (s : str) (P : N -> Prop) :
  Forall P s -> Forall P (strip_by p s).
Proof.
  intros H; unfold strip_by.
  apply Forall_rev, dropwhile_Forall, Forall_rev, dropwhile_Forall, H.
Qed.

Lemma last_is_strip_by (p : N -> bool) (s : str) :
  last_is p (strip_by p s) = false.
Proof.
  unfold last_is, strip_by; rewrite rev_involutive; apply dropwhile_head.
Qed.

(** The right cut never exposes a new first element. *)
Lemma rev_dropwhile_rev_head (p : N -> bool) (s : str) :
  head_is p s = false -> head_is p (rev (dropwhile p (rev s))) = false.
Proof.
  destruct s as [|c t]; simpl; [reflexivity|]; intros Hc.
  assert (Hb : head_is p [c] = false) by exact Hc.
  destruct (dropwhile_app_stop p (rev t) [c] Hb) as [E|[_ E]];
    [discriminate | | ]; rewrite E.
  - rewrite rev_app_distr; simpl; exact Hc.
  - simpl; exact Hc.
Qed.

Lemma head_is_strip_by (p : N -> bool) (s : str) :
  head_is p (strip_by p s) = false.
Proof.
  unfold strip_by; apply rev_dropwhile_rev_head, dropwhile_head.
Qed.

Lemma strip_by_idem (p : N -> bool) (s : str) :
  strip_by p (strip_by p s) = strip_by p s.
Proof.
  apply strip_by_id; [apply head_is_strip_by | apply last_is_strip_by].
Qed.

End Text.

Import Text.

(* ================================================================== *)
(** ** [sanitize_for_docker] (setup.py, lines 127-134) *)

Module Sanitizer.

Definition underscore : N := 95.
Definition hyphen : N := 45.

(** The class [[a-z0-9_-]] of the second substitution. *)
Definition safe (c : N) : bool :=
  ((97 <=? c) && (c <=? 122)) || ((48 <=? c) && (c <=? 57))
  || (c =? underscore) || (c =? hyphen).

(** [[a-z0-9]] *)
Definition alnum (c : N) : bool :=
  ((97 <=? c) && (c <=? 122)) || ((48 <=? c) && (c <=? 57)).

(** Membership in the argument ['_-'] of [strip], and in [('-', '_')]. *)
Definition edge (c : N) : bool := (c =? underscore) || (c =? hyphen).

Definition proj : str := Eval cbv in lit "proj".
Definition default_proj : str := Eval cbv in lit "default_proj".

(** [re.sub(r'\s+', '_', name)]: the scan copies code points until a
    whitespace one starts a match; the match is greedy, so [skip_run]
    consumes the rest of the run before the scan resumes. *)
Fixpoint sub_ws (s : str) : str :=
  match s with
  | [] => []
  | c :: t => if isspace c then underscore :: skip_run t else c :: sub_ws t
  end
with skip_run (s : str) : str :=
  match s with
  | [] => []
  | c :: t => if isspace c then skip_run t else c :: sub_ws t
  end.

(** [re.sub(r'[^a-z0-9_-]', '', name)] *)
Definition sub_unsafe (s : str) : str := filter safe s.

Section WithCaseMapping.

(** [str.lower], the Unicode lower-casing of a whole string. *)
Variable lower : str -> str.

(** The value of [name] when control reaches the [return] statement. *)
Definition name_before_return (name : str) : str :=
  let name := lower name in
  let name := sub_ws name in
  let name := sub_unsafe name in
  let name := strip_by edge name in
  if is_empty name || head_is edge name then proj ++ name else name.

Definition sanitize_for_docker (name : str) : str :=
  let name := name_before_return name in
  if is_empty name then default_proj else name.

(** The name after the two substitutions and the strip, before the
    prefix test. *)
Definition cleaned (name : str) : str :=
  strip_by edge (sub_unsafe (sub_ws (lower name))).

(** *** The pipeline in the words of the specification *)

(** "collapse runs of whitespace to a single underscore": a whitespace
    code point is kept, as one underscore, only where its run begins. *)
Fixpoint collapse_from (in_run : bool) (s : str) : str :=
  match s with
  | [] => []
  | c :: t =>
      if isspace c
      then (if in_run then collapse_from true t
            else underscore :: collapse_from true t)
      else c :: collapse_from false t
  end.

Definition collapse_whitespace (s : str) : str := collapse_from false s.

(** "strip every character outside [[a-z0-9_-]]" *)
Fixpoint strip_outside (s : str) : str :=
  match s with
  | [] => []
  | c :: t => if safe c then c :: strip_outside t else strip_outside t
  end.

(** "trim leading/trailing [_]/[-]" *)
Fixpoint trim_leading (s : str) : str :=
  match s with
  | [] => []
  | c :: t => if edge c then trim_leading t else c :: t
  end.

Fixpoint trim_trailing (s : str) : str :=
  match s with
  | [] => []
  | c :: t =>
      match trim_trailing t with
      | [] => if edge c then [] else [c]
      | t' => c :: t'
      end
  end.

Definition sanitize_spec (s : str) : str :=
  let s := lower s in
  let s := collapse_whitespace s in
  let s := strip_outside s in
  let s := trim_trailing (trim_leading s) in
  let s := match s with
           | [] => proj
           | c :: _ => if edge c then proj ++ s else s
           end in
  match s with
  | [] => default_proj
  | _ :: _ => s
  end.

End WithCaseMapping.

(** *** Lemmas *)

(** Turns a boolean test on code points into the proposition it decides. *)
Ltac bool_to_prop H :=
  repeat first
    [ rewrite orb_true_iff in H
    | rewrite andb_true_iff in H
    | rewrite N.leb_le in H
    | rewrite N.eqb_eq in H ].

Lemma alnum_safe (c : N) : alnum c = true -> safe c = true.
Proof. unfold alnum, safe; intros ->; reflexivity. Qed.

Lemma safe_split (c : N) : safe c = alnum c || edge c.
Proof. unfold safe, alnum, edge; now rewrite <- !orb_assoc. Qed.

Lemma alnum_not_edge (c : N) : alnum c = true -> edge c = false.
Proof.
  unfold alnum, edge, underscore, hyphen; intros H.
  destruct (N.eqb_spec c 95) as [->|_]; [discriminate H|].
  destruct (N.eqb_spec c 45) as [->|_]; [discriminate H|reflexivity].
Qed.

Lemma safe_not_space (c : N) : safe c = true -> isspace c = false.
Proof.
  intros H; apply not_true_is_false; intros Hs.
  unfold safe, isspace, underscore, hyphen in *.
  bool_to_prop H; bool_to_prop Hs; lia.
Qed.

Lemma sub_ws_fixed (s : str) :
  Forall (fun c => isspace c = false) s -> sub_ws s = s.
Proof.
  induction 1 as [|c t Hc Ht IH]; simpl; [reflexivity|].
  now rewrite Hc, IH.
Qed.

Lemma sub_unsafe_safe (s : str) : Forall (fun c => safe c = true) (sub_unsafe s).
Proof. apply Forall_forall; intros c Hc; apply filter_In in Hc; tauto. Qed.

Lemma sub_unsafe_fixed (s : str) :
  Forall (fun c => safe c = true) s -> sub_unsafe s = s.
Proof.
  induction 1 as [|c t Hc Ht IH]; simpl; [reflexivity|].
  now rewrite Hc, IH.
Qed.

(** The scan of [re.sub] and the run-collapsing of the specification. *)
Lemma sub_ws_collapse (s : str) :
  sub_ws s = collapse_from false s /\ skip_run s = collapse_from true s.
Proof.
  induction s as [|c t [IH1 IH2]]; simpl; [split; reflexivity|].
  destruct (isspace c); rewrite ?IH1, ?IH2; split; reflexivity.
Qed.

Lemma strip_outside_filter (s : str) : strip_outside s = sub_unsafe s.
Proof.
  induction s as [|c t IH]; simpl; [reflexivity|].
  destruct (safe c); now rewrite IH.
Qed.

Lemma trim_leading_dropwhile (s : str) : trim_leading s = dropwhile edge s.
Proof.
  induction s as [|c t IH]; simpl; [reflexivity|].
  destruct (edge c); [exact IH | reflexivity].
Qed.

Lemma trim_trailing_snoc (s : str) (c : N) :
  trim_trailing (s ++ [c]) = if edge c then trim_trailing s else s ++ [c].
Proof.
  induction s as [|d t IH]; simpl.
  - destruct (edge c); reflexivity.
  - rewrite IH. destruct (edge c) eqn:E; [reflexivity|].
    destruct (t ++ [c]) eqn:Et; [|reflexivity].
    now destruct t.
Qed.

Lemma trim_trailing_rev (s : str) :
  trim_trailing s = rev (dropwhile edge (rev s)).
Proof.
  rewrite <- (rev_involutive s) at 1.
  induction (rev s) as [|c t IH]; simpl; [reflexivity|].
  rewrite trim_trailing_snoc, IH.
  destruct (edge c); [reflexivity|]. simpl. reflexivity.
Qed.

Lemma trim_strip_by (s : str) :
  trim_trailing (trim_leading s) = strip_by edge s.
Proof. now rewrite trim_trailing_rev, trim_leading_dropwhile. Qed.

(** [re.match(r'^[a-z0-9_-]+$', s)]: one or more safe code points up to
    the end of the string, where [$] also matches just before a final
    line feed. *)
Definition all_safe (s : str) : bool := negb (is_empty s) && forallb safe s.

Definition matches_safe_pattern (s : str) : bool :=
  all_safe s ||
  match rev s with
  | 10 :: t => all_safe (rev t)
  | _ => false
  end.

Lemma lower_ascii_fixed (s : str) :
  Forall (fun c => safe c = true) s -> lower_ascii s = s.
Proof.
  induction 1 as [|c t Hc Ht IH]; [reflexivity|].
  change (lower_ascii (c :: t)) with (lower_ascii_char c :: lower_ascii t).
  rewrite IH; f_equal.
  unfold lower_ascii_char.
  destruct ((65 <=? c) && (c <=? 90)) eqn:E; [|reflexivity].
  unfold safe, underscore, hyphen in Hc.
  bool_to_prop Hc; bool_to_prop E; lia.
Qed.

Section Facts.

Variable lower : str -> str.

Lemma cleaned_safe (s : str) : Forall (fun c => safe c = true) (cleaned lower s).
Proof. apply strip_by_Forall, sub_unsafe_safe. Qed.

Lemma cleaned_head (s : str) : head_is edge (cleaned lower s) = false.
Proof. apply head_is_strip_by. Qed.

Lemma cleaned_last (s : str) : last_is edge (cleaned lower s) = false.
Proof. apply last_is_strip_by. Qed.

(** The prefix test only ever fires on the empty string. *)
Lemma name_before_return_cases (s : str) :
  name_before_return lower s =
  if is_empty (cleaned lower s) then proj else cleaned lower s.
Proof.
  unfold name_before_return; fold (cleaned lower s).
  rewrite cleaned_head, orb_false_r.
  destruct (cleaned lower s); reflexivity.
Qed.

Lemma name_before_return_nonempty (s : str) : name_before_return lower s <> [].
Proof.
  rewrite name_before_return_cases.
  destruct (cleaned lower s); simpl; discriminate.
Qed.

Lemma sanitize_before_return (s : str) :
  sanitize_for_docker lower s = name_before_return lower s.
Proof.
  unfold sanitize_for_docker.
  pose proof (name_before_return_nonempty s) as H.
  destruct (name_before_return lower s); [contradiction | reflexivity].
Qed.

Lemma sanitize_cases (s : str) :
  sanitize_for_docker lower s =
  if is_empty (cleaned lower s) then proj else cleaned lower s.
Proof. rewrite sanitize_before_return; apply name_before_return_cases. Qed.

Lemma sanitize_safe (s : str) :
  Forall (fun c => safe c = true) (sanitize_for_docker lower s).
Proof.
  rewrite sanitize_cases.
  destruct (is_empty (cleaned lower s)); [|apply cleaned_safe].
  repeat constructor.
Qed.

Lemma sanitize_nonempty (s : str) : sanitize_for_docker lower s <> [].
Proof. rewrite sanitize_before_return; apply name_before_return_nonempty. Qed.

Lemma sanitize_head (s : str) : head_is edge (sanitize_for_docker lower s) = false.
Proof.
  rewrite sanitize_cases.
  destruct (is_empty (cleaned lower s)); [reflexivity | apply cleaned_head].
Qed.

Lemma sanitize_last (s : str) : last_is edge (sanitize_for_docker lower s) = false.
Proof.
  rewrite sanitize_cases.
  destruct (is_empty (cleaned lower s)); [reflexivity | apply cleaned_last].
Qed.

Lemma sanitize_head_alnum (s : str) :
  head_is alnum (sanitize_for_docker lower s) = true.
Proof.
  pose proof (sanitize_safe s) as Hs.
  pose proof (sanitize_head s) as Hh.
  pose proof (sanitize_nonempty s) as Hn.
  destruct (sanitize_for_docker lower s) as [|c t]; [contradiction|].
  simpl in *. inversion Hs as [|? ? Hc _]; subst.
  rewrite safe_split, Hh, orb_false_r in Hc; exact Hc.
Qed.

Lemma sanitize_last_alnum (s : str) :
  last_is alnum (sanitize_for_docker lower s) = true.
Proof.
  pose proof (Forall_rev (sanitize_safe s)) as Hs.
  pose proof (sanitize_last s) as Hh.
  pose proof (sanitize_nonempty s) as Hn.
  unfold last_is in *.
  destruct (rev (sanitize_for_docker lower s)) as [|c t] eqn:E.
  - apply (f_equal (@rev N)) in E; rewrite rev_involutive in E; contradiction.
  - simpl in *. inversion Hs as [|? ? Hc _]; subst.
    rewrite safe_split, Hh, orb_false_r in Hc; exact Hc.
Qed.

Lemma sanitize_all_safe (s : str) : all_safe (sanitize_for_docker lower s) = true.
Proof.
  unfold all_safe; apply andb_true_iff; split.
  - apply negb_true_iff, is_empty_false, sanitize_nonempty.
  - apply forallb_forall, Forall_forall, sanitize_safe.
Qed.

(** A non-empty safe string with alphanumeric ends is a fixed point,
    provided lower-casing leaves safe strings alone. *)
Lemma sanitize_fixed (t : str) :
  (forall s, Forall (fun c => safe c = true) s -> lower s = s) ->
  t <> [] -> Forall (fun c => safe c = true) t ->
  head_is edge t = false -> last_is edge t = false ->
  sanitize_for_docker lower t = t.
Proof.
  intros Hlow Hne Hsafe Hh Hl.
  rewrite sanitize_cases; unfold cleaned.
  rewrite (Hlow t Hsafe), sub_ws_fixed, (sub_unsafe_fixed t Hsafe),
    (strip_by_id edge t Hh Hl).
  - destruct t; [contradiction | reflexivity].
  - eapply Forall_impl; [|exact Hsafe]. intros c; apply safe_not_space.
Qed.

Lemma sanitize_refines_spec (s : str) :
  sanitize_for_docker lower s = sanitize_spec lower s.
Proof.
  rewrite sanitize_cases; unfold sanitize_spec, cleaned, collapse_whitespace.
  rewrite trim_strip_by, (proj1 (sub_ws_collapse (lower s))).
  change (strip_outside (collapse_from false (lower s)))
    with (sub_unsafe (collapse_from false (lower s))).
  set (core := strip_by edge (sub_unsafe (collapse_from false (lower s)))).
  pose proof (head_is_strip_by edge
                (sub_unsafe (collapse_from false (lower s)))) as Hh.
  fold core in Hh. destruct core as [|c t]; [reflexivity|].
  simpl in Hh; simpl; rewrite Hh; reflexivity.
Qed.

End Facts.

(** *** Behaviour on sample names *)

Example sanitize_web_app_logs :
  sanitize_for_docker lower_ascii (lit "Web App Logs!") = lit "web_app_logs".
Proof. reflexivity. Qed.

Example sanitize_blank_runs :
  sanitize_for_docker lower_ascii (lit "  My   Proj--") = lit "my_proj".
Proof. reflexivity. Qed.

Example sanitize_only_symbols :
  sanitize_for_docker lower_ascii (lit "!!!") = lit "proj" /\
  sanitize_for_docker lower_ascii (lit "_-_") = lit "proj" /\
  sanitize_for_docker lower_ascii [] = lit "proj".
Proof. repeat split; reflexivity. Qed.

(** *** Claims *)

(** C1: the sanitizer is idempotent and its result matches
    [^[a-z0-9_-]+$], for every input string; lower-casing is any function
    that leaves strings over [[a-z0-9_-]] unchanged, as [str.lower] does. *)
Theorem sanitize_idempotent_safe_charset
  (lower : str -> str)
  (Hlower : forall s, Forall (fun c => safe c = true) s -> lower s = s)
  (s : str) :
  sanitize_for_docker lower (sanitize_for_docker lower s)
    = sanitize_for_docker lower s /\
  matches_safe_pattern (sanitize_for_docker lower s) = true /\
  Forall (fun c => safe c = true) (sanitize_for_docker lower s).
Proof.
  split; [|split].
  - apply sanitize_fixed; auto using sanitize_nonempty, sanitize_safe,
      sanitize_head, sanitize_last.
  - unfold matches_safe_pattern; now rewrite sanitize_all_safe.
  - apply sanitize_safe.
Qed.

Lemma sanitize_idempotent_safe_charset_witness :
  sanitize_for_docker lower_ascii
    (sanitize_for_docker lower_ascii (lit "Web App Logs!"))
    = sanitize_for_docker lower_ascii (lit "Web App Logs!") /\
  matches_safe_pattern
    (sanitize_for_docker lower_ascii (lit "Web App Logs!")) = true /\
  Forall (fun c => safe c = true)
    (sanitize_for_docker lower_ascii (lit "Web App Logs!")).
Proof.
  apply (sanitize_idempotent_safe_charset lower_ascii lower_ascii_fixed
           (lit "Web App Logs!")).
Defined.

(** C2: the sanitizer is total and never returns the empty string, and
    its result is the one of the pipeline of the specification:
    lower-case, collapse whitespace runs to one underscore, strip the
    code points outside [[a-z0-9_-]], trim [_]/[-] at both ends, prefix
    [proj] when empty or starting with [-]/[_], fall back to
    [default_proj] when still empty. *)
Theorem sanitize_total_nonempty_pipeline (lower : str -> str) (s : str) :
  (0 < List.length (sanitize_for_docker lower s))%nat /\
  sanitize_for_docker lower s = sanitize_spec lower s.
Proof.
  split; [|apply sanitize_refines_spec].
  pose proof (sanitize_nonempty lower s) as H.
  destruct (sanitize_for_docker lower s); [contradiction | simpl; lia].
Qed.

(** C10 as stated fails: the input [default_proj] is its own sanitized
    form, so the literal is returned, although not by the fallback. *)
Lemma sanitize_returns_default_proj_literal :
  ~ (forall s : str, sanitize_for_docker lower_ascii s <> lit "default_proj").
Proof. intros H; apply (H (lit "default_proj")); reflexivity. Qed.

(** C10, amended: the fallback branch is unreachable.  The name that
    reaches the [return] statement is never empty, so the function
    returns that name; the result begins with a code point of [[a-z0-9]];
    and it is the literal [default_proj] exactly when the cleaned input
    already is. *)
Theorem sanitize_fallback_unreachable (lower : str -> str) (s : str) :
  name_before_return lower s <> [] /\
  sanitize_for_docker lower s = name_before_return lower s /\
  head_is alnum (sanitize_for_docker lower s) = true /\
  (sanitize_for_docker lower s = default_proj <->
   cleaned lower s = default_proj).
Proof.
  split; [apply name_before_return_nonempty|].
  split; [apply sanitize_before_return|].
  split; [apply sanitize_head_alnum|].
  rewrite sanitize_cases.
  destruct (cleaned lower s) as [|c t]; simpl; [|tauto].
  split; discriminate.
Qed.

End Sanitizer.

(* ================================================================== *)
(** ** The host and port prompts of [main] (setup.py, lines 217-242) *)

Module Prompts.

(** What a failed attempt prints before the prompt is shown again. *)
Inductive message :=
| HostEmpty          (* "Indexer IP cannot be empty." *)
| HostInvalidChars   (* "Invalid characters in IP/hostname." *)
| HostHint           (* "(Hint: Use 'ipconfig'/'ip addr' ...)" *)
| PortOutOfRange     (* "Port must be 1-65535." *)
| PortNotANumber     (* "Port must be a number." *)
| PortHint.          (* "(Hint: Check Splunk > Settings > ...)" *)

Definition space : N := 32.
Definition slash : N := 47.

(** One pass through the body of the loop [while not indexer_ip]: the
    new value of [indexer_ip] and the messages printed.  [raw] is what
    [input] returned. *)
Definition host_attempt (last_ip raw : str) : str * list message :=
  let indexer_ip := py_or (strip raw) last_ip in
  if is_empty indexer_ip then ([], [HostEmpty; HostHint])
  else if contains [space] indexer_ip || contains [slash] indexer_ip
       then ([], [HostInvalidChars; HostHint])
       else (indexer_ip, []).

(** The loop over the operator's successive answers: the accepted host
    and the answers not yet read, or [None] while the prompt is still
    waiting. *)
Fixpoint host_loop (last_ip : str) (answers : list str)
  : option (str * list str) :=
  match answers with
  | [] => None
  | raw :: rest =>
      let indexer_ip := fst (host_attempt last_ip raw) in
      if is_empty indexer_ip then host_loop last_ip rest
      else Some (indexer_ip, rest)
  end.

Section WithDecimalTable.

(** [Py_UNICODE_TODECIMAL] on the code points from 127 up: the value of
    a Unicode decimal digit. *)
Variable unicode_decimal : N -> option N.

(** Whitespace that [int] skips at both ends: the ASCII [Py_ISSPACE]
    set, and the Unicode whitespace that the conversion to ASCII turns
    into a blank. *)
Definition int_space (c : N) : bool :=
  ((9 <=? c) && (c <=? 13)) || (c =? 32) || ((127 <=? c) && isspace c).

Definition decimal_value (c : N) : option N :=
  if (48 <=? c) && (c <=? 57) then Some (c - 48)
  else if c <? 127 then None
  else unicode_decimal c.

(** [sys.get_int_max_str_digits()]: from Python 3.11 on, a string with
    more digits than this limit is refused ([None]: no limit, as in
    Python 3.7 to 3.10). *)
Variable max_str_digits : option N.

(** The digit scan of [PyLong_FromString] in base 10: digits, with single
    underscores between digits only.  Returns the value, the number of
    digits and the text that follows the digits. *)
Fixpoint scan_digits (acc count : N) (prev_digit : bool) (s : str)
  : option (N * N * str) :=
  match s with
  | [] => if prev_digit then Some (acc, count, []) else None
  | c :: t =>
      match decimal_value c with
      | Some d => scan_digits (acc * 10 + d) (count + 1) true t
      | None =>
          if c =? 95
          then (if prev_digit then scan_digits acc count false t else None)
          else (if prev_digit then Some (acc, count, s) else None)
      end
  end.

Definition within_digit_limit (count : N) : bool :=
  match max_str_digits with
  | Some limit => count <=? limit
  | None => true
  end.

(** [int(s)] for a string [s]; [None] stands for [ValueError]. *)
Definition py_int (s : str) : option Z :=
  let s := dropwhile int_space s in
  let '(negative, s) :=
    match s with
    | 45 :: t => (true, t)
    | 43 :: t => (false, t)
    | _ => (false, s)
    end in
  match scan_digits 0 0 false s with
  | Some (n, count, rest) =>
      if is_empty (dropwhile int_space rest) && within_digit_limit count
      then Some (if negative then (- Z.of_N n)%Z else Z.of_N n)
      else None
  | None => None
  end.

(** One pass through the body of the loop [while not indexer_port]. *)
Definition port_attempt (last_port raw : str) : str * list message :=
  let indexer_port_input := py_or (strip raw) last_port in
  match py_int indexer_port_input with
  | Some port_num =>
      if ((1 <=? port_num) && (port_num <=? 65535))%Z
      then (indexer_port_input, if is_empty indexer_port_input
                                then [PortHint] else [])
      else ([], [PortOutOfRange; PortHint])
  | None => ([], [PortNotANumber; PortHint])
  end.

Fixpoint port_loop (last_port : str) (answers : list str)
  : option (str * list str) :=
  match answers with
  | [] => None
  | raw :: rest =>
      let indexer_port := fst (port_attempt last_port raw) in
      if is_empty indexer_port then port_loop last_port rest
      else Some (indexer_port, rest)
  end.

(** The string parses as an integer of the range 1-65535. *)
Definition port_in_range (s : str) : Prop :=
  exists n : Z, py_int s = Some n /\ (1 <= n <= 65535)%Z.

(** *** Lemmas *)

Lemma py_int_nonempty (s : str) (n : Z) : py_int s = Some n -> s <> [].
Proof. intros H ->; discriminate H. Qed.

Lemma port_attempt_accepts (last_port raw : str) :
  port_in_range (py_or (strip raw) last_port) ->
  port_attempt last_port raw = (py_or (strip raw) last_port, []).
Proof.
  intros (n & Hn & Hlo & Hhi); unfold port_attempt; rewrite Hn.
  apply Z.leb_le in Hlo, Hhi; rewrite Hlo, Hhi; simpl.
  apply py_int_nonempty in Hn.
  destruct (py_or (strip raw) last_port); [contradiction | reflexivity].
Qed.

Lemma port_attempt_rejects (last_port raw : str) :
  ~ port_in_range (py_or (strip raw) last_port) ->
  fst (port_attempt last_port raw) = [] /\
  In PortHint (snd (port_attempt last_port raw)).
Proof.
  intros Hno; unfold port_attempt.
  destruct (py_int (py_or (strip raw) last_port)) as [n|] eqn:Hn;
    [|simpl; auto].
  destruct ((1 <=? n) && (n <=? 65535))%Z eqn:E; [|simpl; auto].
  exfalso; apply Hno; exists n; split; [exact Hn|].
  apply andb_true_iff in E as [E1 E2]; apply Z.leb_le in E1, E2; lia.
Qed.

Lemma port_in_range_dec (s : str) : port_in_range s \/ ~ port_in_range s.
Proof.
  unfold port_in_range; destruct (py_int s) as [n|] eqn:Hn.
  - destruct ((1 <=? n) && (n <=? 65535))%Z eqn:E.
    + left; exists n; split; [reflexivity|].
      apply andb_true_iff in E as [E1 E2]; apply Z.leb_le in E1, E2; lia.
    + right; intros (m & Hm & Hlo & Hhi); injection Hm as <-.
      apply Z.leb_le in Hlo, Hhi; rewrite Hlo, Hhi in E; discriminate.
  - right; intros (m & Hm & _); discriminate.
Qed.

End WithDecimalTable.

(** The decimal table restricted to ASCII. *)
Definition ascii_digits_only : N -> option N := fun _ => None.

(** The default digit limit of Python 3.11 and later. *)
Definition default_digit_limit : option N := Some 4300.

Lemma contains_char (c : N) (s : str) : contains [c] s = existsb (N.eqb c) s.
Proof.
  induction s as [|d t IH]; simpl; [reflexivity|].
  now rewrite IH, andb_true_r.
Qed.

(** The test of the loop body, on the string that is examined. *)
Definition host_ok (candidate : str) : bool :=
  negb (is_empty candidate)
  && negb (existsb (N.eqb space) candidate)
  && negb (existsb (N.eqb slash) candidate).

Lemma host_attempt_ok (last_ip raw : str) :
  fst (host_attempt last_ip raw) =
  if host_ok (py_or (strip raw) last_ip)
  then py_or (strip raw) last_ip else [].
Proof.
  unfold host_attempt, host_ok; rewrite !contains_char.
  destruct (is_empty (py_or (strip raw) last_ip)); [reflexivity|].
  destruct (existsb (N.eqb space) _); [reflexivity|].
  destruct (existsb (N.eqb slash) _); reflexivity.
Qed.

Lemma host_ok_nonempty (s : str) : host_ok s = true -> is_empty s = false.
Proof. unfold host_ok; destruct (is_empty s); [discriminate | reflexivity]. Qed.

(** The answer [10.0<TAB>0.5]. *)
Definition tabbed_host : str := Eval cbv in lit "10.0" ++ [9] ++ lit "0.5".

(** *** Scenarios of the specification *)

Example port_9997_accepted :
  port_loop ascii_digits_only default_digit_limit (lit "9997") [lit "9997"]
    = Some (lit "9997", []).
Proof. reflexivity. Qed.

Example port_99999_then_abc_rejected :
  port_loop ascii_digits_only default_digit_limit (lit "9997")
    [lit "99999"; lit "abc"; lit "0"; lit "-5"; lit "65536"; lit " 8089 "]
    = Some (lit "8089", []).
Proof. reflexivity. Qed.

Example port_messages :
  snd (port_attempt ascii_digits_only default_digit_limit [] (lit "99999"))
    = [PortOutOfRange; PortHint] /\
  snd (port_attempt ascii_digits_only default_digit_limit [] (lit "abc"))
    = [PortNotANumber; PortHint].
Proof. split; reflexivity. Qed.

Example port_default_on_empty_answer :
  port_loop ascii_digits_only default_digit_limit (lit "9997") [[]] = Some (lit "9997", []).
Proof. reflexivity. Qed.

Example py_int_forms :
  py_int ascii_digits_only default_digit_limit (lit "+0080") = Some 80%Z /\
  py_int ascii_digits_only default_digit_limit (lit "1_000") = Some 1000%Z /\
  py_int ascii_digits_only default_digit_limit (lit "1__0") = None /\
  py_int ascii_digits_only default_digit_limit (lit "_1") = None /\
  py_int ascii_digits_only default_digit_limit (lit "1_") = None /\
  py_int ascii_digits_only default_digit_limit (lit "- 1") = None /\
  py_int ascii_digits_only default_digit_limit (lit "12a") = None /\
  py_int ascii_digits_only default_digit_limit (lit "") = None /\
  py_int ascii_digits_only None (lit "00080") = Some 80%Z /\
  py_int ascii_digits_only (Some 4) (lit "00080") = None.
Proof. repeat split; reflexivity. Qed.

Example host_accepted :
  host_loop [] [lit "bad host"; lit "http://x"; []; lit " 10.0.0.5 "]
    = Some (lit "10.0.0.5", []).
Proof. reflexivity. Qed.

(** *** Claims *)

(** C3: the port prompt accepts the examined string (the stripped
    answer, or the saved default when the answer is blank) exactly when
    [int] parses it to an integer of 1-65535; an accepted string ends
    the loop, and every other one (not a number, zero, negative, above
    65535) is rejected and the prompt is shown again. *)
Theorem port_validation_exact
  (unicode_decimal : N -> option N) (max_str_digits : option N)
  (last_port raw : str) (rest : list str) :
  let int := py_int unicode_decimal max_str_digits in
  let in_range := port_in_range unicode_decimal max_str_digits in
  let loop := port_loop unicode_decimal max_str_digits last_port in
  let candidate := py_or (strip raw) last_port in
  let attempt := port_attempt unicode_decimal max_str_digits last_port raw in
  (in_range candidate <-> fst attempt <> []) /\
  (in_range candidate <->
   loop (raw :: rest) = Some (candidate, rest) /\ fst attempt = candidate) /\
  (~ in_range candidate <->
   loop (raw :: rest) = loop rest /\ fst attempt = []) /\
  (int candidate = None -> attempt = ([], [PortNotANumber; PortHint])) /\
  (forall n : Z, int candidate = Some n -> (n <= 0 \/ 65535 < n)%Z ->
     attempt = ([], [PortOutOfRange; PortHint])).
Proof.
  intros int in_range loop candidate attempt; subst int in_range loop.
  assert (Hyes : port_in_range unicode_decimal max_str_digits candidate ->
                 attempt = (candidate, []) /\ candidate <> []).
  { intros H; split; [now apply port_attempt_accepts|].
    destruct H as (n & Hn & _); eapply py_int_nonempty; exact Hn. }
  assert (Hno : ~ port_in_range unicode_decimal max_str_digits candidate ->
                fst attempt = []).
  { intros H; now apply port_attempt_rejects. }
  assert (Hloop_yes : fst attempt = candidate -> candidate <> [] ->
            port_loop unicode_decimal max_str_digits last_port (raw :: rest)
              = Some (candidate, rest)).
  { intros E Hne; simpl; fold attempt; rewrite E.
    destruct candidate; [contradiction | reflexivity]. }
  assert (Hloop_no : fst attempt = [] ->
            port_loop unicode_decimal max_str_digits last_port (raw :: rest)
              = port_loop unicode_decimal max_str_digits last_port rest).
  { intros E; simpl; fold attempt; rewrite E; reflexivity. }
  assert (Hlen : forall l r, port_loop unicode_decimal max_str_digits last_port l
            = Some r -> (List.length (snd r) < List.length l)%nat).
  { induction l as [|a l IH]; simpl; [discriminate|]; intros r.
    destruct (is_empty _).
    - intros Hr; specialize (IH r Hr); lia.
    - intros [= <-]; simpl; lia. }
  destruct (port_in_range_dec unicode_decimal max_str_digits candidate) as [Hin|Hout].
  - destruct (Hyes Hin) as [Ha Hne].
    assert (Hf : fst attempt = candidate) by now rewrite Ha.
    split; [|split; [|split; [|split]]].
    + split; [intros _; now rewrite Hf | intros _; exact Hin].
    + split; [intros _; split; [now apply Hloop_yes | exact Hf]
             | intros _; exact Hin].
    + split; [intros H; contradiction
             | intros [_ E]; rewrite Hf in E; contradiction].
    + intros Hnone; destruct Hin as (n & Hn & _); congruence.
    + intros n Hn Hbad; destruct Hin as (m & Hm & Hlo & Hhi).
      assert (m = n) by congruence; lia.
  - pose proof (Hno Hout) as Hf.
    split; [|split; [|split; [|split]]].
    + split; [intros H; contradiction | intros H; contradiction].
    + split; [intros H; contradiction|].
      intros [E _]; rewrite (Hloop_no Hf) in E.
      specialize (Hlen _ _ E); simpl in Hlen; lia.
    + split; [intros _; split; [now apply Hloop_no | exact Hf]
             | intros _; exact Hout].
    + intros Hnone; unfold attempt, port_attempt; fold candidate.
      now rewrite Hnone.
    + intros n Hn Hbad; unfold attempt, port_attempt; fold candidate.
      rewrite Hn.
      destruct ((1 <=? n) && (n <=? 65535))%Z eqn:E; [|reflexivity].
      apply andb_true_iff in E as [E1 E2]; apply Z.leb_le in E1, E2; lia.
Qed.

(** C4 as stated fails: a host with a tab inside is whitespace-bearing
    and yet accepted, since the test looks for the blank U+0020 only. *)
Lemma host_with_tab_accepted :
  existsb isspace (py_or (strip tabbed_host) []) = true /\
  host_attempt [] tabbed_host = (tabbed_host, []) /\
  host_loop [] [tabbed_host] = Some (tabbed_host, []).
Proof. repeat split; reflexivity. Qed.

(** C4, amended: the host prompt rejects the examined string (the
    stripped answer, or the saved default when the answer is blank)
    exactly when it is empty or holds a blank (U+0020) or a slash;
    rejection shows the prompt again.  In particular every non-empty
    string with no whitespace and no slash is accepted. *)
Theorem host_validation_blank_slash
  (last_ip raw : str) (rest : list str) :
  let candidate := py_or (strip raw) last_ip in
  fst (host_attempt last_ip raw)
    = (if host_ok candidate then candidate else []) /\
  host_loop last_ip (raw :: rest)
    = (if host_ok candidate then Some (candidate, rest)
       else host_loop last_ip rest) /\
  (host_ok candidate = false <->
   candidate = [] \/ In space candidate \/ In slash candidate) /\
  (candidate <> [] ->
   (forall c, In c candidate -> isspace c = false /\ c <> slash) ->
   host_ok candidate = true).
Proof.
  intros candidate.
  assert (Hin : forall c s, existsb (N.eqb c) s = true <-> In c s).
  { intros c s; rewrite existsb_exists; split.
    - intros (x & Hx & E); apply N.eqb_eq in E; now subst.
    - intros H; exists c; split; [exact H | apply N.eqb_refl]. }
  split; [apply host_attempt_ok|].
  split.
  { simpl; rewrite host_attempt_ok; fold candidate.
    destruct (host_ok candidate) eqn:E; [|reflexivity].
    now rewrite (host_ok_nonempty _ E). }
  split.
  - unfold host_ok; rewrite !andb_false_iff, !negb_false_iff.
    rewrite is_empty_true, !Hin; tauto.
  - intros Hne Hall; unfold host_ok.
    apply is_empty_false in Hne; rewrite Hne; simpl.
    apply andb_true_iff; split; apply negb_true_iff;
      apply not_true_is_false; rewrite Hin; intros Hc;
      destruct (Hall _ Hc) as [Hs Hsl].
    + discriminate Hs.
    + now apply Hsl.
Qed.

End Prompts.

(* ================================================================== *)
(** ** [run_command] (setup.py, lines 79-115) *)

Module Process.

(** The [CompletedProcess] that [subprocess.run] hands back, with the
    two streams captured as text. *)
Record completed := {
  returncode : Z;
  stdout : str;
  stderr : str
}.

(** What starting the command led to. *)
Inductive spawned :=
| Ran (result : completed)   (* the process was started and ended *)
| NotFound                   (* [FileNotFoundError] *)
| Failed.                    (* any other exception of [subprocess.run] *)

(** The lines that [run_command] prints. *)
Inductive printed :=
| RunningCommand (cmd_str : str) (cwd : option str)  (* stdout *)
| Output (text : str)            (* stdout: "   Output: <text>" *)
| ErrorOutput (text : str)       (* stderr: "   Error Output: <text>" *)
| CommandNotFound (name : str)   (* stderr *)
| CommandFailed (code : Z)       (* stderr: "Command failed with exit code" *)
| UnexpectedError (cmd_str : str). (* stderr *)

(** [run_command] returns a boolean or leaves through [sys.exit]. *)
Inductive outcome :=
| Returns (ok : bool)
| Exits (status : Z).

Definition benign_patterns : list str := Eval cbv in
  [lit "no such container"; lit "network not found";
   lit "removing network"; lit "removing volume"; lit "already exists"].

(** [' '.join(parts)] *)
Fixpoint join_blank (parts : list str) : str :=
  match parts with
  | [] => []
  | [a] => a
  | a :: rest => a ++ 32 :: join_blank rest
  end.

Section WithCaseMapping.

Variable lower : str -> str.

(** [any(pattern in stderr_lower for pattern in benign_patterns)] under
    the guard [if result.stderr]. *)
Definition is_benign_error (result : completed) : bool :=
  if is_empty (stderr result) then false
  else
    let stderr_lower := lower (stderr result) in
    existsb (fun pattern => contains pattern stderr_lower) benign_patterns.

(** [subprocess.run(..., check=check)] raises [CalledProcessError] when
    [check] is set and the exit status is not zero; the handler prints
    the status and exits.  Otherwise the result is inspected. *)
Definition run_command (command_list : list str) (cwd : option str)
  (check suppress_output : bool) (p : spawned) : list printed * outcome :=
  let cmd_str := join_blank command_list in
  let banner :=
    if suppress_output then [] else [RunningCommand cmd_str cwd] in
  match p with
  | NotFound =>
      (banner ++ [CommandNotFound (hd [] command_list)], Exits 1)
  | Failed =>
      (banner ++ [UnexpectedError cmd_str], Exits 1)
  | Ran result =>
      if check && negb (returncode result =? 0)%Z
      then (banner ++ [CommandFailed (returncode result)], Exits 1)
      else
        let out :=
          if negb suppress_output && negb (is_empty (stdout result))
             && negb (is_empty (strip (stdout result)))
          then [Output (strip (stdout result))] else [] in
        let err :=
          if negb (is_empty (stderr result))
             && negb (is_empty (strip (stderr result)))
             && negb (is_benign_error result)
          then [ErrorOutput (strip (stderr result))] else [] in
        (banner ++ out ++ err, Returns (returncode result =? 0)%Z)
  end.

(** *** Lemmas *)

Lemma is_benign_error_false (result : completed) :
  stderr result <> [] ->
  (is_benign_error result = false <->
   forall pattern, In pattern benign_patterns ->
     contains pattern (lower (stderr result)) = false).
Proof.
  intros Hne; unfold is_benign_error.
  apply is_empty_false in Hne; rewrite Hne.
  split.
  - intros H pattern Hin.
    destruct (contains pattern (lower (stderr result))) eqn:E;
      [|reflexivity].
    assert (X : existsb (fun q => contains q (lower (stderr result)))
                  benign_patterns = true)
      by (apply existsb_exists; eauto).
    congruence.
  - intros H; apply not_true_is_false; intros X.
    apply existsb_exists in X as (q & Hq & Hc).
    rewrite (H q Hq) in Hc; discriminate.
Qed.

End WithCaseMapping.

Lemma error_output_in_banner (cmd_str : str) (cwd : option str)
  (b : bool) (text : str) (l : list printed) :
  In (ErrorOutput text)
     ((if b then [] else [RunningCommand cmd_str cwd]) ++ l) <->
  In (ErrorOutput text) l.
Proof.
  destruct b; simpl; [tauto|].
  split; [intros [H|H]; [discriminate | exact H] | now right].
Qed.

(** *** Sample runs *)

Definition docker_build : list str := Eval cbv in
  [lit "docker"; lit "build"; lit "."].

(** Two lines of stderr: a real error, then a benign notice. *)
Definition mixed_stderr : str := Eval cbv in
  lit "ERROR: failed to read dockerfile" ++ [10]
  ++ lit "network web_default Already Exists".

Definition plain_stderr : str := Eval cbv in lit "permission denied".

Example benign_notice_hidden :
  run_command lower_ascii docker_build None false true
    (Ran {| returncode := 1; stdout := [];
            stderr := lit "Error: No such container: web-uf" |})
  = ([], Returns false).
Proof. reflexivity. Qed.

Example other_stderr_shown :
  run_command lower_ascii docker_build None false true
    (Ran {| returncode := 1; stdout := []; stderr := plain_stderr |})
  = ([ErrorOutput plain_stderr], Returns false).
Proof. reflexivity. Qed.

(** *** Claims *)



End Process.

(* ================================================================== *)
(** ** The lines of the root [.gitignore]: how they are read and what is
       appended (setup.py, lines 453-461) *)

Module Gitignore.

Definition LF : N := 10.
Definition CR : N := 13.

(** Reading a text file opened with the default [newline=None]: the
    decoder turns [\r\n] and a lone [\r] into [\n].  [pending_cr] tells
    that the previous code point was a [\r]. *)
Fixpoint translate_newlines (pending_cr : bool) (s : str) : str :=
  match s with
  | [] => []
  | c :: t =>
      if c =? CR then LF :: translate_newlines true t
      else if c =? LF
           then (if pending_cr then translate_newlines false t
                 else LF :: translate_newlines false t)
           else c :: translate_newlines false t
  end.

(** [for line in f]: the text is cut after every [\n]; [cur] is the
    line read so far.  A last line without [\n] is yielded as it is. *)
Fixpoint lines_from (cur : str) (s : str) : list str :=
  match s with
  | [] => if is_empty cur then [] else [cur]
  | c :: t =>
      if c =? LF then (cur ++ [LF]) :: lines_from [] t
      else lines_from (cur ++ [c]) t
  end.

Definition readlines (content : str) : list str :=
  lines_from [] (translate_newlines false content).

(** [line.strip() for line in f if line.strip()], before [set(...)]
    forgets order and repetition. *)
Definition stripped_lines (content : str) : list str :=
  filter (fun l => negb (is_empty l)) (List.map strip (readlines content)).

(** [f"/{instance_dir.relative_to(parent_dir).as_posix()}/"], where
    [instance_dir] is [parent_dir / project_name_sanitized]. *)
Definition ignore_entry (project_name_sanitized : str) : str :=
  47 :: project_name_sanitized ++ [47].

Definition comment_prefix : str := Eval cbv in
  lit "# Ignore generated instance '".

Definition comment_line (project_name_sanitized : str) : str :=
  comment_prefix ++ project_name_sanitized ++ [39].

(** The text written by [f.write(...)]. *)
Definition appended_text (project_name_sanitized : str) : str :=
  LF :: comment_line project_name_sanitized
     ++ LF :: ignore_entry project_name_sanitized ++ [LF].

(** The number of lines of the file that are the entry, once stripped. *)
Definition occurrences (entry : str) (entries : list str) : nat :=
  List.length (filter (str_eqb entry) entries).

(** *** Lemmas on stripping *)

Lemma dropwhile_app (p : N -> bool) (a b : str) :
  dropwhile p (a ++ b) =
  if forallb p a then dropwhile p b else dropwhile p a ++ b.
Proof.
  induction a as [|c t IH]; simpl; [reflexivity|].
  destruct (p c); simpl; [exact IH | reflexivity].
Qed.

Lemma strip_snoc_space (s : str) (c : N) :
  isspace c = true -> strip (s ++ [c]) = strip s.
Proof.
  intros Hc; unfold strip, strip_by; f_equal.
  rewrite dropwhile_app.
  destruct (forallb isspace s) eqn:E.
  - rewrite (dropwhile_all _ _ E); simpl; rewrite Hc; reflexivity.
  - rewrite rev_app_distr; simpl; rewrite Hc; reflexivity.
Qed.

Lemma strip_fixed (s : str) :
  head_is isspace s = false -> last_is isspace s = false -> strip s = s.
Proof. apply strip_by_id. Qed.

(** *** Lemmas on lines *)

Definition no_line_break (s : str) : Prop :=
  Forall (fun c => c <> LF /\ c <> CR) s.

(** The state of the newline decoder after [s]. *)
Definition pending_after (pending_cr : bool) (s : str) : bool :=
  match rev s with
  | [] => pending_cr
  | c :: _ => c =? CR
  end.

Lemma pending_after_cons (b : bool) (c : N) (t : str) :
  pending_after b (c :: t) = pending_after (c =? CR) t.
Proof.
  unfold pending_after; simpl.
  destruct (rev t) as [|d r] eqn:E; simpl; reflexivity.
Qed.

Lemma translate_app (b : bool) (f g : str) :
  translate_newlines b (f ++ g) =
  translate_newlines b f ++ translate_newlines (pending_after b f) g.
Proof.
  revert b; induction f as [|c t IH]; intros b; [reflexivity|].
  rewrite pending_after_cons; simpl.
  destruct (N.eqb_spec c CR) as [->|Hcr]; [rewrite IH; reflexivity|].
  destruct (N.eqb_spec c LF) as [->|Hlf].
  - destruct b; rewrite IH; reflexivity.
  - rewrite IH; reflexivity.
Qed.

Lemma translate_no_cr (s : str) :
  Forall (fun c => c <> CR) s -> translate_newlines false s = s.
Proof.
  induction 1 as [|d u Hd Hu IHu]; [reflexivity|].
  simpl. destruct (N.eqb_spec d CR); [contradiction|].
  destruct (N.eqb_spec d LF) as [->|_]; now rewrite IHu.
Qed.

Lemma translate_lf_cons (b : bool) (s : str) :
  translate_newlines b (LF :: s) =
  if b then translate_newlines false s
  else LF :: translate_newlines false s.
Proof. reflexivity. Qed.

(** When a [\r] is pending at the end, the decoded text ends with the
    [\n] that stands for it. *)
Lemma translate_pending (f : str) :
  pending_after false f = true ->
  exists x, translate_newlines false f = x ++ [LF].
Proof.
  unfold pending_after; destruct (rev f) as [|c r] eqn:E; [discriminate|].
  intros Hc; apply N.eqb_eq in Hc; subst c.
  apply (f_equal (@rev N)) in E; rewrite rev_involutive in E; simpl in E.
  subst f; rewrite translate_app; simpl.
  eexists; reflexivity.
Qed.

Definition entries_from (cur : str) (s : str) : list str :=
  filter (fun l => negb (is_empty l)) (List.map strip (lines_from cur s)).

Lemma entries_from_nil (cur : str) :
  entries_from cur [] =
  filter (fun l => negb (is_empty l)) [strip cur].
Proof.
  unfold entries_from; simpl.
  destruct cur; reflexivity.
Qed.

Lemma isspace_LF : isspace LF = true.
Proof. reflexivity. Qed.

Lemma entries_from_app_lf (a cur b : str) :
  entries_from cur (a ++ LF :: b) = entries_from cur a ++ entries_from [] b.
Proof.
  revert cur; induction a as [|c t IH]; intros cur.
  - rewrite entries_from_nil; unfold entries_from; simpl.
    rewrite (strip_snoc_space cur LF isspace_LF).
    destruct (is_empty (strip cur)); reflexivity.
  - unfold entries_from in *; simpl.
    destruct (N.eqb_spec c LF) as [->|Hlf].
    + simpl. rewrite (IH []).
      destruct (is_empty (strip (cur ++ [LF]))); reflexivity.
    + apply IH.
Qed.

Lemma lines_from_no_lf (cur s : str) :
  Forall (fun c => c <> LF) s ->
  lines_from cur s = if is_empty (cur ++ s) then [] else [cur ++ s].
Proof.
  intros H; revert cur; induction H as [|c t Hc Ht IH]; intros cur; simpl.
  - now rewrite app_nil_r.
  - destruct (N.eqb_spec c LF); [contradiction|].
    rewrite IH, <- app_assoc; reflexivity.
Qed.

(** A single line that its strip leaves alone is one entry. *)
Lemma entries_from_line (s : str) :
  Forall (fun c => c <> LF) s -> s <> [] ->
  head_is isspace s = false -> last_is isspace s = false ->
  entries_from [] s = [s].
Proof.
  intros Hlf Hne Hh Hl; unfold entries_from.
  rewrite lines_from_no_lf by exact Hlf; simpl.
  apply is_empty_false in Hne; rewrite Hne; simpl.
  rewrite (strip_fixed s Hh Hl), Hne; reflexivity.
Qed.

Lemma last_is_snoc (p : N -> bool) (s : str) (c : N) :
  last_is p (s ++ [c]) = p c.
Proof. unfold last_is; now rewrite rev_app_distr. Qed.

Lemma comment_line_entry (name : str) :
  no_line_break name ->
  entries_from [] (comment_line name) = [comment_line name].
Proof.
  intros Hname; apply entries_from_line.
  - unfold comment_line; apply Forall_app; split.
    + unfold comment_prefix, LF; repeat constructor; discriminate.
    + apply Forall_app; split.
      * eapply Forall_impl; [|exact Hname]; simpl; tauto.
      * repeat constructor; discriminate.
  - discriminate.
  - reflexivity.
  - unfold comment_line; rewrite app_assoc; apply last_is_snoc.
Qed.

Lemma ignore_entry_entry (name : str) :
  no_line_break name ->
  entries_from [] (ignore_entry name) = [ignore_entry name].
Proof.
  intros Hname; apply entries_from_line.
  - unfold ignore_entry; constructor; [discriminate|].
    apply Forall_app; split.
    + eapply Forall_impl; [|exact Hname]; simpl; tauto.
    + repeat constructor; discriminate.
  - discriminate.
  - reflexivity.
  - unfold ignore_entry; rewrite app_comm_cons; apply last_is_snoc.
Qed.

Lemma appended_tail_no_cr (name : str) :
  no_line_break name ->
  Forall (fun c => c <> CR)
    (comment_line name ++ LF :: ignore_entry name ++ [LF]).
Proof.
  intros Hname.
  assert (Hn : Forall (fun c => c <> CR) name)
    by (eapply Forall_impl; [|exact Hname]; simpl; tauto).
  unfold comment_line, ignore_entry, comment_prefix, CR, LF.
  repeat (apply Forall_app; split); try exact Hn;
    repeat (constructor; try discriminate);
    repeat (apply Forall_app; split); try exact Hn;
    repeat (constructor; try discriminate).
Qed.

(** The appended text adds two stripped lines to those of the file,
    whatever the file ends with. *)
Lemma stripped_lines_appended (content name : str) :
  no_line_break name ->
  stripped_lines (content ++ appended_text name) =
  stripped_lines content ++ [comment_line name; ignore_entry name].
Proof.
  intros Hname.
  set (g := comment_line name ++ LF :: ignore_entry name ++ [LF]).
  assert (Hg : entries_from [] g = [comment_line name; ignore_entry name]).
  { unfold g; rewrite entries_from_app_lf, entries_from_app_lf.
    rewrite comment_line_entry, ignore_entry_entry by exact Hname.
    reflexivity. }
  unfold stripped_lines, readlines, appended_text; fold g.
  fold (entries_from [] (translate_newlines false (content ++ LF :: g))).
  fold (entries_from [] (translate_newlines false content)).
  rewrite translate_app.
  assert (Htail : forall b, translate_newlines b (LF :: g) =
            if b then g else LF :: g).
  { intros b; rewrite translate_lf_cons.
    now rewrite (translate_no_cr g (appended_tail_no_cr name Hname)). }
  rewrite Htail.
  destruct (pending_after false content) eqn:Ep.
  - destruct (translate_pending content Ep) as [x Hx]; rewrite Hx.
    rewrite <- app_assoc; simpl.
    rewrite !entries_from_app_lf, Hg.
    change (entries_from [] []) with (@nil str).
    now rewrite app_nil_r.
  - now rewrite entries_from_app_lf, Hg.
Qed.

Lemma comment_is_not_entry (name : str) :
  str_eqb (ignore_entry name) (comment_line name) = false.
Proof. reflexivity. Qed.

Lemma existsb_occurrences (entry : str) (entries : list str) :
  existsb (str_eqb entry) entries
  = negb (occurrences entry entries =? 0)%nat.
Proof.
  unfold occurrences; induction entries as [|a l IH]; simpl; [reflexivity|].
  destruct (str_eqb entry a); simpl; [reflexivity | exact IH].
Qed.

Lemma occurrences_app (entry : str) (l1 l2 : list str) :
  occurrences entry (l1 ++ l2)
  = (occurrences entry l1 + occurrences entry l2)%nat.
Proof. unfold occurrences; now rewrite filter_app, length_app. Qed.

(** The appended text adds one line that is the entry. *)
Lemma occurrences_appended (name content : str) :
  no_line_break name ->
  occurrences (ignore_entry name)
    (stripped_lines (content ++ appended_text name))
  = S (occurrences (ignore_entry name) (stripped_lines content)).
Proof.
  intros Hname.
  rewrite (stripped_lines_appended content name Hname), occurrences_app.
  unfold occurrences at 2; cbn [filter].
  rewrite comment_is_not_entry, str_eqb_refl; cbn [List.length]; lia.
Qed.

Lemma safe_no_line_break (name : str) :
  Forall (fun c => Sanitizer.safe c = true) name -> no_line_break name.
Proof.
  intros H; eapply Forall_impl; [|exact H]; simpl.
  intros c Hc; split; intros ->; discriminate Hc.
Qed.

(** *** Sample files *)

Definition web : str := Eval cbv in lit "web".

(** A file that already lists [/web/] on two lines. *)
Definition listed_twice : str := Eval cbv in
  lit "/web/" ++ [10] ++ lit "/web/" ++ [10].

Example update_after_carriage_return :
  stripped_lines (lit "*.pyc" ++ [13] ++ appended_text web)
  = [lit "*.pyc"; lit "# Ignore generated instance 'web'"; lit "/web/"].
Proof. reflexivity. Qed.

End Gitignore.

(* ================================================================== *)
(** ** The [json] module as [load_setup_config] and [save_setup_config]
       use it: [json.load] and [json.dump(..., indent=4)] *)

Module Json.

#[local] Set Warnings "-register-all".

(** A decoded JSON document.  A Python [dict] keeps its keys apart and in
    insertion order: [JObj] holds the items in that order.  A [float] is
    kept as the text of its literal. *)
Inductive json :=
| JNull
| JBool (b : bool)
| JInt (z : Z)
| JFloat (literal : str)
| JStr (s : str)
| JArr (items : list json)
| JObj (members : list (str * json)).

(** [d[key] = value]: the value is replaced where the key is present,
    the item is added at the end otherwise. *)
Fixpoint dict_set (key : str) (value : json) (d : list (str * json))
  : list (str * json) :=
  match d with
  | [] => [(key, value)]
  | (k, v) :: rest =>
      if str_eqb k key then (k, value) :: rest
      else (k, v) :: dict_set key value rest
  end.

(** [d.get(key)] *)
Fixpoint dict_get (key : str) (d : list (str * json)) : option json :=
  match d with
  | [] => None
  | (k, v) :: rest => if str_eqb k key then Some v else dict_get key rest
  end.

Definition quote : N := 34.
Definition backslash : N := 92.

(** *** Four hexadecimal digits *)

Definition hex_digit (d : N) : N := if d <? 10 then 48 + d else 87 + d.

Definition hex_value (c : N) : option N :=
  if (48 <=? c) && (c <=? 57) then Some (c - 48)
  else if (97 <=? c) && (c <=? 102) then Some (c - 87)
  else if (65 <=? c) && (c <=? 70) then Some (c - 55)
  else None.

(** ['{0:04x}'.format(n)] for [n < 0x10000] *)
Definition hex4_encode (n : N) : str :=
  [hex_digit (n / 4096); hex_digit ((n / 256) mod 16);
   hex_digit ((n / 16) mod 16); hex_digit (n mod 16)].

Definition hex4_decode (a b c d : N) : option N :=
  match hex_value a, hex_value b, hex_value c, hex_value d with
  | Some x, Some y, Some z, Some w => Some (((x * 16 + y) * 16 + z) * 16 + w)
  | _, _, _, _ => None
  end.

Definition is_high_surrogate (c : N) : bool := (55296 <=? c) && (c <=? 56319).
Definition is_low_surrogate (c : N) : bool := (56320 <=? c) && (c <=? 57343).

(** [0x10000 + (((hi - 0xd800) << 10) | (lo - 0xdc00))] *)
Definition join_surrogates (hi lo : N) : N :=
  65536 + (hi - 55296) * 1024 + (lo - 56320).

(** *** Encoding a string ([ensure_ascii] is on) *)

Definition encode_char (c : N) : str :=
  if c =? quote then [backslash; quote]
  else if c =? backslash then [backslash; backslash]
  else if c =? 8 then [backslash; 98]
  else if c =? 12 then [backslash; 102]
  else if c =? 10 then [backslash; 110]
  else if c =? 13 then [backslash; 114]
  else if c =? 9 then [backslash; 116]
  else if (32 <=? c) && (c <=? 126) then [c]
  else if c <? 65536 then backslash :: 117 :: hex4_encode c
  else
    let n := c - 65536 in
    backslash :: 117 :: hex4_encode (55296 + n / 1024)
      ++ backslash :: 117 :: hex4_encode (56320 + n mod 1024).

Definition encode_chars (s : str) : str := flat_map encode_char s.

Definition encode_string (s : str) : str :=
  quote :: encode_chars s ++ [quote].

(** *** Decoding a string *)

Definition unescape (e : N) : option N :=
  if e =? quote then Some quote
  else if e =? backslash then Some backslash
  else if e =? 47 then Some 47
  else if e =? 98 then Some 8
  else if e =? 102 then Some 12
  else if e =? 110 then Some 10
  else if e =? 114 then Some 13
  else if e =? 116 then Some 9
  else None.

Definition emit (pending : option N) (out : option (str * str))
  : option (str * str) :=
  match out with
  | Some (text, rest) =>
      Some (match pending with Some h => h :: text | None => text end, rest)
  | None => None
  end.

Definition emit_char (c : N) (out : option (str * str))
  : option (str * str) :=
  match out with
  | Some (text, rest) => Some (c :: text, rest)
  | None => None
  end.

(** The scan of a string after its opening quote, up to and including
    the closing quote; returns the text and what follows.  [pending] is
    a high surrogate read from a [\uXXXX] escape: a low surrogate escape
    right after it joins it into one code point, anything else leaves it
    as it is.  Control characters below U+0020 are refused. *)
Fixpoint scan_string (pending : option N) (s : str) : option (str * str) :=
  match s with
  | [] => None
  | c :: t =>
      if c =? quote then emit pending (Some ([], t))
      else if c =? backslash then
        match t with
        | [] => None
        | e :: t1 =>
            if e =? 117 then
              match t1 with
              | h1 :: h2 :: h3 :: h4 :: t2 =>
                  match hex4_decode h1 h2 h3 h4 with
                  | None => None
                  | Some uni =>
                      match pending with
                      | Some hi =>
                          if is_low_surrogate uni
                          then emit_char (join_surrogates hi uni)
                                 (scan_string None t2)
                          else if is_high_surrogate uni
                               then emit_char hi (scan_string (Some uni) t2)
                               else emit_char hi
                                      (emit_char uni (scan_string None t2))
                      | None =>
                          if is_high_surrogate uni
                          then scan_string (Some uni) t2
                          else emit_char uni (scan_string None t2)
                      end
                  end
              | _ => None
              end
            else
              match unescape e with
              | Some ch => emit pending (emit_char ch (scan_string None t1))
              | None => None
              end
        end
      else if c <? 32 then None
      else emit pending (emit_char c (scan_string None t))
  end.

(** *** Lemmas: hexadecimal digits *)

(** Linear arithmetic with quotients and remainders by constants. *)
Ltac div_lia := zify; Z.to_euclidean_division_equations; lia.

Lemma hex_value_digit (d : N) : d < 16 -> hex_value (hex_digit d) = Some d.
Proof.
  intros Hd; unfold hex_digit, hex_value.
  destruct (N.ltb_spec d 10) as [Hlt|Hge].
  - replace ((48 <=? 48 + d) && (48 + d <=? 57)) with true
      by (symmetry; apply andb_true_iff; split; apply N.leb_le; lia).
    f_equal; lia.
  - replace ((48 <=? 87 + d) && (87 + d <=? 57)) with false
      by (symmetry; apply andb_false_iff; right; apply N.leb_gt; lia).
    replace ((97 <=? 87 + d) && (87 + d <=? 102)) with true
      by (symmetry; apply andb_true_iff; split; apply N.leb_le; lia).
    f_equal; lia.
Qed.

Lemma hex4_round_trip (n : N) :
  n < 65536 ->
  hex4_decode (hex_digit (n / 4096)) (hex_digit ((n / 256) mod 16))
    (hex_digit ((n / 16) mod 16)) (hex_digit (n mod 16)) = Some n.
Proof.
  intros Hn; unfold hex4_decode.
  rewrite !hex_value_digit by div_lia.
  f_equal.
  replace (n / 4096) with (n / 16 / 16 / 16)
    by (rewrite !N.Div0.div_div; reflexivity).
  replace (n / 256) with (n / 16 / 16)
    by (rewrite !N.Div0.div_div; reflexivity).
  div_lia.
Qed.

Lemma hex_digit_printable (d : N) :
  d < 16 -> 32 <= hex_digit d <= 126 /\ hex_digit d <> 34 /\ hex_digit d <> 92.
Proof.
  intros Hd; unfold hex_digit; destruct (N.ltb_spec d 10); lia.
Qed.

(** *** Lemmas: a string survives encoding and decoding *)

(** No high surrogate is directly followed by a low surrogate. *)
Fixpoint no_surrogate_pair (s : str) : bool :=
  match s with
  | [] => true
  | c :: t =>
      negb (is_high_surrogate c && head_is is_low_surrogate t)
      && no_surrogate_pair t
  end.

(** A Python string whose code points are in range and which holds no
    surrogate pair written as two code points. *)
Definition text_ok (s : str) : Prop :=
  Forall (fun c => c < 1114112) s /\ no_surrogate_pair s = true.

Definition pending_text (pending : option N) : str :=
  match pending with Some h => [h] | None => [] end.

Lemma scan_string_escape_u (p : option N) (h1 h2 h3 h4 : N) (t2 : str) :
  scan_string p (backslash :: 117 :: h1 :: h2 :: h3 :: h4 :: t2) =
  match hex4_decode h1 h2 h3 h4 with
  | None => None
  | Some uni =>
      match p with
      | Some hi =>
          if is_low_surrogate uni
          then emit_char (join_surrogates hi uni) (scan_string None t2)
          else if is_high_surrogate uni
               then emit_char hi (scan_string (Some uni) t2)
               else emit_char hi (emit_char uni (scan_string None t2))
      | None =>
          if is_high_surrogate uni
          then scan_string (Some uni) t2
          else emit_char uni (scan_string None t2)
      end
  end.
Proof. reflexivity. Qed.

Lemma scan_string_plain (p : option N) (c : N) (t : str) :
  32 <= c -> c <> quote -> c <> backslash ->
  scan_string p (c :: t) = emit p (emit_char c (scan_string None t)).
Proof.
  intros Hc Hq Hb; simpl.
  destruct (N.eqb_spec c quote); [contradiction|].
  destruct (N.eqb_spec c backslash); [contradiction|].
  destruct (N.ltb_spec c 32); [lia | reflexivity].
Qed.

Lemma emit_some (h : N) (out : option (str * str)) :
  emit (Some h) out = emit_char h out.
Proof. reflexivity. Qed.

Lemma emit_none (out : option (str * str)) : emit None out = out.
Proof. destruct out as [[text rest]|]; reflexivity. Qed.

Lemma surrogate_ranges (c : N) :
  (is_high_surrogate c = true <-> 55296 <= c <= 56319) /\
  (is_low_surrogate c = true <-> 56320 <= c <= 57343).
Proof.
  unfold is_high_surrogate, is_low_surrogate.
  rewrite !andb_true_iff, !N.leb_le; tauto.
Qed.

Lemma not_high (c : N) : c < 55296 \/ 56319 < c -> is_high_surrogate c = false.
Proof.
  intros H; apply not_true_is_false; intros E.
  apply surrogate_ranges in E; lia.
Qed.

Lemma not_low (c : N) : c < 56320 \/ 57343 < c -> is_low_surrogate c = false.
Proof.
  intros H; apply not_true_is_false; intros E.
  apply surrogate_ranges in E; lia.
Qed.

(** Decoding the encoding of one code point. *)
Lemma scan_one_char (c : N) (pending : option N) (X : str) :
  c < 1114112 ->
  (pending <> None -> is_low_surrogate c = false) ->
  scan_string pending (encode_char c ++ X) =
  if is_high_surrogate c
  then emit pending (scan_string (Some c) X)
  else emit pending (emit_char c (scan_string None X)).
Proof.
  intros Hc Hlow; unfold encode_char.
  destruct (N.eqb_spec c quote) as [->|Hq]; [reflexivity|].
  destruct (N.eqb_spec c backslash) as [->|Hb]; [reflexivity|].
  destruct (N.eqb_spec c 8) as [->|H8]; [reflexivity|].
  destruct (N.eqb_spec c 12) as [->|H12]; [reflexivity|].
  destruct (N.eqb_spec c 10) as [->|H10]; [reflexivity|].
  destruct (N.eqb_spec c 13) as [->|H13]; [reflexivity|].
  destruct (N.eqb_spec c 9) as [->|H9]; [reflexivity|].
  destruct ((32 <=? c) && (c <=? 126)) eqn:Eplain.
  { apply andb_true_iff in Eplain as [E1 E2]; apply N.leb_le in E1, E2.
    rewrite (not_high c) by lia.
    cbn [app]; now apply scan_string_plain. }
  assert (Hnp : c < 32 \/ 126 < c).
  { apply andb_false_iff in Eplain as [E|E]; apply N.leb_gt in E; lia. }
  destruct (N.ltb_spec c 65536) as [Hbmp|Hsup].
  - unfold hex4_encode; cbn [app].
    rewrite scan_string_escape_u, (hex4_round_trip c Hbmp).
    destruct pending as [hi|].
    + rewrite Hlow by discriminate.
      destruct (is_high_surrogate c); reflexivity.
    + rewrite !emit_none; reflexivity.
  - set (n := c - 65536).
    assert (Hn : n < 1048576) by (unfold n; lia).
    assert (Hhi : 55296 + n / 1024 < 65536) by div_lia.
    assert (Hlo : 56320 + n mod 1024 < 65536) by div_lia.
    rewrite (not_high c) by lia.
    unfold hex4_encode; cbn [app].
    rewrite scan_string_escape_u, (hex4_round_trip _ Hhi).
    assert (Eh : is_high_surrogate (55296 + n / 1024) = true)
      by (apply surrogate_ranges; div_lia).
    assert (El : is_low_surrogate (55296 + n / 1024) = false)
      by (apply not_low; div_lia).
    assert (El' : is_low_surrogate (56320 + n mod 1024) = true)
      by (apply surrogate_ranges; div_lia).
    assert (Ej : join_surrogates (55296 + n / 1024) (56320 + n mod 1024) = c)
      by (unfold join_surrogates, n; div_lia).
    rewrite El, Eh.
    destruct pending as [hi|];
      rewrite scan_string_escape_u, (hex4_round_trip _ Hlo), El', Ej;
      rewrite ?emit_none; reflexivity.
Qed.

Lemma scan_encoded (s : str) :
  forall (pending : option N) (rest : str),
    Forall (fun c => c < 1114112) s ->
    no_surrogate_pair s = true ->
    (pending <> None -> head_is is_low_surrogate s = false) ->
    scan_string pending (encode_chars s ++ quote :: rest)
      = Some (pending_text pending ++ s, rest).
Proof.
  induction s as [|c s' IH]; intros pending rest Hcp Hnp Hhead.
  - simpl. destruct pending; reflexivity.
  - change (encode_chars (c :: s')) with (encode_char c ++ encode_chars s').
    rewrite <- app_assoc.
    inversion Hcp as [|? ? Hc Hcp']; subst.
    simpl in Hnp; apply andb_true_iff in Hnp as [Hpair Hnp'].
    rewrite scan_one_char by (assumption || exact Hhead).
    destruct (is_high_surrogate c) eqn:Eh.
    + simpl in Hpair; apply negb_true_iff in Hpair.
      rewrite (IH (Some c) rest Hcp' Hnp' (fun _ => Hpair)).
      destruct pending; reflexivity.
    + rewrite (IH None rest Hcp' Hnp') by (intros H; now elim H).
      destruct pending; reflexivity.
Qed.

(** [scan_string] undoes [encode_string]. *)
Lemma scan_encode_string (s rest : str) :
  text_ok s ->
  scan_string None (encode_chars s ++ quote :: rest) = Some (s, rest).
Proof.
  intros [Hcp Hnp].
  apply (scan_encoded s None rest Hcp Hnp); intros H; now elim H.
Qed.

(** *** Decoding a document *)

(** What makes [json.loads] fail. *)
Inductive failure :=
| NotJson         (* [JSONDecodeError]: the text is not a JSON document *)
| TooManyDigits   (* [ValueError]: an integer longer than the digit limit *)
| TooDeep.        (* [RecursionError]: containers nested too deep *)

(** The value at the head of the text and what follows it, or the
    exception raised. *)
Inductive scanned (A : Type) :=
| Scanned (value : A) (rest : str)
| Fails (e : failure).

Arguments Scanned {A} value rest.
Arguments Fails {A} e.

Definition json_ws (c : N) : bool :=
  (c =? 32) || (c =? 9) || (c =? 10) || (c =? 13).

Definition skip_ws (s : str) : str := dropwhile json_ws s.

Definition is_digit (c : N) : bool := (48 <=? c) && (c <=? 57).

(** The longest run of ASCII digits at the head, and the rest. *)
Fixpoint take_digits (s : str) : str * str :=
  match s with
  | [] => ([], [])
  | c :: t =>
      if is_digit c
      then let '(ds, rest) := take_digits t in (c :: ds, rest)
      else ([], s)
  end.

Definition digits_value (ds : str) : N :=
  fold_left (fun acc c => acc * 10 + (c - 48)) ds 0.

(** [s] starts with the literal [word]: what follows it. *)
Definition after_word (word s : str) : option str :=
  if starts_with word s then Some (skipn (List.length word) s) else None.

Definition word_null : str := Eval cbv in lit "null".
Definition word_true : str := Eval cbv in lit "true".
Definition word_false : str := Eval cbv in lit "false".
Definition word_NaN : str := Eval cbv in lit "NaN".
Definition word_Infinity : str := Eval cbv in lit "Infinity".
Definition word_neg_Infinity : str := Eval cbv in lit "-Infinity".

Section WithRuntime.

(** [sys.get_int_max_str_digits()], as in [Prompts]: the decoder turns
    an integer literal into an [int] with [int(...)], which refuses
    more digits than the limit with a [ValueError]. *)
Variable max_str_digits : option N.

(** [encoder.floatstr(float(literal))]: what [json.dump] writes for the
    [float] read from a literal, that is [float.__repr__] of it, or
    [NaN], [Infinity], [-Infinity]. *)
Variable floatstr : str -> str.

(** The number pattern: an optional minus sign, then [0] or a digit
    run that does not start with [0]; an optional fraction (a dot and
    digits); an optional exponent ([e] or [E], an optional sign, digits).
    An integer when there is neither fraction nor exponent, a float
    otherwise. *)
Definition match_number (s : str) : scanned json :=
  let '(sign, s1) :=
    match s with
    | c :: t => if c =? 45 then ([45], t) else ([], s)
    | [] => ([], s)
    end in
  let integer :=
    match s1 with
    | c :: t =>
        if c =? 48 then Some ([48], t)
        else if is_digit c then Some (take_digits s1)
        else None
    | [] => None
    end in
  match integer with
  | None => Fails NotJson
  | Some (ds, r0) =>
      let '(frac, r1) :=
        match r0 with
        | c :: t =>
            if c =? 46
            then let '(fd, r) := take_digits t in
                 if is_empty fd then ([], r0) else (46 :: fd, r)
            else ([], r0)
        | [] => ([], r0)
        end in
      let '(expo, r2) :=
        match r1 with
        | c :: t =>
            if (c =? 101) || (c =? 69)
            then
              let '(sg, t') :=
                match t with
                | d :: u => if (d =? 43) || (d =? 45) then ([d], u) else ([], t)
                | [] => ([], t)
                end in
              let '(ed, r) := take_digits t' in
              if is_empty ed then ([], r1) else (c :: sg ++ ed, r)
            else ([], r1)
        | [] => ([], r1)
        end in
      if is_empty frac && is_empty expo
      then
        if Prompts.within_digit_limit max_str_digits
             (N.of_nat (List.length ds))
        then Scanned (JInt (if is_empty sign then Z.of_N (digits_value ds)
                            else (- Z.of_N (digits_value ds))%Z)) r2
        else Fails TooManyDigits
      else Scanned (JFloat (sign ++ ds ++ frac ++ expo)) r2
  end.

Definition constant (s : str) : scanned json :=
  match after_word word_null s with
  | Some r => Scanned JNull r
  | None =>
  match after_word word_true s with
  | Some r => Scanned (JBool true) r
  | None =>
  match after_word word_false s with
  | Some r => Scanned (JBool false) r
  | None =>
  match after_word word_NaN s with
  | Some r => Scanned (JFloat word_NaN) r
  | None =>
  match after_word word_Infinity s with
  | Some r => Scanned (JFloat word_Infinity) r
  | None =>
  match after_word word_neg_Infinity s with
  | Some r => Scanned (JFloat word_neg_Infinity) r
  | None => match_number s
  end end end end end end.

(** The items of an object from a key on, up to the closing brace;
    [scan] reads one value.  The loop goes round once per item: [fuel]
    bounds the number of further rounds, and the length of the text is
    enough, since every round reads at least one code point
    ([parse_members_fuel]). *)
Fixpoint parse_members (scan : str -> scanned json) (fuel : nat)
  (acc : list (str * json)) (s : str) : scanned (list (str * json)) :=
  match s with
  | [] => Fails NotJson
  | c :: t =>
      if c =? quote then
        match scan_string None t with
        | None => Fails NotJson
        | Some (key, r) =>
            match skip_ws r with
            | [] => Fails NotJson
            | d :: r1 =>
                if d =? 58 then
                  match scan (skip_ws r1) with
                  | Fails e => Fails e
                  | Scanned value r2 =>
                      let acc := dict_set key value acc in
                      match skip_ws r2 with
                      | [] => Fails NotJson
                      | e :: r3 =>
                          if e =? 125 then Scanned acc r3
                          else if e =? 44 then
                            match fuel with
                            | O => Fails NotJson
                            | S fuel' =>
                                parse_members scan fuel' acc (skip_ws r3)
                            end
                          else Fails NotJson
                      end
                  end
                else Fails NotJson
            end
        end
      else Fails NotJson
  end.

(** The items of an array, up to the closing bracket. *)
Fixpoint parse_items (scan : str -> scanned json) (fuel : nat)
  (acc : list json) (s : str) : scanned (list json) :=
  match scan s with
  | Fails e => Fails e
  | Scanned value r =>
      let acc := acc ++ [value] in
      match skip_ws r with
      | [] => Fails NotJson
      | e :: r1 =>
          if e =? 93 then Scanned acc r1
          else if e =? 44 then
            match fuel with
            | O => Fails NotJson
            | S fuel' => parse_items scan fuel' acc (skip_ws r1)
            end
          else Fails NotJson
      end
  end.

(** The scanner: one value at the head of [s].  [depth] is the number
    of containers that may still be entered one inside the other: the
    scanner calls [Py_EnterRecursiveCall] before it reads an object or
    an array, and that call raises [RecursionError] once the
    interpreter's recursion limit is reached. *)
Fixpoint scan_once (depth : nat) (s : str) : scanned json :=
  match s with
  | [] => Fails NotJson
  | c :: t =>
      if c =? quote then
        match scan_string None t with
        | Some (text, r) => Scanned (JStr text) r
        | None => Fails NotJson
        end
      else if c =? 123 then
        match depth with
        | O => Fails TooDeep
        | S depth' =>
            match skip_ws t with
            | [] => Fails NotJson
            | d :: r =>
                if d =? 125 then Scanned (JObj []) r
                else match parse_members (scan_once depth')
                             (List.length t) [] (d :: r) with
                     | Scanned members r' => Scanned (JObj members) r'
                     | Fails e => Fails e
                     end
            end
        end
      else if c =? 91 then
        match depth with
        | O => Fails TooDeep
        | S depth' =>
            match skip_ws t with
            | [] => Fails NotJson
            | d :: r =>
                if d =? 93 then Scanned (JArr []) r
                else match parse_items (scan_once depth')
                             (List.length t) [] (d :: r) with
                     | Scanned items r' => Scanned (JArr items) r'
                     | Fails e => Fails e
                     end
            end
        end
      else constant s
  end.

(** [json.loads(s)]: the document, or the exception raised.
    [recursion_limit] is what the interpreter's recursion limit leaves
    to the scanner when it is called: the number of containers it may
    enter one inside the other. *)
Definition loads (recursion_limit : nat) (s : str) : json + failure :=
  match s with
  | 65279 :: _ => inr NotJson
  | _ =>
      match scan_once recursion_limit (skip_ws s) with
      | Scanned value r =>
          if is_empty (skip_ws r) then inl value else inr NotJson
      | Fails e => inr e
      end
  end.

(** *** Encoding a document with [indent=4] *)

(** [int.__repr__] *)
Definition repr_int (z : Z) : str :=
  lit (NilZero.string_of_int (Z.to_int z)).

(** The number of digits that [int.__repr__] has to write. *)
Definition repr_digits (z : Z) : N :=
  N.of_nat (List.length (repr_int (Z.abs z))).

(** [int.__repr__] raises no [ValueError] on any [int] of the document:
    none has more digits than the limit. *)
Fixpoint ints_within_limit (v : json) : bool :=
  match v with
  | JInt z => Prompts.within_digit_limit max_str_digits (repr_digits z)
  | JArr items => forallb ints_within_limit items
  | JObj members => forallb (fun kv => ints_within_limit (snd kv)) members
  | _ => true
  end.

Definition newline_indent (level : nat) : str :=
  10 :: repeat 32 (4 * level)%nat.

(** [sep.join(parts)] *)
Fixpoint join (sep : str) (parts : list str) : str :=
  match parts with
  | [] => []
  | [a] => a
  | a :: rest => a ++ sep ++ join sep rest
  end.

Fixpoint dumps_at (level : nat) (v : json) : str :=
  match v with
  | JNull => word_null
  | JBool true => word_true
  | JBool false => word_false
  | JInt z => repr_int z
  | JFloat literal => floatstr literal
  | JStr s => encode_string s
  | JArr [] => [91; 93]
  | JArr items =>
      91 :: newline_indent (S level)
        ++ join (44 :: newline_indent (S level))
             (List.map (dumps_at (S level)) items)
        ++ newline_indent level ++ [93]
  | JObj [] => [123; 125]
  | JObj members =>
      123 :: newline_indent (S level)
        ++ join (44 :: newline_indent (S level))
             (List.map (fun kv => encode_string (fst kv) ++ 58 :: 32
                                   :: dumps_at (S level) (snd kv)) members)
        ++ newline_indent level ++ [125]
  end.

(** The text of [json.dumps(v, indent=4)], which is returned when
    [ints_within_limit v] holds; a [ValueError] is raised otherwise. *)
Definition dumps (v : json) : str := dumps_at 0 v.

(** *** Sample documents *)

Example dumps_sample :
  dumps (JObj [(lit "a", JStr (lit "b"));
               (lit "c", JArr [JInt 1; JObj [(lit "x", JNull)]]);
               (lit "d", JObj [])])
  = lit "{" ++ [10]
    ++ lit "    " ++ encode_string (lit "a") ++ lit ": "
    ++ encode_string (lit "b") ++ lit "," ++ [10]
    ++ lit "    " ++ encode_string (lit "c") ++ lit ": [" ++ [10]
    ++ lit "        1," ++ [10]
    ++ lit "        {" ++ [10]
    ++ lit "            " ++ encode_string (lit "x") ++ lit ": null" ++ [10]
    ++ lit "        }" ++ [10]
    ++ lit "    ]," ++ [10]
    ++ lit "    " ++ encode_string (lit "d") ++ lit ": {}" ++ [10]
    ++ lit "}".
Proof. reflexivity. Qed.

(** A [float] is written as [floatstr] gives it, not as the literal it
    was read from. *)
Example dumps_float (literal : str) :
  dumps (JArr [JFloat literal])
  = lit "[" ++ [10] ++ lit "    " ++ floatstr literal ++ [10] ++ lit "]".
Proof. reflexivity. Qed.

(** Some [\uXXXX] escapes, as they stand in a document. *)
Definition U007f : str := Eval cbv in 92 :: lit "u007f".
Definition U00e9 : str := Eval cbv in 92 :: lit "u00e9".
Definition Ud83d : str := Eval cbv in 92 :: lit "ud83d".
Definition Ude00 : str := Eval cbv in 92 :: lit "ude00".

Example encode_string_sample :
  encode_string ([127; 10; 233; 128512] ++ lit " ~/")
  = [34] ++ U007f ++ [92] ++ lit "n" ++ U00e9
    ++ Ud83d ++ Ude00 ++ lit " ~/" ++ [34].
Proof. reflexivity. Qed.

(** Documents without integers are read the same under every digit
    limit. *)
Example loads_samples :
  loads 3 (lit "[null,]") = inr NotJson /\
  loads 3 (lit "1.5e3") = inl (JFloat (lit "1.5e3")) /\
  loads 3 (lit "-") = inr NotJson /\
  loads 3 (lit " [ [ ] , {}, null, true,false ] ")
    = inl (JArr [JArr []; JObj []; JNull; JBool true; JBool false]) /\
  loads 3 (lit "-Infinity") = inl (JFloat (lit "-Infinity")) /\
  loads 3 (lit "tru") = inr NotJson /\
  loads 3 (lit "{}x") = inr NotJson /\
  loads 3 [] = inr NotJson.
Proof. repeat split; reflexivity. Qed.

Example loads_surrogates :
  loads 0 ([34] ++ Ud83d ++ Ude00 ++ [34]) = inl (JStr [128512]) /\
  loads 0 ([34] ++ Ud83d ++ Ud83d ++ Ude00 ++ [34])
    = inl (JStr [55357; 128512]) /\
  loads 0 ([34] ++ Ud83d ++ [92] ++ lit "u12" ++ [34]) = inr NotJson /\
  loads 0 ([34] ++ Ude00 ++ Ud83d ++ [34]) = inl (JStr [56832; 55357]) /\
  loads 0 ([34; 1; 34]) = inr NotJson.
Proof. repeat split; reflexivity. Qed.

(** The recursion limit is met before the text is looked at any
    further: two arrays cannot be entered when one container is left,
    whether the brackets are closed or not. *)
Example loads_too_deep :
  loads 0 (lit "{}") = inr TooDeep /\
  loads 1 (lit "[[]]") = inr TooDeep /\
  loads 1 (lit "[[") = inr TooDeep /\
  loads 2 (lit "[[") = inr NotJson /\
  loads 2 (lit "[[]]") = inl (JArr [JArr []]) /\
  loads 2 (lit "[[], {}, [], {}]")
    = inl (JArr [JArr []; JObj []; JArr []; JObj []]).
Proof. repeat split; reflexivity. Qed.

(** *** Lemmas: the loops of the scanner have fuel enough *)

Lemma emit_rest (p : option N) (out : option (str * str)) (text r : str) :
  emit p out = Some (text, r) -> exists text', out = Some (text', r).
Proof.
  destruct out as [[text' r']|]; [|discriminate].
  intros H; injection H as _ <-; eexists; reflexivity.
Qed.

Lemma emit_char_rest (c : N) (out : option (str * str)) (text r : str) :
  emit_char c out = Some (text, r) -> exists text', out = Some (text', r).
Proof.
  destruct out as [[text' r']|]; [|discriminate].
  intros H; injection H as _ <-; eexists; reflexivity.
Qed.

(** What follows a string is shorter than the text scanned. *)
Lemma scan_string_shrinks (n : nat) :
  forall (s : str) (p : option N) (text r : str),
    (List.length s <= n)%nat ->
    scan_string p s = Some (text, r) ->
    (List.length r < List.length s)%nat.
Proof.
  induction n as [|n IH]; intros s p text r Hn H.
  - destruct s; [discriminate H | simpl in Hn; lia].
  - destruct s as [|c t]; [discriminate H|].
    cbn [scan_string] in H; cbn [List.length] in *.
    destruct (c =? quote).
    { apply emit_rest in H as [x H]; injection H as _ <-; lia. }
    destruct (c =? backslash).
    + destruct t as [|e t1]; [discriminate H|]; cbn [List.length] in *.
      destruct (e =? 117).
      * destruct t1 as [|h1 [|h2 [|h3 [|h4 t2]]]]; try discriminate H.
        cbn [List.length] in *.
        destruct (hex4_decode h1 h2 h3 h4) as [uni|]; [|discriminate H].
        assert (Hrec : forall q x, scan_string q t2 = Some (x, r) ->
                  (List.length r < List.length t2)%nat)
          by (intros q x Hq; apply (IH t2 q x r); [lia | exact Hq]).
        destruct p as [hi|].
        -- destruct (is_low_surrogate uni).
           { apply emit_char_rest in H as [x H].
             apply Hrec in H; lia. }
           destruct (is_high_surrogate uni).
           { apply emit_char_rest in H as [x H].
             apply Hrec in H; lia. }
           apply emit_char_rest in H as [x H].
           apply emit_char_rest in H as [y H].
           apply Hrec in H; lia.
        -- destruct (is_high_surrogate uni).
           { apply Hrec in H; lia. }
           apply emit_char_rest in H as [x H].
           apply Hrec in H; lia.
      * destruct (unescape e) as [ch|]; [|discriminate H].
        apply emit_rest in H as [x H].
        apply emit_char_rest in H as [y H].
        apply (IH t1 None y r) in H; lia.
    + destruct (c <? 32); [discriminate H|].
      apply emit_rest in H as [x H].
      apply emit_char_rest in H as [y H].
      apply (IH t None y r) in H; lia.
Qed.

Lemma dropwhile_length (p : N -> bool) (s : str) :
  (List.length (dropwhile p s) <= List.length s)%nat.
Proof.
  induction s as [|c t IH]; simpl; [lia|].
  destruct (p c); simpl; lia.
Qed.

Lemma skip_ws_length (s : str) :
  (List.length (skip_ws s) <= List.length s)%nat.
Proof. apply dropwhile_length. Qed.

Lemma skip_ws_cons_length (s r : str) (c : N) :
  skip_ws s = c :: r -> (List.length r < List.length s)%nat.
Proof.
  intros H; pose proof (skip_ws_length s) as Hl.
  rewrite H in Hl; simpl in Hl; lia.
Qed.

Lemma take_digits_length (s ds r : str) :
  take_digits s = (ds, r) -> (List.length r <= List.length s)%nat.
Proof.
  revert ds r; induction s as [|c t IH]; intros ds r H; simpl in H.
  - injection H as _ <-; simpl; lia.
  - destruct (is_digit c).
    + destruct (take_digits t) as [ds' r'] eqn:E.
      injection H as _ <-. specialize (IH _ _ eq_refl); simpl; lia.
    + injection H as _ <-; simpl; lia.
Qed.

Lemma after_word_length (word s r : str) :
  after_word word s = Some r ->
  (List.length r + List.length word <= List.length s)%nat.
Proof.
  unfold after_word; destruct (starts_with word s) eqn:E; [|discriminate].
  intros H; injection H as <-.
  revert s E; induction word as [|w word IH]; intros s E; simpl.
  - lia.
  - destruct s as [|c t]; [discriminate E|]; simpl in E |- *.
    apply andb_true_iff in E as [_ E]; specialize (IH t E); lia.
Qed.

(** The fraction and the exponent of a number leave no more than they
    were given. *)
Lemma fraction_length (r0 frac r1 : str) :
  match r0 with
  | c :: t =>
      if c =? 46
      then let '(fd, r) := take_digits t in
           if is_empty fd then ([], r0) else (46 :: fd, r)
      else ([], r0)
  | [] => ([], r0)
  end = (frac, r1) ->
  (List.length r1 <= List.length r0)%nat.
Proof.
  destruct r0 as [|c t]; [intros H; injection H as _ <-; lia|].
  destruct (c =? 46); [|intros H; injection H as _ <-; lia].
  destruct (take_digits t) as [fd r] eqn:E.
  apply take_digits_length in E.
  destruct (is_empty fd); intros H; injection H as _ <-; simpl; lia.
Qed.

Lemma exponent_length (r1 expo r2 : str) :
  match r1 with
  | c :: t =>
      if (c =? 101) || (c =? 69)
      then
        let '(sg, t') :=
          match t with
          | d :: u => if (d =? 43) || (d =? 45) then ([d], u) else ([], t)
          | [] => ([], t)
          end in
        let '(ed, r) := take_digits t' in
        if is_empty ed then ([], r1) else (c :: sg ++ ed, r)
      else ([], r1)
  | [] => ([], r1)
  end = (expo, r2) ->
  (List.length r2 <= List.length r1)%nat.
Proof.
  destruct r1 as [|c t]; [intros H; injection H as _ <-; lia|].
  destruct ((c =? 101) || (c =? 69)); [|intros H; injection H as _ <-; lia].
  destruct (match t with
            | d :: u => if (d =? 43) || (d =? 45) then ([d], u) else ([], t)
            | [] => ([], t)
            end) as [sg t'] eqn:Et.
  assert (Ht : (List.length t' <= List.length t)%nat).
  { destruct t as [|d u]; [injection Et as _ <-; lia|].
    destruct ((d =? 43) || (d =? 45)); injection Et as _ <-; simpl; lia. }
  destruct (take_digits t') as [ed r] eqn:E.
  apply take_digits_length in E.
  destruct (is_empty ed); intros H; injection H as _ <-; simpl; lia.
Qed.

Lemma match_number_shrinks (s : str) (v : json) (r : str) :
  match_number s = Scanned v r -> (List.length r < List.length s)%nat.
Proof.
  unfold match_number.
  destruct (match s with
            | c :: t => if c =? 45 then ([45], t) else ([], s)
            | [] => ([], s)
            end) as [sign s1] eqn:Es.
  assert (Hs1 : (List.length s1 <= List.length s)%nat).
  { destruct s as [|c t]; [injection Es as _ <-; lia|].
    destruct (c =? 45); injection Es as _ <-; simpl; lia. }
  destruct (match s1 with
            | c :: t =>
                if c =? 48 then Some ([48], t)
                else if is_digit c then Some (take_digits s1)
                else None
            | [] => None
            end) as [[ds r0]|] eqn:Ei; [|discriminate].
  assert (Hr0 : (List.length r0 < List.length s1)%nat).
  { destruct s1 as [|c t]; [discriminate Ei|].
    destruct (c =? 48); [injection Ei as _ <-; simpl; lia|].
    destruct (is_digit c) eqn:Ed; [|discriminate Ei].
    injection Ei as Ei; cbn [take_digits] in Ei; rewrite Ed in Ei.
    destruct (take_digits t) as [ds' r'] eqn:E.
    apply take_digits_length in E.
    injection Ei as _ <-; simpl; lia. }
  match goal with
  | |- (let '(frac, r1) := ?f in _) = _ -> _ =>
      destruct f as [frac r1] eqn:Ef
  end.
  apply fraction_length in Ef.
  match goal with
  | |- (let '(expo, r2) := ?f in _) = _ -> _ =>
      destruct f as [expo r2] eqn:Ee
  end.
  apply exponent_length in Ee.
  destruct (is_empty frac && is_empty expo).
  - destruct (Prompts.within_digit_limit _ _); [|discriminate].
    intros H; injection H as _ <-; lia.
  - intros H; injection H as _ <-; lia.
Qed.

Lemma constant_shrinks (s : str) (v : json) (r : str) :
  constant s = Scanned v r -> (List.length r < List.length s)%nat.
Proof.
  unfold constant.
  repeat match goal with
  | |- match after_word ?w s with _ => _ end = _ -> _ =>
      let E := fresh "E" in
      destruct (after_word w s) eqn:E;
      [apply after_word_length in E; simpl in E;
       intros H; injection H as _ <-; lia|]
  end.
  apply match_number_shrinks.
Qed.

(** A scanner that reads at least one code point when it succeeds. *)
Definition shrinks (scan : str -> scanned json) : Prop :=
  forall (s : str) (v : json) (r : str),
    scan s = Scanned v r -> (List.length r < List.length s)%nat.

Lemma parse_members_unfold (scan : str -> scanned json) (fuel : nat)
  (acc : list (str * json)) (t : str) :
  parse_members scan fuel acc (quote :: t) =
  match scan_string None t with
  | None => Fails NotJson
  | Some (key, r) =>
      match skip_ws r with
      | [] => Fails NotJson
      | d :: r1 =>
          if d =? 58 then
            match scan (skip_ws r1) with
            | Fails e => Fails e
            | Scanned value r2 =>
                match skip_ws r2 with
                | [] => Fails NotJson
                | e :: r3 =>
                    if e =? 125 then Scanned (dict_set key value acc) r3
                    else if e =? 44 then
                      match fuel with
                      | O => Fails NotJson
                      | S fuel' =>
                          parse_members scan fuel' (dict_set key value acc)
                            (skip_ws r3)
                      end
                    else Fails NotJson
                end
            end
          else Fails NotJson
      end
  end.
Proof. destruct fuel; reflexivity. Qed.

Lemma parse_items_unfold (scan : str -> scanned json) (fuel : nat)
  (acc : list json) (s : str) :
  parse_items scan fuel acc s =
  match scan s with
  | Fails e => Fails e
  | Scanned value r =>
      match skip_ws r with
      | [] => Fails NotJson
      | e :: r1 =>
          if e =? 93 then Scanned (acc ++ [value]) r1
          else if e =? 44 then
            match fuel with
            | O => Fails NotJson
            | S fuel' => parse_items scan fuel' (acc ++ [value]) (skip_ws r1)
            end
          else Fails NotJson
      end
  end.
Proof. destruct fuel; reflexivity. Qed.

(** One round of the loop over the items of an object: either the
    result, or the text and the items with which the next round
    starts. *)
Inductive round (A : Type) :=
| Done (result : scanned A)
| Again (acc : A) (next : str).

Arguments Done {A} result.
Arguments Again {A} acc next.

Definition members_round (scan : str -> scanned json)
  (acc : list (str * json)) (s : str) : round (list (str * json)) :=
  match s with
  | [] => Done (Fails NotJson)
  | c :: t =>
      if c =? quote then
        match scan_string None t with
        | None => Done (Fails NotJson)
        | Some (key, r) =>
            match skip_ws r with
            | [] => Done (Fails NotJson)
            | d :: r1 =>
                if d =? 58 then
                  match scan (skip_ws r1) with
                  | Fails e => Done (Fails e)
                  | Scanned value r2 =>
                      match skip_ws r2 with
                      | [] => Done (Fails NotJson)
                      | e :: r3 =>
                          if e =? 125
                          then Done (Scanned (dict_set key value acc) r3)
                          else if e =? 44
                               then Again (dict_set key value acc) (skip_ws r3)
                               else Done (Fails NotJson)
                      end
                  end
                else Done (Fails NotJson)
            end
        end
      else Done (Fails NotJson)
  end.

Definition items_round (scan : str -> scanned json)
  (acc : list json) (s : str) : round (list json) :=
  match scan s with
  | Fails e => Done (Fails e)
  | Scanned value r =>
      match skip_ws r with
      | [] => Done (Fails NotJson)
      | e :: r1 =>
          if e =? 93 then Done (Scanned (acc ++ [value]) r1)
          else if e =? 44 then Again (acc ++ [value]) (skip_ws r1)
          else Done (Fails NotJson)
      end
  end.

Lemma parse_members_round (scan : str -> scanned json) (fuel : nat)
  (acc : list (str * json)) (s : str) :
  parse_members scan fuel acc s =
  match members_round scan acc s with
  | Done result => result
  | Again acc' next =>
      match fuel with
      | O => Fails NotJson
      | S fuel' => parse_members scan fuel' acc' next
      end
  end.
Proof.
  unfold members_round; destruct s as [|c t]; [destruct fuel; reflexivity|].
  destruct (N.eqb_spec c quote) as [->|Hc].
  - rewrite parse_members_unfold.
    destruct (scan_string None t) as [[key r]|]; [|reflexivity].
    destruct (skip_ws r) as [|d r1]; [reflexivity|].
    destruct (d =? 58); [|reflexivity].
    destruct (scan (skip_ws r1)) as [value r2|e]; [|reflexivity].
    destruct (skip_ws r2) as [|e r3]; [reflexivity|].
    destruct (e =? 125); [reflexivity|].
    destruct (e =? 44); reflexivity.
  - apply N.eqb_neq in Hc.
    destruct fuel; cbn [parse_members]; rewrite Hc; reflexivity.
Qed.

Lemma parse_items_round (scan : str -> scanned json) (fuel : nat)
  (acc : list json) (s : str) :
  parse_items scan fuel acc s =
  match items_round scan acc s with
  | Done result => result
  | Again acc' next =>
      match fuel with
      | O => Fails NotJson
      | S fuel' => parse_items scan fuel' acc' next
      end
  end.
Proof.
  rewrite parse_items_unfold; unfold items_round.
  destruct (scan s) as [value r|e]; [|reflexivity].
  destruct (skip_ws r) as [|e r1]; [reflexivity|].
  destruct (e =? 93); [reflexivity|].
  destruct (e =? 44); reflexivity.
Qed.

(** A round reads at least one code point. *)
Lemma members_round_shrinks (scan : str -> scanned json)
  (acc : list (str * json)) (s : str) :
  shrinks scan ->
  match members_round scan acc s with
  | Done (Scanned _ r) => (List.length r < List.length s)%nat
  | Done (Fails _) => True
  | Again _ next => (List.length next < List.length s)%nat
  end.
Proof.
  intros Hscan; unfold members_round.
  destruct s as [|c t]; [exact I|].
  destruct (c =? quote); [|exact I].
  destruct (scan_string None t) as [[key r]|] eqn:Ek; [|exact I].
  apply (scan_string_shrinks _ _ _ _ _ (le_n _)) in Ek.
  destruct (skip_ws r) as [|d r1] eqn:E1; [exact I|].
  apply skip_ws_cons_length in E1.
  destruct (d =? 58); [|exact I].
  pose proof (skip_ws_length r1) as H1.
  destruct (scan (skip_ws r1)) as [value r2|e] eqn:Ev; [|exact I].
  apply Hscan in Ev.
  destruct (skip_ws r2) as [|e r3] eqn:E2; [exact I|].
  apply skip_ws_cons_length in E2.
  pose proof (skip_ws_length r3) as H3.
  destruct (e =? 125); [simpl; lia|].
  destruct (e =? 44); [simpl; lia | exact I].
Qed.

Lemma items_round_shrinks (scan : str -> scanned json)
  (acc : list json) (s : str) :
  shrinks scan ->
  match items_round scan acc s with
  | Done (Scanned _ r) => (List.length r < List.length s)%nat
  | Done (Fails _) => True
  | Again _ next => (List.length next < List.length s)%nat
  end.
Proof.
  intros Hscan; unfold items_round.
  destruct (scan s) as [value r|e] eqn:Ev; [|exact I].
  apply Hscan in Ev.
  destruct (skip_ws r) as [|e r1] eqn:E1; [exact I|].
  apply skip_ws_cons_length in E1.
  pose proof (skip_ws_length r1) as H1.
  destruct (e =? 93); [lia|].
  destruct (e =? 44); [lia | exact I].
Qed.

(** The length of the text is fuel enough: with that much or more, the
    loop gives the same result, and never stops for want of fuel. *)
Lemma parse_members_fuel (scan : str -> scanned json) :
  shrinks scan ->
  forall (fuel fuel' : nat) (acc : list (str * json)) (s : str),
    (List.length s <= fuel)%nat -> (List.length s <= fuel')%nat ->
    parse_members scan fuel acc s = parse_members scan fuel' acc s.
Proof.
  intros Hscan; induction fuel as [|fuel IH]; intros fuel' acc s H1 H2.
  - destruct s; [|simpl in H1; lia].
    rewrite !parse_members_round; reflexivity.
  - rewrite (parse_members_round scan (S fuel)),
            (parse_members_round scan fuel').
    pose proof (members_round_shrinks scan acc s Hscan) as Hr.
    destruct (members_round scan acc s) as [result|acc' next];
      [reflexivity|].
    destruct fuel' as [|fuel']; [lia|].
    apply IH; lia.
Qed.

Lemma parse_items_fuel (scan : str -> scanned json) :
  shrinks scan ->
  forall (fuel fuel' : nat) (acc : list json) (s : str),
    (List.length s <= fuel)%nat -> (List.length s <= fuel')%nat ->
    parse_items scan fuel acc s = parse_items scan fuel' acc s.
Proof.
  intros Hscan; induction fuel as [|fuel IH]; intros fuel' acc s H1 H2.
  - destruct s; [|simpl in H1; lia].
    rewrite !parse_items_round.
    pose proof (items_round_shrinks scan acc [] Hscan) as Hr.
    destruct (items_round scan acc []) as [result|acc' next];
      [reflexivity | simpl in Hr; lia].
  - rewrite (parse_items_round scan (S fuel)),
            (parse_items_round scan fuel').
    pose proof (items_round_shrinks scan acc s Hscan) as Hr.
    destruct (items_round scan acc s) as [result|acc' next];
      [reflexivity|].
    destruct fuel' as [|fuel']; [lia|].
    apply IH; lia.
Qed.

Lemma parse_members_shrinks (scan : str -> scanned json) :
  shrinks scan ->
  forall (fuel : nat) (acc : list (str * json)) (s : str)
         (v : list (str * json)) (r : str),
    parse_members scan fuel acc s = Scanned v r ->
    (List.length r < List.length s)%nat.
Proof.
  intros Hscan; induction fuel as [|fuel IH]; intros acc s v r;
    rewrite parse_members_round;
    pose proof (members_round_shrinks scan acc s Hscan) as Hr;
    destruct (members_round scan acc s) as [[v' r'|e]|acc' next];
    try discriminate.
  - intros H; injection H as _ <-; exact Hr.
  - intros H; injection H as _ <-; exact Hr.
  - intros H; apply IH in H; lia.
Qed.

Lemma parse_items_shrinks (scan : str -> scanned json) :
  shrinks scan ->
  forall (fuel : nat) (acc : list json) (s : str)
         (v : list json) (r : str),
    parse_items scan fuel acc s = Scanned v r ->
    (List.length r < List.length s)%nat.
Proof.
  intros Hscan; induction fuel as [|fuel IH]; intros acc s v r;
    rewrite parse_items_round;
    pose proof (items_round_shrinks scan acc s Hscan) as Hr;
    destruct (items_round scan acc s) as [[v' r'|e]|acc' next];
    try discriminate.
  - intros H; injection H as _ <-; exact Hr.
  - intros H; injection H as _ <-; exact Hr.
  - intros H; apply IH in H; lia.
Qed.

Lemma scan_once_shrinks (depth : nat) : shrinks (scan_once depth).
Proof.
  induction depth as [|depth IH]; intros s v r;
    (destruct s as [|c t]; [discriminate|]); cbn [scan_once];
    (destruct (c =? quote);
     [destruct (scan_string None t) as [[text r']|] eqn:E; [|discriminate];
      apply (scan_string_shrinks _ _ _ _ _ (le_n _)) in E;
      intros H; injection H as _ <-; simpl; lia|]).
  - destruct (c =? 123); [discriminate|].
    destruct (c =? 91); [discriminate|].
    apply constant_shrinks.
  - destruct (c =? 123).
    { destruct (skip_ws t) as [|d r0] eqn:E; [discriminate|].
      pose proof (skip_ws_length t) as Hl; rewrite E in Hl.
      destruct (d =? 125).
      - intros H; injection H as _ <-; simpl in *; lia.
      - destruct (parse_members _ _ _ _) as [members r'|e] eqn:Ep;
          [|discriminate].
        apply (parse_members_shrinks _ IH) in Ep.
        intros H; injection H as _ <-; simpl in *; lia. }
    destruct (c =? 91).
    { destruct (skip_ws t) as [|d r0] eqn:E; [discriminate|].
      pose proof (skip_ws_length t) as Hl; rewrite E in Hl.
      destruct (d =? 93).
      - intros H; injection H as _ <-; simpl in *; lia.
      - destruct (parse_items _ _ _ _) as [items r'|e] eqn:Ep;
          [|discriminate].
        apply (parse_items_shrinks _ IH) in Ep.
        intros H; injection H as _ <-; simpl in *; lia. }
    apply constant_shrinks.
Qed.

(** The fuel that [scan_once] gives to its loops is enough: any larger
    amount gives the same object. *)
Lemma scan_once_object_fuel (depth fuel : nat) (t r : str) (d : N) :
  skip_ws t = d :: r -> (List.length t <= fuel)%nat ->
  parse_members (scan_once depth) (List.length t) [] (d :: r)
  = parse_members (scan_once depth) fuel [] (d :: r).
Proof.
  intros E Hf; pose proof (skip_ws_length t) as Hl; rewrite E in Hl.
  apply parse_members_fuel; [apply scan_once_shrinks | lia | lia].
Qed.

Lemma scan_once_array_fuel (depth fuel : nat) (t r : str) (d : N) :
  skip_ws t = d :: r -> (List.length t <= fuel)%nat ->
  parse_items (scan_once depth) (List.length t) [] (d :: r)
  = parse_items (scan_once depth) fuel [] (d :: r).
Proof.
  intros E Hf; pose proof (skip_ws_length t) as Hl; rewrite E in Hl.
  apply parse_items_fuel; [apply scan_once_shrinks | lia | lia].
Qed.

(** *** Lemmas: a flat object of strings survives [dumps] and [loads] *)

(** The [dict] with the given string items. *)
Definition of_strings (items : list (str * str)) : json :=
  JObj (List.map (fun kv => (fst kv, JStr (snd kv))) items).

Definition render_item (kv : str * str) : str :=
  encode_string (fst kv) ++ 58 :: 32 :: encode_string (snd kv).

Definition item_separator : str := 44 :: newline_indent 1.

Lemma dumps_of_strings (items : list (str * str)) :
  dumps (of_strings items) =
  match items with
  | [] => [123; 125]
  | _ :: _ =>
      123 :: newline_indent 1
        ++ join item_separator (List.map render_item items) ++ [10; 125]
  end.
Proof.
  destruct items as [|kv items]; [reflexivity|].
  unfold dumps, of_strings; cbn [dumps_at List.map].
  rewrite map_map; reflexivity.
Qed.

Lemma ints_within_limit_of_strings (items : list (str * str)) :
  ints_within_limit (of_strings items) = true.
Proof.
  unfold of_strings; cbn [ints_within_limit].
  induction items as [|kv items IH]; [reflexivity | exact IH].
Qed.

Lemma dict_set_fresh (key : str) (value : json) (d : list (str * json)) :
  ~ In key (List.map fst d) -> dict_set key value d = d ++ [(key, value)].
Proof.
  induction d as [|[k v] d IH]; simpl; [reflexivity|]; intros Hnot.
  destruct (str_eqb_spec k key) as [->|Hne]; [tauto|].
  rewrite IH by tauto; reflexivity.
Qed.

Lemma scan_once_string (depth : nat) (t : str) :
  scan_once depth (quote :: t) =
  match scan_string None t with
  | Some (text, r) => Scanned (JStr text) r
  | None => Fails NotJson
  end.
Proof. destruct depth; reflexivity. Qed.

(** One item [key: value] with a string value, and what comes next. *)
Lemma parse_members_item (depth fuel : nat) (acc : list (str * json))
  (k v R : str) :
  text_ok k -> text_ok v ->
  parse_members (scan_once depth) fuel acc (render_item (k, v) ++ R) =
  match skip_ws R with
  | [] => Fails NotJson
  | e :: r3 =>
      if e =? 125 then Scanned (dict_set k (JStr v) acc) r3
      else if e =? 44 then
        match fuel with
        | O => Fails NotJson
        | S fuel' =>
            parse_members (scan_once depth) fuel' (dict_set k (JStr v) acc)
              (skip_ws r3)
        end
      else Fails NotJson
  end.
Proof.
  intros Hk Hv; unfold render_item, encode_string; cbn [fst snd].
  repeat (rewrite <- ?app_assoc, <- ?app_comm_cons; cbn [app]).
  rewrite parse_members_unfold, (scan_encode_string k _ Hk).
  cbv beta iota.
  change (skip_ws (58 :: 32 :: quote :: encode_chars v ++ quote :: R))
    with (58 :: 32 :: quote :: encode_chars v ++ quote :: R).
  cbv beta iota. rewrite N.eqb_refl.
  change (skip_ws (32 :: quote :: encode_chars v ++ quote :: R))
    with (quote :: encode_chars v ++ quote :: R).
  rewrite scan_once_string, (scan_encode_string v _ Hv).
  reflexivity.
Qed.

Lemma skip_indent_items (items : list (str * str)) (R : str) :
  items <> [] ->
  skip_ws (newline_indent 1
             ++ join item_separator (List.map render_item items) ++ R)
  = join item_separator (List.map render_item items) ++ R.
Proof.
  destruct items as [|[k v] items]; [contradiction|]; intros _.
  destruct items; reflexivity.
Qed.

Lemma parse_members_flat (depth : nat) (items : list (str * str)) :
  forall (fuel : nat) (acc : list (str * json)) (rest : str),
    items <> [] ->
    (List.length items <= S fuel)%nat ->
    NoDup (List.map fst acc ++ List.map fst items) ->
    Forall (fun kv => text_ok (fst kv) /\ text_ok (snd kv)) items ->
    parse_members (scan_once depth) fuel acc
      (join item_separator (List.map render_item items) ++ 10 :: 125 :: rest)
    = Scanned (acc ++ List.map (fun kv => (fst kv, JStr (snd kv))) items) rest.
Proof.
  induction items as [|[k v] items IH]; intros fuel acc rest Hne Hfuel Hnd Hok;
    [contradiction|].
  inversion Hok as [|? ? [Hk Hv] Hok']; subst; cbn [fst snd] in *.
  assert (Hfresh : ~ In k (List.map fst acc)).
  { intros Hin; apply NoDup_remove_2 in Hnd.
    apply Hnd, in_or_app; now left. }
  destruct items as [|kv' items'].
  - cbn [List.map join].
    rewrite (parse_members_item depth fuel acc k v _ Hk Hv).
    rewrite (dict_set_fresh k _ acc Hfresh); reflexivity.
  - change (join item_separator (List.map render_item ((k, v) :: kv' :: items')))
      with (render_item (k, v) ++ item_separator
              ++ join item_separator (List.map render_item (kv' :: items'))).
    rewrite <- !app_assoc.
    rewrite (parse_members_item depth fuel acc k v _ Hk Hv).
    rewrite (dict_set_fresh k _ acc Hfresh).
    set (Y := join item_separator (List.map render_item (kv' :: items'))
              ++ 10 :: 125 :: rest).
    change (skip_ws (item_separator ++ Y)) with (44 :: newline_indent 1 ++ Y).
    cbv beta iota.
    change (44 =? 125) with false; change (44 =? 44) with true; cbv iota.
    destruct fuel as [|fuel]; [simpl in Hfuel; lia|].
    unfold Y; rewrite skip_indent_items by discriminate.
    rewrite IH.
    + rewrite <- app_assoc; reflexivity.
    + discriminate.
    + simpl in Hfuel |- *; lia.
    + rewrite map_app, <- app_assoc; exact Hnd.
    + exact Hok'.
Qed.

Lemma loads_brace (recursion_limit : nat) (t : str) :
  loads recursion_limit (123 :: t) =
  match scan_once recursion_limit (123 :: t) with
  | Scanned value r => if is_empty (skip_ws r) then inl value else inr NotJson
  | Fails e => inr e
  end.
Proof. reflexivity. Qed.

Lemma scan_once_object (depth : nat) (t : str) :
  scan_once (S depth) (123 :: t) =
  match skip_ws t with
  | [] => Fails NotJson
  | d :: r =>
      if d =? 125 then Scanned (JObj []) r
      else match parse_members (scan_once depth) (List.length t) []
                   (d :: r) with
           | Scanned members r' => Scanned (JObj members) r'
           | Fails e => Fails e
           end
  end.
Proof. reflexivity. Qed.

Lemma items_head (items : list (str * str)) (R : str) :
  items <> [] ->
  exists Z, join item_separator (List.map render_item items) ++ R = quote :: Z.
Proof.
  destruct items as [|[k v] items]; [contradiction|]; intros _.
  destruct items; cbn [List.map join]; unfold render_item, encode_string;
    cbn [fst snd app]; eexists; reflexivity.
Qed.

Lemma items_length (items : list (str * str)) :
  (List.length items
   <= List.length (join item_separator (List.map render_item items)))%nat.
Proof.
  induction items as [|[k v] items IH]; [simpl; lia|].
  assert (Hk : (1 <= List.length (render_item (k, v)))%nat)
    by (unfold render_item, encode_string; simpl; lia).
  destruct items as [|kv' items'].
  - simpl; lia.
  - change (join item_separator (List.map render_item ((k, v) :: kv' :: items')))
      with (render_item (k, v) ++ item_separator
              ++ join item_separator (List.map render_item (kv' :: items'))).
    rewrite !length_app.
    change (List.length ((k, v) :: kv' :: items'))
      with (S (List.length (kv' :: items'))).
    lia.
Qed.

(** [loads] undoes [dumps] on a [dict] of strings, as soon as the
    scanner may enter one container. *)
Lemma loads_dumps_of_strings (recursion_limit : nat)
  (items : list (str * str)) :
  (0 < recursion_limit)%nat ->
  NoDup (List.map fst items) ->
  Forall (fun kv => text_ok (fst kv) /\ text_ok (snd kv)) items ->
  loads recursion_limit (dumps (of_strings items)) = inl (of_strings items).
Proof.
  intros Hdepth Hnd Hok; rewrite dumps_of_strings.
  destruct recursion_limit as [|depth]; [lia|].
  destruct items as [|kv items]; [reflexivity|].
  set (all := kv :: items) in *.
  assert (Hne : all <> []) by discriminate.
  rewrite loads_brace, scan_once_object.
  change [10; 125] with (10 :: 125 :: @nil N).
  rewrite (skip_indent_items all _ Hne).
  destruct (items_head all (10 :: 125 :: []) Hne) as [Z HZ].
  rewrite HZ; change (quote =? 125) with false; cbv iota.
  rewrite <- HZ, (parse_members_flat depth all _ [] [] Hne); try assumption.
  - reflexivity.
  - rewrite !length_app; pose proof (items_length all); lia.
Qed.

End WithRuntime.

(** *** Sample documents with integers, under the default digit limit *)

Example loads_integers :
  loads Prompts.default_digit_limit 3 (lit "{'a':1,'a':2,'b':3}")
    = inr NotJson /\
  loads Prompts.default_digit_limit 3 (lit "-0") = inl (JInt 0) /\
  loads Prompts.default_digit_limit 3 (lit "[1,]") = inr NotJson /\
  loads Prompts.default_digit_limit 3 (lit "01") = inr NotJson /\
  loads Prompts.default_digit_limit 3 (lit "1.") = inr NotJson /\
  loads Prompts.default_digit_limit 3 (lit " [1 , [ ] , -12 ] ")
    = inl (JArr [JInt 1; JArr []; JInt (-12)]).
Proof. repeat split; reflexivity. Qed.

Example loads_object_sample :
  loads Prompts.default_digit_limit 3
        ([123; 34] ++ lit "a" ++ [34; 58] ++ lit "1,"
         ++ [34] ++ lit "a" ++ [34; 58] ++ lit "2 , "
         ++ [34] ++ lit "b" ++ [92] ++ lit "/" ++ [34; 32; 58; 91; 93; 125; 10])
  = inl (JObj [(lit "a", JInt 2); (lit "b/", JArr [])]).
Proof. reflexivity. Qed.

(** An integer of 4301 digits is refused under the default limit of
    4300, inside a document as well; one of 4300 digits is read, and so
    is a float with as many digits. *)
Example loads_digit_limit :
  loads Prompts.default_digit_limit 3 (repeat 49 4301) = inr TooManyDigits /\
  loads Prompts.default_digit_limit 3 (lit "[1, -" ++ repeat 49 4301 ++ lit "]")
    = inr TooManyDigits /\
  loads Prompts.default_digit_limit 3 (repeat 49 4300)
    = inl (JInt (Z.of_N (digits_value (repeat 49 4300)))) /\
  loads Prompts.default_digit_limit 3 (repeat 49 4301 ++ lit ".0")
    = inl (JFloat (repeat 49 4301 ++ lit ".0")) /\
  loads None 3 (repeat 49 4301)
    = inl (JInt (Z.of_N (digits_value (repeat 49 4301)))).
Proof. repeat split; vm_compute; reflexivity. Qed.

(** With room for 992 containers, arrays nested 993 deep are refused,
    closed or not. *)
Example loads_recursion_limit :
  loads None 992 (repeat 91 993 ++ repeat 93 993) = inr TooDeep /\
  loads None 992 (repeat 91 993) = inr TooDeep /\
  loads None 992 (repeat 91 992) = inr NotJson.
Proof. repeat split; vm_compute; reflexivity. Qed.

End Json.

(* ================================================================== *)
(** ** The preference file: [load_setup_config] and [save_setup_config]
       (setup.py, lines 136-149) *)

Module Prefs.

Import Json.

(** *** Text files *)

(** Bytes are numbers below 256. *)
Definition bytes := list N.

Definition continuation (b : N) : bool := (128 <=? b) && (b <=? 191).

(** The strict UTF-8 decoder of [open(..., encoding='utf-8')]: overlong
    forms, surrogates and values above U+10FFFF are errors. *)
Fixpoint utf8_decode (bs : bytes) : option str :=
  match bs with
  | [] => Some []
  | b0 :: t =>
      if b0 <? 128 then option_map (cons b0) (utf8_decode t)
      else if (194 <=? b0) && (b0 <=? 223) then
        match t with
        | b1 :: t1 =>
            if continuation b1
            then option_map (cons ((b0 - 192) * 64 + (b1 - 128)))
                   (utf8_decode t1)
            else None
        | _ => None
        end
      else if (224 <=? b0) && (b0 <=? 239) then
        match t with
        | b1 :: b2 :: t2 =>
            let cp := (b0 - 224) * 4096 + (b1 - 128) * 64 + (b2 - 128) in
            if continuation b1 && continuation b2
               && (2048 <=? cp) && negb ((55296 <=? cp) && (cp <=? 57343))
            then option_map (cons cp) (utf8_decode t2)
            else None
        | _ => None
        end
      else if (240 <=? b0) && (b0 <=? 244) then
        match t with
        | b1 :: b2 :: b3 :: t3 =>
            let cp := (b0 - 240) * 262144 + (b1 - 128) * 4096
                      + (b2 - 128) * 64 + (b3 - 128) in
            if continuation b1 && continuation b2 && continuation b3
               && (65536 <=? cp) && (cp <=? 1114111)
            then option_map (cons cp) (utf8_decode t3)
            else None
        | _ => None
        end
      else None
  end.

(** The UTF-8 encoder; a surrogate cannot be encoded. *)
Definition utf8_encode_char (c : N) : option bytes :=
  if c <? 128 then Some [c]
  else if c <? 2048 then Some [192 + c / 64; 128 + c mod 64]
  else if c <? 65536 then
    if (55296 <=? c) && (c <=? 57343) then None
    else Some [224 + c / 4096; 128 + (c / 64) mod 64; 128 + c mod 64]
  else if c <? 1114112 then
    Some [240 + c / 262144; 128 + (c / 4096) mod 64;
          128 + (c / 64) mod 64; 128 + c mod 64]
  else None.

Fixpoint utf8_encode (s : str) : option bytes :=
  match s with
  | [] => Some []
  | c :: t =>
      match utf8_encode_char c, utf8_encode t with
      | Some b, Some bs => Some (b ++ bs)
      | _, _ => None
      end
  end.

(** [os.linesep] is what a text file opened with the default [newline]
    writes for each [\n]. *)
Inductive platform := Posix | Windows.

Definition write_newlines (os : platform) (s : str) : str :=
  match os with
  | Posix => s
  | Windows => flat_map (fun c => if c =? 10 then [13; 10] else [c]) s
  end.

(** *** The file beside the program *)

Inductive file_state :=
| Missing                 (* [config_path.exists()] is false *)
| Denied                  (* [open] raises an [IOError] *)
| Data (content : bytes).

Inductive warning :=
| CouldNotParse    (* "Warning: Could not parse ... Using defaults." *)
| CouldNotSave.    (* "Warning: Could not save config to ..." *)

(** Exceptions that no handler of the two functions catches. *)
Inductive exception :=
| UnicodeDecodeError
| UnicodeEncodeError
| ValueError        (* an integer with more digits than the limit *)
| RecursionError.   (* containers nested beyond the recursion limit *)

Inductive result (A : Type) :=
| Returned (value : A) (warnings : list warning)
| Raised (e : exception).

Arguments Returned {A} value warnings.
Arguments Raised {A} e.

(** The empty [dict]. *)
Definition empty_mapping : json := JObj [].

(** A line feed or a printable ASCII character. *)
Definition plain (c : N) : Prop := c = 10 \/ 32 <= c <= 126.

Ltac plain_char :=
  solve [left; reflexivity | right; unfold backslash, quote; lia].

Ltac plain_list :=
  repeat (apply Forall_cons; [plain_char|]); try apply Forall_nil.

Section WithRuntime.

(** The interpreter that runs the program: the digit limit of [int],
    the number of JSON containers that its recursion limit lets the
    decoder enter one inside the other when [load_setup_config] calls
    [json.load], and the text of a [float]. *)
Variable max_str_digits : option N.
Variable recursion_limit : nat.
Variable floatstr : str -> str.

(** [json.load(f)] reads the whole file as text, then decodes it.  Of
    the exceptions of the decoder, the handler catches
    [JSONDecodeError] alone. *)
Definition load_setup_config (config_path : file_state) : result json :=
  match config_path with
  | Missing => Returned empty_mapping []
  | Denied => Returned empty_mapping [CouldNotParse]
  | Data content =>
      match utf8_decode content with
      | None => Raised UnicodeDecodeError
      | Some text =>
          match loads max_str_digits recursion_limit
                  (Gitignore.translate_newlines false text) with
          | inl config => Returned config []
          | inr NotJson => Returned empty_mapping [CouldNotParse]
          | inr TooManyDigits => Raised ValueError
          | inr TooDeep => Raised RecursionError
          end
      end
  end.

(** The state of the file after [save_setup_config]. *)
Definition save_setup_config (os : platform) (config_data : json)
  (config_path : file_state) : result file_state :=
  match config_path with
  | Denied => Returned Denied [CouldNotSave]
  | _ =>
      if ints_within_limit max_str_digits config_data then
        match utf8_encode
                (write_newlines os (dumps floatstr config_data)) with
        | Some content => Returned (Data content) []
        | None => Raised UnicodeEncodeError
        end
      else Raised ValueError
  end.

(** The keys that [main] reads and writes. *)
Definition default_parent_directory : str := Eval cbv in
  lit "default_parent_directory".
Definition last_indexer_ip : str := Eval cbv in lit "last_indexer_ip".
Definition last_indexer_port : str := Eval cbv in lit "last_indexer_port".

(** *** Lemmas: what [dumps] writes is plain ASCII *)

Lemma hex_digit_plain (d : N) : d < 16 -> plain (hex_digit d).
Proof. intros Hd; right; now apply hex_digit_printable. Qed.

Lemma hex4_encode_plain (n : N) : n < 65536 -> Forall plain (hex4_encode n).
Proof.
  intros Hn; unfold hex4_encode.
  repeat (apply Forall_cons; [apply hex_digit_plain; div_lia|]).
  apply Forall_nil.
Qed.

Lemma encode_char_plain (c : N) : c < 1114112 -> Forall plain (encode_char c).
Proof.
  intros Hc; unfold encode_char.
  repeat match goal with
  | |- context [if ?x =? ?k then _ else _] =>
      destruct (x =? k); [plain_list|]
  end.
  destruct ((32 <=? c) && (c <=? 126)) eqn:Eplain.
  { apply andb_true_iff in Eplain as [E1 E2]; apply N.leb_le in E1, E2.
    plain_list. }
  destruct (N.ltb_spec c 65536) as [Hbmp|Hsup].
  - plain_list. now apply hex4_encode_plain.
  - plain_list.
    apply Forall_app; split; [apply hex4_encode_plain; div_lia|].
    plain_list. apply hex4_encode_plain; div_lia.
Qed.

Lemma encode_string_plain (s : str) :
  Forall (fun c => c < 1114112) s -> Forall plain (encode_string s).
Proof.
  intros Hs; unfold encode_string, encode_chars.
  plain_list.
  apply Forall_app; split; [|plain_list].
  induction Hs as [|c t Hc Ht IH]; simpl; [constructor|].
  apply Forall_app; split; [now apply encode_char_plain | exact IH].
Qed.

Lemma render_item_plain (kv : str * str) :
  text_ok (fst kv) /\ text_ok (snd kv) -> Forall plain (render_item kv).
Proof.
  intros [[Hk _] [Hv _]]; unfold render_item.
  apply Forall_app; split; [now apply encode_string_plain|].
  apply Forall_cons; [plain_char|].
  apply Forall_cons; [plain_char|].
  now apply encode_string_plain.
Qed.

Lemma item_separator_plain : Forall plain item_separator.
Proof. unfold item_separator; simpl; plain_list. Qed.

Lemma join_items_plain (items : list (str * str)) :
  Forall (fun kv => text_ok (fst kv) /\ text_ok (snd kv)) items ->
  Forall plain (join item_separator (List.map render_item items)).
Proof.
  induction 1 as [|kv items Hkv Hitems IH]; [constructor|].
  destruct items as [|kv' items'].
  - simpl; now apply render_item_plain.
  - change (join item_separator (List.map render_item (kv :: kv' :: items')))
      with (render_item kv ++ item_separator
              ++ join item_separator (List.map render_item (kv' :: items'))).
    apply Forall_app; split; [now apply render_item_plain|].
    apply Forall_app; split; [apply item_separator_plain | exact IH].
Qed.

Lemma dumps_of_strings_plain (items : list (str * str)) :
  Forall (fun kv => text_ok (fst kv) /\ text_ok (snd kv)) items ->
  Forall plain (dumps floatstr (of_strings items)).
Proof.
  intros Hok; rewrite dumps_of_strings.
  destruct items as [|kv items]; [plain_list|].
  apply Forall_cons; [plain_char|].
  apply Forall_app; split; [simpl; plain_list|].
  apply Forall_app; split; [now apply join_items_plain | plain_list].
Qed.

(** *** Lemmas: writing and reading plain text *)

Lemma utf8_encode_plain (s : str) : Forall plain s -> utf8_encode s = Some s.
Proof.
  induction 1 as [|c t Hc Ht IH]; [reflexivity|].
  cbn [utf8_encode]; rewrite IH; unfold utf8_encode_char.
  replace (c <? 128) with true
    by (symmetry; apply N.ltb_lt; destruct Hc; lia).
  reflexivity.
Qed.

Lemma utf8_decode_ascii (bs : bytes) :
  Forall (fun b => b < 128) bs -> utf8_decode bs = Some bs.
Proof.
  induction 1 as [|b t Hb Ht IH]; [reflexivity|].
  cbn [utf8_decode]; rewrite IH.
  apply N.ltb_lt in Hb; rewrite Hb; reflexivity.
Qed.

Lemma write_newlines_ascii (os : platform) (s : str) :
  Forall plain s -> Forall (fun b => b < 128) (write_newlines os s).
Proof.
  intros Hs; destruct os; simpl.
  - eapply Forall_impl; [|exact Hs]; intros c [->|H]; simpl; lia.
  - induction Hs as [|c t Hc Ht IH]; simpl; [constructor|].
    destruct (N.eqb_spec c 10).
    + cbn [app]; apply Forall_cons; [lia|].
      apply Forall_cons; [lia | exact IH].
    + cbn [app]; apply Forall_cons; [destruct Hc; lia | exact IH].
Qed.

(** Reading gives back the text that was written, whatever the line
    separator of the platform. *)
Lemma read_back_newlines (os : platform) (s : str) :
  Forall plain s ->
  Gitignore.translate_newlines false (write_newlines os s) = s.
Proof.
  intros Hs.
  assert (Hcr : Forall (fun c => c <> Gitignore.CR) s).
  { eapply Forall_impl; [|exact Hs].
    intros c [->|H]; unfold Gitignore.CR; simpl; lia. }
  destruct os; simpl; [now apply Gitignore.translate_no_cr|].
  clear Hs; induction Hcr as [|c t Hc Ht IH]; [reflexivity|].
  cbn [flat_map].
  destruct (N.eqb_spec c 10) as [->|Hlf].
  - cbn [app]. change (Gitignore.translate_newlines false (13 :: 10 :: ?x))
      with (10 :: Gitignore.translate_newlines false x).
    now rewrite IH.
  - cbn [app Gitignore.translate_newlines].
    destruct (N.eqb_spec c Gitignore.CR); [contradiction|].
    destruct (N.eqb_spec c Gitignore.LF); [contradiction|].
    now rewrite IH.
Qed.

(** *** Loading *)

(** The two cases that the loader handles: no file, and a file whose
    text is not a JSON document. *)
Lemma load_missing_or_malformed :
  load_setup_config Missing = Returned empty_mapping [] /\
  load_setup_config Denied = Returned empty_mapping [CouldNotParse] /\
  forall (content : bytes) (text : str),
    utf8_decode content = Some text ->
    loads max_str_digits recursion_limit
      (Gitignore.translate_newlines false text) = inr NotJson ->
    load_setup_config (Data content) = Returned empty_mapping [CouldNotParse].
Proof.
  repeat split; intros content text Hd Hl; simpl; now rewrite Hd, Hl.
Qed.

(** The two exceptions of the decoder that the handler lets through. *)
Lemma load_decoder_raises (content : bytes) (text : str) :
  utf8_decode content = Some text ->
  (loads max_str_digits recursion_limit
     (Gitignore.translate_newlines false text) = inr TooManyDigits ->
   load_setup_config (Data content) = Raised ValueError) /\
  (loads max_str_digits recursion_limit
     (Gitignore.translate_newlines false text) = inr TooDeep ->
   load_setup_config (Data content) = Raised RecursionError).
Proof.
  intros Hd; split; intros Hl; simpl; now rewrite Hd, Hl.
Qed.

(** *** Claims *)

(** C7, at the failing input: a preference file that is not valid UTF-8
    (here the single byte 0xFF) makes the read inside [json.load] raise
    [UnicodeDecodeError], which is neither [JSONDecodeError] nor
    [IOError]: the loader raises instead of returning the empty mapping
    with a warning. *)
Theorem load_invalid_utf8_raises :
  load_setup_config (Data [255]) = Raised UnicodeDecodeError.
Proof. reflexivity. Qed.

(** The same with a file saved in Latin-1: the byte 0xE9 of an accented
    letter inside an otherwise well-formed document. *)
Example load_latin1_raises :
  load_setup_config
    (Data ([123; 34] ++ lit "last_indexer_ip" ++ [34; 58; 32; 34]
           ++ lit "caf" ++ [233] ++ [34; 125]))
  = Raised UnicodeDecodeError.
Proof. reflexivity. Qed.

(** C8, amended: for every mapping from strings to strings (distinct
    keys, as in a [dict]) whose keys and values are strings of code
    points with no high surrogate directly followed by a low surrogate,
    [save_setup_config] writes the file without warning whenever the
    file can be opened, and [load_setup_config] on that file then
    returns the mapping that was saved, without warning.  This holds
    under every digit limit and every text of floats, in an interpreter
    whose recursion limit lets the decoder enter the one object of the
    file. *)
Theorem preferences_round_trip
  (os : platform) (items : list (str * str)) (before : file_state) :
  (0 < recursion_limit)%nat ->
  NoDup (List.map fst items) ->
  Forall (fun kv => text_ok (fst kv) /\ text_ok (snd kv)) items ->
  before <> Denied ->
  exists after : file_state,
    save_setup_config os (of_strings items) before = Returned after [] /\
    load_setup_config after = Returned (of_strings items) [].
Proof.
  intros Hdepth Hnd Hok Hopen.
  pose proof (dumps_of_strings_plain items Hok) as Hplain.
  set (text := dumps floatstr (of_strings items)) in *.
  exists (Data (write_newlines os text)).
  assert (Hw : Forall (fun b => b < 128) (write_newlines os text))
    by now apply write_newlines_ascii.
  assert (Henc : utf8_encode (write_newlines os text)
                 = Some (write_newlines os text)).
  { destruct os; [now apply utf8_encode_plain|].
    clear - Hplain; simpl.
    induction Hplain as [|c t Hc Ht IH]; [reflexivity|].
    cbn [flat_map]; destruct (N.eqb_spec c 10) as [->|Hlf]; cbn [app].
    - cbn [utf8_encode]; rewrite IH; reflexivity.
    - cbn [utf8_encode]; rewrite IH; unfold utf8_encode_char.
      replace (c <? 128) with true
        by (symmetry; apply N.ltb_lt; destruct Hc; lia).
      reflexivity. }
  split.
  - unfold save_setup_config; fold text.
    rewrite ints_within_limit_of_strings, Henc.
    destruct before; [reflexivity | contradiction | reflexivity].
  - unfold load_setup_config.
    rewrite (utf8_decode_ascii _ Hw), (read_back_newlines os text Hplain).
    unfold text; now rewrite loads_dumps_of_strings.
Qed.

End WithRuntime.

(** *** An interpreter with its defaults *)

(** CPython 3.11 as it is started: 4300 digits, and a recursion limit
    of 1000 that leaves room for 992 containers where [main] calls
    [load_setup_config]. *)
Definition default_recursion_room : nat := 992.

(** [floatstr] on the literals that are the [repr] of their own value,
    such as [1.5]. *)
Definition floatstr_of_repr : str -> str := fun literal => literal.

Definition load_default : file_state -> result json :=
  load_setup_config Prompts.default_digit_limit default_recursion_room.

Definition save_default : platform -> json -> file_state -> result file_state :=
  save_setup_config Prompts.default_digit_limit floatstr_of_repr.

Example load_truncated_document :
  load_default (Data (lit "{'last_indexer_ip': "))
    = Returned empty_mapping [CouldNotParse] /\
  load_default (Data []) = Returned empty_mapping [CouldNotParse].
Proof. split; reflexivity. Qed.

(** A document that is valid JSON but not an object is returned as it
    is; it is not a mapping. *)
Example load_array_document :
  load_default (Data (lit "[]")) = Returned (JArr []) [].
Proof. reflexivity. Qed.

(** An integer of 4301 digits and arrays nested 993 deep make the
    decoder raise exceptions that the handler does not catch either. *)
Example load_decoder_exceptions :
  load_default (Data (repeat 49 4301)) = Raised ValueError /\
  load_default (Data (repeat 91 993 ++ repeat 93 993))
    = Raised RecursionError /\
  load_default (Data (repeat 91 993)) = Raised RecursionError.
Proof. repeat split; vm_compute; reflexivity. Qed.

(** Preferences whose host is a surrogate pair written as two code
    points, U+D83D U+DE00. *)
Definition paired_items : list (str * str) :=
  [(last_indexer_ip, [55357; 56832])].

Definition paired_file : bytes := Eval vm_compute in
  dumps floatstr_of_repr (of_strings paired_items).

(** C8 as stated fails: [json.dump] writes the two surrogates as two
    escapes of four hexadecimal digits each, and [json.load] reads a
    high-surrogate escape followed by a low-surrogate escape as the
    single code point U+1F600, so the loaded mapping differs from the
    saved one. *)
Lemma surrogate_pair_not_preserved :
  save_default Posix (of_strings paired_items) Missing
    = Returned (Data paired_file) [] /\
  load_default (Data paired_file)
    = Returned (of_strings [(last_indexer_ip, [128512])]) [] /\
  of_strings [(last_indexer_ip, [128512])] <> of_strings paired_items.
Proof.
  split; [reflexivity|]. split; [reflexivity|]. discriminate.
Qed.

Definition sample_items : list (str * str) := Eval cbv in
  [(default_parent_directory, lit "/data/splunk");
   (last_indexer_ip, lit "10.0.0.5");
   (last_indexer_port, lit "9997")].

Lemma sample_items_ok :
  Forall (fun kv => text_ok (fst kv) /\ text_ok (snd kv)) sample_items.
Proof.
  unfold sample_items, text_ok.
  repeat (apply Forall_cons;
          [cbn [fst snd]; split; (split; [|reflexivity]);
           repeat (apply Forall_cons; [reflexivity|]); apply Forall_nil|]).
  apply Forall_nil.
Qed.

Lemma sample_items_distinct : NoDup (List.map fst sample_items).
Proof.
  unfold sample_items; cbn [List.map fst].
  repeat (apply NoDup_cons;
          [cbn [In]; intros H;
           repeat (destruct H as [H|H]; [discriminate H|]); exact H|]).
  apply NoDup_nil.
Qed.

Lemma default_recursion_room_positive : (0 < default_recursion_room)%nat.
Proof. unfold default_recursion_room; lia. Qed.

Lemma preferences_round_trip_witness :
  exists after : file_state,
    save_default Windows (of_strings sample_items) Missing
      = Returned after [] /\
    load_default after = Returned (of_strings sample_items) [].
Proof.
  apply (preferences_round_trip Prompts.default_digit_limit
           default_recursion_room floatstr_of_repr Windows sample_items
           Missing default_recursion_room_positive
           sample_items_distinct sample_items_ok).
  discriminate.
Defined.

End Prefs.

(* ================================================================== *)
(** ** The update of the root [.gitignore] (setup.py, lines 449-464) *)

Module IgnoreList.

Import Gitignore.

(** The root [.gitignore] as the update finds it: its bytes when
    [gitignore_path.is_file()] holds, and what [open] does with the
    path.  A path that is no file is created by [open(..., 'a')] when
    it can be appended to. *)
Record ignore_file := {
  data : option Prefs.bytes;   (* [None]: [is_file()] is false *)
  readable : bool;             (* [open(..., 'r')] and the reads succeed *)
  appendable : bool            (* [open(..., 'a')] and the write succeed *)
}.

Inductive message :=
| Adding             (* "Adding '...' to root .gitignore (...)..." *)
| ParentDirInvalid   (* "Warning: Cannot update .gitignore, ..." *)
| WarnIOError        (* "Warning: Could not update root .gitignore: ..." *)
| WarnValueError.    (* "Warning: Could not update ... (diff drives?): ..." *)

(** What the [with open(gitignore_path, 'r', encoding='utf-8')] block
    leaves in [entries], or the warning of the handler that catches its
    exception: [IOError] when the file cannot be opened or read,
    [UnicodeDecodeError], which is a [ValueError], when its bytes are
    not UTF-8.  [set(...)] forgets order and repetition, which the
    membership test does not look at. *)
Inductive reading :=
| Entries (entries : list str)
| ReadFails (w : message).

Definition read_entries (gitignore : ignore_file) : reading :=
  match data gitignore with
  | None => Entries []
  | Some content =>
      if readable gitignore then
        match Prefs.utf8_decode content with
        | Some text => Entries (stripped_lines text)
        | None => ReadFails WarnValueError
        end
      else ReadFails WarnIOError
  end.

Definition bytes_of (gitignore : ignore_file) : Prefs.bytes :=
  match data gitignore with Some content => content | None => [] end.

(** The file after [written] has been added at its end. *)
Definition appended (gitignore : ignore_file) (written : Prefs.bytes)
  : ignore_file :=
  {| data := Some (bytes_of gitignore ++ written);
     readable := readable gitignore;
     appendable := appendable gitignore |}.

(** The [try] block and its two handlers: what is printed, and the file
    afterwards.  [parent_dir_is_path] is [isinstance(parent_dir, Path)],
    which holds in [main] once the loop of lines 192-204 has ended.
    [instance_dir] is [parent_dir / project_name_sanitized], so that
    [relative_to] gives the name back.  The text is encoded when it is
    written, after [open(..., 'a')] has created a missing file; a
    [UnicodeEncodeError] is a [ValueError]. *)
Definition update_gitignore (parent_dir_is_path : bool)
  (project_name_sanitized : str) (gitignore : ignore_file)
  : list message * ignore_file :=
  if parent_dir_is_path then
    let ignore_entry := ignore_entry project_name_sanitized in
    match read_entries gitignore with
    | ReadFails w => ([w], gitignore)
    | Entries entries =>
        if negb (existsb (str_eqb ignore_entry) entries) then
          if appendable gitignore then
            match Prefs.utf8_encode (appended_text project_name_sanitized) with
            | Some written => ([Adding], appended gitignore written)
            | None => ([Adding; WarnValueError], appended gitignore [])
            end
          else ([Adding; WarnIOError], gitignore)
        else ([], gitignore)
    end
  else ([ParentDirInvalid], gitignore).

(** The stripped lines that the bytes of the file hold, when they are
    UTF-8 text; a path that is no file holds none. *)
Definition lines_of (gitignore : ignore_file) : option (list str) :=
  match data gitignore with
  | None => Some []
  | Some content => option_map stripped_lines (Prefs.utf8_decode content)
  end.

(** The update appends: the file is read as text, no line of it is the
    entry, and it can be appended to. *)
Definition appends (project_name_sanitized : str) (gitignore : ignore_file)
  : bool :=
  match read_entries gitignore with
  | Entries entries =>
      (occurrences (ignore_entry project_name_sanitized) entries =? 0)%nat
      && appendable gitignore
  | ReadFails _ => false
  end.

(** *** Sample files *)

Definition file_with (content : Prefs.bytes) : ignore_file :=
  {| data := Some content; readable := true; appendable := true |}.

Definition no_file : ignore_file :=
  {| data := None; readable := true; appendable := true |}.

Example update_missing_file :
  update_gitignore true web no_file
  = ([Adding],
     file_with ([10] ++ lit "# Ignore generated instance 'web'" ++ [10]
                ++ lit "/web/" ++ [10])).
Proof. reflexivity. Qed.

Example update_indented_entry_kept :
  update_gitignore true web (file_with (lit "   /web/  "))
  = ([], file_with (lit "   /web/  ")).
Proof. reflexivity. Qed.

(** A file that is not UTF-8 (the byte 0xFF), one that cannot be read
    and one that cannot be appended to are left as they are, with a
    warning. *)
Example update_fails_with_warning :
  update_gitignore true web (file_with [255])
    = ([WarnValueError], file_with [255]) /\
  update_gitignore true web
    {| data := Some []; readable := false; appendable := true |}
    = ([WarnIOError],
       {| data := Some []; readable := false; appendable := true |}) /\
  update_gitignore true web
    {| data := Some []; readable := true; appendable := false |}
    = ([Adding; WarnIOError],
       {| data := Some []; readable := true; appendable := false |}) /\
  update_gitignore true web
    {| data := None; readable := true; appendable := false |}
    = ([Adding; WarnIOError],
       {| data := None; readable := true; appendable := false |}).
Proof. repeat split; reflexivity. Qed.

(** *** Lemmas *)

Lemma utf8_decode_app_ascii (n : nat) :
  forall (bs : Prefs.bytes) (text : str) (tail : Prefs.bytes),
    (List.length bs <= n)%nat ->
    Prefs.utf8_decode bs = Some text ->
    Forall (fun b => b < 128) tail ->
    Prefs.utf8_decode (bs ++ tail) = Some (text ++ tail).
Proof.
  induction n as [|n IH]; intros bs text tail Hn Hd Htail.
  - destruct bs; [|simpl in Hn; lia].
    injection Hd as <-; now apply Prefs.utf8_decode_ascii.
  - destruct bs as [|b0 t];
      [injection Hd as <-; now apply Prefs.utf8_decode_ascii|].
    cbn [app Prefs.utf8_decode] in Hd |- *; cbn [List.length] in Hn.
    destruct (b0 <? 128).
    { destruct (Prefs.utf8_decode t) as [x|] eqn:E; [|discriminate Hd].
      rewrite (IH t x tail) by (lia || assumption).
      simpl in Hd |- *; injection Hd as <-; reflexivity. }
    destruct ((194 <=? b0) && (b0 <=? 223)).
    { destruct t as [|b1 t1]; [discriminate Hd|].
      cbn [app List.length] in *.
      destruct (Prefs.continuation b1); [|discriminate Hd].
      destruct (Prefs.utf8_decode t1) as [x|] eqn:E; [|discriminate Hd].
      rewrite (IH t1 x tail) by (lia || assumption).
      simpl in Hd |- *; injection Hd as <-; reflexivity. }
    destruct ((224 <=? b0) && (b0 <=? 239)).
    { destruct t as [|b1 [|b2 t2]]; try discriminate Hd.
      cbn [app List.length] in *.
      match type of Hd with (if ?c then _ else _) = _ => destruct c end;
        [|discriminate Hd].
      destruct (Prefs.utf8_decode t2) as [x|] eqn:E; [|discriminate Hd].
      rewrite (IH t2 x tail) by (lia || assumption).
      simpl in Hd |- *; injection Hd as <-; reflexivity. }
    destruct ((240 <=? b0) && (b0 <=? 244)); [|discriminate Hd].
    destruct t as [|b1 [|b2 [|b3 t3]]]; try discriminate Hd.
    cbn [app List.length] in *.
    match type of Hd with (if ?c then _ else _) = _ => destruct c end;
      [|discriminate Hd].
    destruct (Prefs.utf8_decode t3) as [x|] eqn:E; [|discriminate Hd].
    rewrite (IH t3 x tail) by (lia || assumption).
    simpl in Hd |- *; injection Hd as <-; reflexivity.
Qed.

Lemma safe_plain (name : str) :
  Forall (fun c => Sanitizer.safe c = true) name -> Forall Prefs.plain name.
Proof.
  intros H; eapply Forall_impl; [|exact H]; simpl.
  intros c Hc; right.
  unfold Sanitizer.safe, Sanitizer.underscore, Sanitizer.hyphen in Hc.
  Sanitizer.bool_to_prop Hc; lia.
Qed.

Lemma appended_text_plain (name : str) :
  Forall (fun c => Sanitizer.safe c = true) name ->
  Forall Prefs.plain (appended_text name).
Proof.
  intros H; apply safe_plain in H.
  unfold appended_text, comment_line, ignore_entry, comment_prefix, LF.
  repeat first
    [ exact H
    | apply Forall_nil
    | apply Forall_cons; [solve [left; reflexivity | right; lia]|]
    | apply Forall_app; split ].
Qed.

Lemma appended_text_ascii (name : str) :
  Forall (fun c => Sanitizer.safe c = true) name ->
  Forall (fun b => b < 128) (appended_text name).
Proof.
  intros H; apply appended_text_plain in H.
  eapply Forall_impl; [|exact H]; intros c [->|Hc]; simpl; lia.
Qed.

Lemma lines_of_read (gitignore : ignore_file) (entries : list str) :
  read_entries gitignore = Entries entries ->
  lines_of gitignore = Some entries.
Proof.
  unfold read_entries, lines_of; destruct (data gitignore) as [content|].
  - destruct (readable gitignore); [|discriminate].
    destruct (Prefs.utf8_decode content); [|discriminate].
    intros H; injection H as <-; reflexivity.
  - intros H; injection H as <-; reflexivity.
Qed.

(** The lines of the file once the text has been added at its end. *)
Lemma lines_of_appended (name : str) (gitignore : ignore_file)
  (entries : list str) :
  Forall (fun c => Sanitizer.safe c = true) name ->
  lines_of gitignore = Some entries ->
  lines_of (appended gitignore (appended_text name))
  = Some (entries ++ [comment_line name; ignore_entry name]).
Proof.
  intros Hname; unfold lines_of, appended, bytes_of; cbn [data].
  destruct (data gitignore) as [content|].
  - destruct (Prefs.utf8_decode content) as [text|] eqn:E; [|discriminate].
    intros H; injection H as <-.
    rewrite (utf8_decode_app_ascii _ content text _ (le_n _) E
               (appended_text_ascii name Hname)).
    cbn [option_map]; f_equal.
    apply stripped_lines_appended, safe_no_line_break, Hname.
  - intros H; injection H as <-.
    cbn [app].
    rewrite (Prefs.utf8_decode_ascii _ (appended_text_ascii name Hname)).
    cbn [option_map]; f_equal.
    apply (stripped_lines_appended [] name), safe_no_line_break, Hname.
Qed.

(** What one update does for a name of the sanitizer. *)
Lemma update_gitignore_cases (name : str) (gitignore : ignore_file) :
  Forall (fun c => Sanitizer.safe c = true) name ->
  update_gitignore true name gitignore =
  match read_entries gitignore with
  | ReadFails w => ([w], gitignore)
  | Entries entries =>
      if (occurrences (ignore_entry name) entries =? 0)%nat
      then if appendable gitignore
           then ([Adding], appended gitignore (appended_text name))
           else ([Adding; WarnIOError], gitignore)
      else ([], gitignore)
  end.
Proof.
  intros Hname; unfold update_gitignore.
  destruct (read_entries gitignore) as [entries|w]; [|reflexivity].
  rewrite existsb_occurrences, negb_involutive.
  rewrite (Prefs.utf8_encode_plain _ (appended_text_plain name Hname)).
  reflexivity.
Qed.

Lemma update_gitignore_file (name : str) (gitignore : ignore_file) :
  Forall (fun c => Sanitizer.safe c = true) name ->
  snd (update_gitignore true name gitignore) =
  if appends name gitignore
  then appended gitignore (appended_text name) else gitignore.
Proof.
  intros Hname; rewrite (update_gitignore_cases name gitignore Hname).
  unfold appends; destruct (read_entries gitignore) as [entries|w];
    [|reflexivity].
  destruct (occurrences _ _ =? 0)%nat; [|reflexivity].
  destruct (appendable gitignore); reflexivity.
Qed.

Lemma read_entries_appended (name : str) (gitignore : ignore_file)
  (entries : list str) :
  Forall (fun c => Sanitizer.safe c = true) name ->
  lines_of gitignore = Some entries ->
  read_entries (appended gitignore (appended_text name)) =
  if readable gitignore
  then Entries (entries ++ [comment_line name; ignore_entry name])
  else ReadFails WarnIOError.
Proof.
  intros Hname Hl.
  pose proof (lines_of_appended name gitignore entries Hname Hl) as Ha.
  unfold read_entries, lines_of in *; cbn [appended data readable] in *.
  destruct (readable gitignore); [|reflexivity].
  destruct (Prefs.utf8_decode (bytes_of gitignore ++ appended_text name));
    [|discriminate Ha].
  injection Ha as ->; reflexivity.
Qed.

Lemma occurrences_entry_added (name : str) (entries : list str) :
  occurrences (ignore_entry name)
    (entries ++ [comment_line name; ignore_entry name])
  = S (occurrences (ignore_entry name) entries).
Proof.
  rewrite occurrences_app; unfold occurrences at 2; cbn [filter].
  rewrite comment_is_not_entry, str_eqb_refl; cbn [List.length]; lia.
Qed.

(** A second update finds the entry, or cannot read the file: it
    appends nothing. *)
Lemma appends_once (name : str) (gitignore : ignore_file) :
  Forall (fun c => Sanitizer.safe c = true) name ->
  appends name gitignore = true ->
  appends name (appended gitignore (appended_text name)) = false.
Proof.
  intros Hname Ha; unfold appends in *.
  destruct (read_entries gitignore) as [entries|w] eqn:Er; [|discriminate].
  rewrite (read_entries_appended name gitignore entries Hname
             (lines_of_read _ _ Er)).
  destruct (readable gitignore); [|reflexivity].
  now rewrite occurrences_entry_added.
Qed.

Lemma update_gitignore_idempotent (name : str) (gitignore : ignore_file) :
  Forall (fun c => Sanitizer.safe c = true) name ->
  snd (update_gitignore true name (snd (update_gitignore true name gitignore)))
  = snd (update_gitignore true name gitignore).
Proof.
  intros Hname.
  rewrite (update_gitignore_file name gitignore Hname).
  destruct (appends name gitignore) eqn:Ea.
  - rewrite update_gitignore_file by exact Hname.
    now rewrite appends_once.
  - rewrite update_gitignore_file by exact Hname.
    now rewrite Ea.
Qed.

(** The number of lines that are the entry after one update that could
    read the file and, if need be, append to it. *)
Lemma occurrences_after_update (name : str) (gitignore : ignore_file)
  (entries : list str) :
  Forall (fun c => Sanitizer.safe c = true) name ->
  read_entries gitignore = Entries entries ->
  (occurrences (ignore_entry name) entries = 0%nat ->
   appendable gitignore = true) ->
  exists entries',
    lines_of (snd (update_gitignore true name gitignore)) = Some entries' /\
    occurrences (ignore_entry name) entries'
    = Nat.max 1 (occurrences (ignore_entry name) entries).
Proof.
  intros Hname Er Hap.
  rewrite (update_gitignore_file name gitignore Hname).
  unfold appends; rewrite Er.
  destruct (occurrences (ignore_entry name) entries) as [|k] eqn:Ek.
  - rewrite (Hap eq_refl); cbn [Nat.eqb andb].
    exists (entries ++ [comment_line name; ignore_entry name]); split.
    + apply lines_of_appended; [exact Hname | now apply lines_of_read].
    + rewrite occurrences_entry_added, Ek; reflexivity.
  - cbn [Nat.eqb andb]; exists entries; split.
    + now apply lines_of_read.
    + rewrite Ek; lia.
Qed.

(** *** Claims *)



End IgnoreList.

(* ================================================================== *)
(** ** The rendering of [config/inputs.conf] (setup.py, lines 259-294) *)

Module Render.

Definition LF : N := 10.

(** [f"{project_name_sanitized}-{container_name_base}"] *)
Definition container_name (project_name_sanitized container_name_base : str)
  : str :=
  project_name_sanitized ++ 45 :: container_name_base.

(** [f"{project_name_sanitized}_test.log"] *)
Definition log_file_name (project_name_sanitized : str) : str :=
  project_name_sanitized ++ [95; 116; 101; 115; 116; 46; 108; 111; 103].

Definition text_instance : str := Eval cbv in
  lit "# inputs.conf - Instance: ".
Definition text_hostname : str := Eval cbv in
  lit "# Hostname reported to Splunk will be the container name: ".
Definition text_monitor : str := Eval cbv in lit "monitor:///opt/logs/".
Definition text_disabled_false : str := Eval cbv in lit "disabled = false".
Definition text_disabled_true : str := Eval cbv in lit "disabled = true".
Definition text_index : str := Eval cbv in lit "index = main".
Definition text_sourcetype : str := Eval cbv in lit "sourcetype = _json".
Definition text_host : str := Eval cbv in lit "host = ".
Definition text_all_logs : str := Eval cbv in lit "*.log".
Definition text_catch_all : str := Eval cbv in
  lit "# Generic catch-all for other logs placed in host_logs if needed".

(** The lines of a text, each followed by a line feed. *)
Definition unlines (ls : list str) : str :=
  flat_map (fun l => l ++ [LF]) ls.

(** The lines of the f-string, in order; the two [host] lines end with a
    blank, as in the script. *)
Definition inputs_conf_lines
  (project_name_sanitized container_name_base : str) : list str :=
  let container_name :=
    container_name project_name_sanitized container_name_base in
  let log_file_name := log_file_name project_name_sanitized in
  [ text_instance ++ project_name_sanitized;
    text_hostname ++ container_name;
    91 :: (text_monitor ++ log_file_name) ++ [93];
    text_disabled_false;
    text_index;
    text_sourcetype;
    (text_host ++ container_name) ++ [32];
    [];
    91 :: (text_monitor ++ text_all_logs) ++ [93];
    text_catch_all;
    text_disabled_true;
    text_index;
    text_sourcetype;
    (text_host ++ container_name) ++ [32] ].

Definition inputs_conf_content
  (project_name_sanitized container_name_base : str) : str :=
  unlines (inputs_conf_lines project_name_sanitized container_name_base).

(** *** Reading a [.conf] file

    A stanza starts at a line [[name]]; a line that starts with [#] is a
    comment; a line [key = value] sets [key] in the current stanza, and
    the blanks around the key and the value do not count. *)

Inductive conf_line :=
| Blank
| Comment
| Header (name : str)
| Setting (key value : str)
| Unreadable.

Fixpoint split_at_equals (s : str) : option (str * str) :=
  match s with
  | [] => None
  | c :: t =>
      if c =? 61 then Some ([], t)
      else match split_at_equals t with
           | Some (k, v) => Some (c :: k, v)
           | None => None
           end
  end.

Definition classify (line : str) : conf_line :=
  match strip line with
  | [] => Blank
  | c :: t =>
      if c =? 35 then Comment
      else if c =? 91 then
        match rev t with
        | d :: r => if d =? 93 then Header (rev r) else Unreadable
        | [] => Unreadable
        end
      else
        match split_at_equals (c :: t) with
        | Some (k, v) => Setting (strip k) (strip v)
        | None => Unreadable
        end
  end.

Fixpoint split_lines_from (cur : str) (s : str) : list str :=
  match s with
  | [] => [cur]
  | c :: t =>
      if c =? LF then cur :: split_lines_from [] t
      else split_lines_from (cur ++ [c]) t
  end.

(** The settings of a file, each with the stanza it belongs to. *)
Fixpoint settings_of (stanza : str) (ls : list conf_line)
  : list (str * (str * str)) :=
  match ls with
  | [] => []
  | Header name :: rest => settings_of name rest
  | Setting key value :: rest =>
      (stanza, (key, value)) :: settings_of stanza rest
  | _ :: rest => settings_of stanza rest
  end.

Definition conf_settings (content : str) : list (str * (str * str)) :=
  settings_of [] (List.map classify (split_lines_from [] content)).

Definition key_host : str := Eval cbv in lit "host".

(** The [host] of every stanza that sets one. *)
Definition host_fields (content : str) : list (str * str) :=
  List.map (fun s => (fst s, snd (snd s)))
    (filter (fun s => str_eqb (fst (snd s)) key_host) (conf_settings content)).

Example inputs_conf_sample :
  host_fields (inputs_conf_content (lit "web_app_logs") (lit "uf"))
  = [(lit "monitor:///opt/logs/web_app_logs_test.log", lit "web_app_logs-uf");
     (lit "monitor:///opt/logs/*.log", lit "web_app_logs-uf")].
Proof. reflexivity. Qed.

(** *** Lemmas on lines *)

Definition one_line (l : str) : Prop := Forall (fun c => c <> LF) l.

Lemma split_lines_from_line (a cur b : str) :
  one_line a ->
  split_lines_from cur (a ++ LF :: b) = (cur ++ a) :: split_lines_from [] b.
Proof.
  intros Ha; revert cur; induction Ha as [|c t Hc Ht IH]; intros cur.
  - simpl; now rewrite app_nil_r.
  - simpl. destruct (N.eqb_spec c LF); [contradiction|].
    rewrite IH, <- app_assoc; reflexivity.
Qed.

Lemma split_lines_unlines (ls : list str) :
  Forall one_line ls ->
  split_lines_from [] (unlines ls) = ls ++ [[]].
Proof.
  induction 1 as [|l ls Hl Hls IH]; [reflexivity|].
  unfold unlines in *; cbn [flat_map].
  rewrite <- app_assoc; cbn [app].
  rewrite (split_lines_from_line l [] _ Hl), IH; reflexivity.
Qed.

Lemma no_space_one_line (s : str) :
  Forall (fun c => isspace c = false) s -> one_line s.
Proof.
  intros H; eapply Forall_impl; [|exact H]; simpl.
  intros c Hc ->; discriminate Hc.
Qed.

(** *** Lemmas on the classes of lines *)

Lemma strip_keeps_head (c : N) (t : str) :
  isspace c = false -> exists t', strip (c :: t) = c :: t'.
Proof.
  intros Hc; unfold strip, strip_by; cbn [dropwhile]; rewrite Hc.
  cbn [rev].
  assert (Hb : head_is isspace [c] = false) by exact Hc.
  destruct (dropwhile_app_stop isspace (rev t) [c] Hb) as [E|[_ E]];
    [discriminate | | ]; rewrite E.
  - rewrite rev_app_distr; eexists; reflexivity.
  - eexists; reflexivity.
Qed.

Lemma classify_comment (t : str) : classify (35 :: t) = Comment.
Proof.
  unfold classify.
  destruct (strip_keeps_head 35 t eq_refl) as [t' ->]; reflexivity.
Qed.

Lemma classify_header (name : str) :
  classify (91 :: name ++ [93]) = Header name.
Proof.
  unfold classify.
  rewrite (Gitignore.strip_fixed (91 :: name ++ [93])).
  - cbn [N.eqb Pos.eqb]; rewrite rev_app_distr; cbn [rev app].
    cbn [N.eqb Pos.eqb]; now rewrite rev_involutive.
  - reflexivity.
  - rewrite app_comm_cons; apply Gitignore.last_is_snoc.
Qed.

Lemma last_is_no_space (s : str) :
  Forall (fun c => isspace c = false) s -> last_is isspace s = false.
Proof.
  intros H; unfold last_is; apply Forall_rev in H.
  destruct (rev s); [reflexivity|]; now inversion H.
Qed.

Lemma strip_no_space (s : str) :
  Forall (fun c => isspace c = false) s -> strip s = s.
Proof.
  intros H; apply Gitignore.strip_fixed; [|now apply last_is_no_space].
  destruct s; [reflexivity|]; now inversion H.
Qed.

Lemma strip_cons_space (c : N) (s : str) :
  isspace c = true -> strip (c :: s) = strip s.
Proof. intros Hc; unfold strip, strip_by; cbn [dropwhile]; now rewrite Hc. Qed.

Lemma classify_host (value : str) :
  value <> [] ->
  Forall (fun c => isspace c = false) value ->
  classify ((text_host ++ value) ++ [32]) = Setting key_host value.
Proof.
  intros Hne Hv; unfold classify.
  rewrite (Gitignore.strip_snoc_space _ 32 eq_refl).
  assert (Hfix : strip (text_host ++ value) = text_host ++ value).
  { apply Gitignore.strip_fixed; [reflexivity|].
    unfold last_is; rewrite rev_app_distr.
    pose proof (last_is_no_space value Hv) as Hl; unfold last_is in Hl.
    destruct (rev value) as [|d r] eqn:E; [|exact Hl].
    apply (f_equal (@rev N)) in E; rewrite rev_involutive in E.
    contradiction. }
  rewrite Hfix; unfold text_host; cbn [app].
  cbn [N.eqb Pos.eqb split_at_equals].
  rewrite (strip_cons_space 32 value eq_refl), (strip_no_space value Hv).
  reflexivity.
Qed.

Definition key_disabled : str := Eval cbv in lit "disabled".
Definition key_index : str := Eval cbv in lit "index".
Definition key_sourcetype : str := Eval cbv in lit "sourcetype".

(** The classes of the lines of the rendered file, for a name and a
    base suffix without whitespace. *)
Lemma inputs_conf_classes (name base : str) :
  name <> [] ->
  Forall (fun c => isspace c = false) name ->
  Forall (fun c => isspace c = false) base ->
  List.map classify (split_lines_from [] (inputs_conf_content name base)) =
  [ Comment; Comment;
    Header (text_monitor ++ log_file_name name);
    Setting key_disabled (lit "false");
    Setting key_index (lit "main");
    Setting key_sourcetype (lit "_json");
    Setting key_host (container_name name base);
    Blank;
    Header (text_monitor ++ text_all_logs);
    Comment;
    Setting key_disabled (lit "true");
    Setting key_index (lit "main");
    Setting key_sourcetype (lit "_json");
    Setting key_host (container_name name base);
    Blank ].
Proof.
  intros Hne Hname Hbase.
  assert (Hcn : Forall (fun c => isspace c = false) (container_name name base)).
  { unfold container_name; apply Forall_app; split; [exact Hname|].
    constructor; [reflexivity | exact Hbase]. }
  assert (Hcne : container_name name base <> []).
  { unfold container_name; destruct name; [contradiction | discriminate]. }
  assert (Hclosed : forall l, Forall (fun c => isspace c = false) l -> one_line l)
    by exact no_space_one_line.
  assert (Hlines : Forall one_line (inputs_conf_lines name base)).
  { assert (Hlf : one_line (log_file_name name)).
    { unfold log_file_name; apply Forall_app; split; [now apply Hclosed|].
      repeat (apply Forall_cons; [unfold LF; discriminate|]);
        apply Forall_nil. }
    unfold inputs_conf_lines, one_line.
    repeat first
      [ apply Forall_nil
      | exact Hlf
      | apply Hclosed; assumption
      | apply Forall_app; split
      | apply Forall_cons; [try (unfold LF; discriminate)|] ]. }
  unfold inputs_conf_content; rewrite (split_lines_unlines _ Hlines).
  unfold inputs_conf_lines; cbn [List.map app].
  change (text_instance ++ name) with (35 :: tl text_instance ++ name).
  change (text_hostname ++ container_name name base)
    with (35 :: tl text_hostname ++ container_name name base).
  rewrite !classify_comment, !classify_header.
  rewrite (classify_host _ Hcne Hcn).
  reflexivity.
Qed.

(** *** Claims *)




End Render.

(* ================================================================== *)
(** ** More on instance names: the shape of sanitized names and the
       name prompt of [main] (setup.py, lines 127-134 and 206-215) *)

Module Names.

Import Sanitizer.

(** One pass through the body of the loop
    [while not project_name_sanitized]: the new value of
    [project_name_sanitized] ([[]] stands for [None]).  [dir_exists]
    tells whether [parent_dir / name] exists. *)
Definition name_attempt (lower : str -> str) (dir_exists : str -> bool)
  (raw : str) : str :=
  let project_name_raw := strip raw in
  if is_empty project_name_raw then []
  else
    let project_name_sanitized := sanitize_for_docker lower project_name_raw in
    if dir_exists project_name_sanitized then [] else project_name_sanitized.

(** The loop over the operator's successive answers. *)
Fixpoint name_loop (lower : str -> str) (dir_exists : str -> bool)
  (answers : list str) : option (str * list str) :=
  match answers with
  | [] => None
  | raw :: rest =>
      let project_name_sanitized := name_attempt lower dir_exists raw in
      if is_empty project_name_sanitized
      then name_loop lower dir_exists rest
      else Some (project_name_sanitized, rest)
  end.

(** An answer that the loop refuses: blank, or the name of an existing
    directory once sanitized. *)
Definition refused (lower : str -> str) (dir_exists : str -> bool)
  (raw : str) : Prop :=
  strip raw = [] \/
  dir_exists (sanitize_for_docker lower (strip raw)) = true.

(** *** Lemmas *)

Lemma alnum_not_space (c : N) : alnum c = true -> isspace c = false.
Proof. intros H; now apply safe_not_space, alnum_safe. Qed.

Lemma existsb_alnum_sub_ws (s : str) :
  existsb alnum (sub_ws s) = existsb alnum s /\
  existsb alnum (skip_run s) = existsb alnum s.
Proof.
  induction s as [|c t [IH1 IH2]]; [split; reflexivity|].
  simpl; destruct (isspace c) eqn:Ec; simpl; rewrite ?IH1, ?IH2.
  - assert (Ha : alnum c = false).
    { destruct (alnum c) eqn:E; [|reflexivity].
      apply alnum_not_space in E; congruence. }
    rewrite Ha; split; reflexivity.
  - split; reflexivity.
Qed.

Lemma existsb_alnum_sub_unsafe (s : str) :
  existsb alnum (sub_unsafe s) = existsb alnum s.
Proof.
  induction s as [|c t IH]; [reflexivity|].
  unfold sub_unsafe in *; simpl.
  destruct (safe c) eqn:Es; simpl; rewrite IH; [reflexivity|].
  destruct (alnum c) eqn:Ea; [|reflexivity].
  apply alnum_safe in Ea; congruence.
Qed.

Lemma existsb_alnum_dropwhile (s : str) :
  existsb alnum (dropwhile edge s) = existsb alnum s.
Proof.
  induction s as [|c t IH]; [reflexivity|].
  simpl; destruct (edge c) eqn:Ee; [|reflexivity].
  rewrite IH. destruct (alnum c) eqn:Ea; [|reflexivity].
  apply alnum_not_edge in Ea; congruence.
Qed.

Lemma existsb_rev (p : N -> bool) (s : str) :
  existsb p (rev s) = existsb p s.
Proof.
  induction s as [|c t IH]; [reflexivity|].
  simpl; rewrite existsb_app, IH; simpl.
  rewrite orb_false_r; apply orb_comm.
Qed.

Lemma existsb_alnum_strip (s : str) :
  existsb alnum (strip_by edge s) = existsb alnum s.
Proof.
  unfold strip_by.
  now rewrite existsb_rev, existsb_alnum_dropwhile, existsb_rev,
    existsb_alnum_dropwhile.
Qed.

Lemma existsb_alnum_cleaned (lower : str -> str) (s : str) :
  existsb alnum (cleaned lower s) = existsb alnum (lower s).
Proof.
  unfold cleaned.
  now rewrite existsb_alnum_strip, existsb_alnum_sub_unsafe,
    (proj1 (existsb_alnum_sub_ws (lower s))).
Qed.

(** A string over the safe class with no letter and no digit is made of
    underscores and hyphens, and the strip removes all of it. *)
Lemma strip_all_edges (t : str) :
  Forall (fun c => safe c = true) t -> existsb alnum t = false ->
  strip_by edge t = [].
Proof.
  intros Hs Ha; unfold strip_by.
  assert (He : forallb edge t = true).
  { induction Hs as [|c u Hc Hu IH]; [reflexivity|].
    simpl in Ha; apply orb_false_iff in Ha as [Hac Hau].
    simpl; rewrite safe_split, Hac in Hc; simpl in Hc.
    now rewrite Hc, IH. }
  now rewrite (dropwhile_all edge t He).
Qed.

Lemma cleaned_empty_iff (lower : str -> str) (s : str) :
  cleaned lower s = [] <-> existsb alnum (lower s) = false.
Proof.
  rewrite <- existsb_alnum_cleaned; split.
  - intros ->; reflexivity.
  - intros Ha.
    pose proof (cleaned_safe lower s) as Hs.
    rewrite <- (strip_all_edges _ Hs Ha).
    unfold cleaned; symmetry; apply strip_by_idem.
Qed.

Lemma length_dropwhile (p : N -> bool) (s : str) :
  (List.length (dropwhile p s) <= List.length s)%nat.
Proof.
  induction s as [|c t IH]; simpl; [lia|].
  destruct (p c); simpl; lia.
Qed.

Lemma length_strip_by (p : N -> bool) (s : str) :
  (List.length (strip_by p s) <= List.length s)%nat.
Proof.
  unfold strip_by; rewrite length_rev.
  pose proof (length_dropwhile p (rev (dropwhile p s))) as H1.
  pose proof (length_dropwhile p s) as H2.
  rewrite length_rev in H1; lia.
Qed.

Lemma length_sub_ws (s : str) :
  (List.length (sub_ws s) <= List.length s)%nat /\
  (List.length (skip_run s) <= List.length s)%nat.
Proof.
  induction s as [|c t [IH1 IH2]]; simpl; [lia|].
  destruct (isspace c); simpl; lia.
Qed.

Lemma length_sub_unsafe (s : str) :
  (List.length (sub_unsafe s) <= List.length s)%nat.
Proof. apply filter_length_le. Qed.

(** *** Properties of sanitized names *)

(** A sanitized name ends with a letter or a digit: the strip leaves no
    underscore or hyphen at the right end either. *)
Theorem sanitized_name_ends_alnum (lower : str -> str) (s : str) :
  last_is alnum (sanitize_for_docker lower s) = true /\
  last_is edge (sanitize_for_docker lower s) = false.
Proof. split; [apply sanitize_last_alnum | apply sanitize_last]. Qed.

(** The names that the sanitizer leaves unchanged are exactly the
    non-empty strings over [[a-z0-9_-]] that begin and end with a letter
    or a digit. *)
Theorem sanitize_fixed_point_iff
  (lower : str -> str)
  (Hlower : forall s, Forall (fun c => safe c = true) s -> lower s = s)
  (t : str) :
  sanitize_for_docker lower t = t <->
  all_safe t = true /\ head_is alnum t = true /\ last_is alnum t = true.
Proof.
  split.
  - intros E; rewrite <- E.
    auto using sanitize_all_safe, sanitize_head_alnum, sanitize_last_alnum.
  - intros (Hs & Hh & Hl).
    unfold all_safe in Hs; apply andb_true_iff in Hs as [Hne Hs].
    apply negb_true_iff, is_empty_false in Hne.
    apply sanitize_fixed; auto.
    + apply Forall_forall; intros c Hc.
      now apply (proj1 (forallb_forall safe t) Hs).
    + destruct t as [|c u]; [reflexivity|]; simpl in *.
      now apply alnum_not_edge.
    + unfold last_is in *; destruct (rev t) as [|c u]; [reflexivity|].
      simpl in *; now apply alnum_not_edge.
Qed.

Lemma sanitize_fixed_point_iff_witness :
  sanitize_for_docker lower_ascii (lit "web-app_2") = lit "web-app_2" <->
  all_safe (lit "web-app_2") = true /\
  head_is alnum (lit "web-app_2") = true /\
  last_is alnum (lit "web-app_2") = true.
Proof.
  exact (sanitize_fixed_point_iff lower_ascii lower_ascii_fixed
           (lit "web-app_2")).
Defined.

(** The prefix literal [proj] is the whole result exactly for the inputs
    whose lower-cased form holds no letter and no digit of [[a-z0-9]]
    (blank, symbols only, underscores and hyphens only); every other
    input keeps its cleaned form, which still holds a letter or digit. *)
Theorem sanitize_proj_iff_no_alnum (lower : str -> str) (s : str) :
  (existsb alnum (lower s) = false ->
   sanitize_for_docker lower s = proj) /\
  (existsb alnum (lower s) = true ->
   sanitize_for_docker lower s = cleaned lower s /\
   existsb alnum (sanitize_for_docker lower s) = true).
Proof.
  rewrite sanitize_cases; split; intros Ha.
  - apply cleaned_empty_iff in Ha; now rewrite Ha.
  - assert (Hne : cleaned lower s <> []).
    { intros E; apply cleaned_empty_iff in E; congruence. }
    apply is_empty_false in Hne; rewrite Hne.
    split; [reflexivity | now rewrite existsb_alnum_cleaned].
Qed.

(** The sanitizer never lengthens a name beyond its lower-cased form,
    except to the four code points of [proj]. *)
Theorem sanitize_length_bound (lower : str -> str) (s : str) :
  (List.length (sanitize_for_docker lower s)
   <= Nat.max 4 (List.length (lower s)))%nat.
Proof.
  rewrite sanitize_cases.
  destruct (is_empty (cleaned lower s));
    [change (List.length proj) with 4%nat; lia|].
  unfold cleaned.
  pose proof (length_strip_by edge (sub_unsafe (sub_ws (lower s)))).
  pose proof (length_sub_unsafe (sub_ws (lower s))).
  pose proof (proj1 (length_sub_ws (lower s))).
  lia.
Qed.

(** *** The name prompt *)

Lemma name_attempt_cases (lower : str -> str) (dir_exists : str -> bool)
  (raw : str) :
  (refused lower dir_exists raw /\ name_attempt lower dir_exists raw = []) \/
  (strip raw <> [] /\
   dir_exists (sanitize_for_docker lower (strip raw)) = false /\
   name_attempt lower dir_exists raw
     = sanitize_for_docker lower (strip raw)).
Proof.
  unfold name_attempt, refused.
  destruct (strip raw) as [|c t] eqn:Es; [left; split; auto|].
  cbn [is_empty].
  destruct (dir_exists (sanitize_for_docker lower (c :: t))) eqn:Ed.
  - left; split; auto.
  - right; repeat split; auto; discriminate.
Qed.

(** The name that the prompt lets through is the sanitized form of the
    first answer that is neither blank nor taken: it does not exist under
    the parent directory, it is a non-empty string over [[a-z0-9_-]], and
    every answer before it was refused. *)
Theorem name_loop_accepts_first_free_name
  (lower : str -> str) (dir_exists : str -> bool)
  (answers : list str) (name : str) (rest : list str) :
  name_loop lower dir_exists answers = Some (name, rest) ->
  exists (skipped : list str) (raw : str),
    answers = skipped ++ raw :: rest /\
    Forall (refused lower dir_exists) skipped /\
    strip raw <> [] /\
    name = sanitize_for_docker lower (strip raw) /\
    dir_exists name = false /\
    all_safe name = true.
Proof.
  induction answers as [|a answers IH]; [discriminate|].
  cbn [name_loop].
  destruct (name_attempt_cases lower dir_exists a) as [[Hr E]|(Hne & Hd & E)];
    rewrite E.
  - cbn [is_empty]; intros H.
    destruct (IH H) as (skipped & raw & -> & Hs & Hraw).
    exists (a :: skipped), raw; split; [reflexivity|].
    split; [now constructor | exact Hraw].
  - pose proof (sanitize_nonempty lower (strip a)) as Hn.
    apply is_empty_false in Hn; rewrite Hn.
    intros [= <- <-].
    exists [], a; repeat split; auto using sanitize_all_safe.
Qed.

(** The scenario of the specification: [web_app_logs] exists. *)
Definition only_web_app_logs (name : str) : bool :=
  str_eqb name (lit "web_app_logs").

Lemma name_loop_accepts_first_free_name_witness :
  exists (skipped : list str) (raw : str),
    [lit "  "; lit "Web App Logs!"; lit " Web App 2 "; lit "later"]
      = skipped ++ raw :: [lit "later"] /\
    Forall (refused lower_ascii only_web_app_logs) skipped /\
    strip raw <> [] /\
    lit "web_app_2" = sanitize_for_docker lower_ascii (strip raw) /\
    only_web_app_logs (lit "web_app_2") = false /\
    all_safe (lit "web_app_2") = true.
Proof.
  apply (name_loop_accepts_first_free_name lower_ascii only_web_app_logs
           [lit "  "; lit "Web App Logs!"; lit " Web App 2 "; lit "later"]
           (lit "web_app_2") [lit "later"]).
  reflexivity.
Defined.

End Names.

(* ================================================================== *)
(** ** More on the host and port prompts: what the loops let through
       (setup.py, lines 217-242) *)

Module PromptLoops.

Import Prompts.

(** The string that an answer puts to the test, given the saved
    default. *)
Definition candidate (default raw : str) : str := py_or (strip raw) default.

(** The test of the port loop as a boolean. *)
Definition port_ok (unicode_decimal : N -> option N)
  (max_str_digits : option N) (s : str) : bool :=
  match py_int unicode_decimal max_str_digits s with
  | Some n => ((1 <=? n) && (n <=? 65535))%Z
  | None => false
  end.

Definition blank (raw : str) : Prop := strip raw = [].

(** *** Lemmas *)

Lemma port_ok_in_range (unicode_decimal : N -> option N)
  (max_str_digits : option N) (s : str) :
  port_ok unicode_decimal max_str_digits s = true <->
  port_in_range unicode_decimal max_str_digits s.
Proof.
  unfold port_ok, port_in_range.
  destruct (py_int unicode_decimal max_str_digits s) as [n|].
  - rewrite andb_true_iff, !Z.leb_le; split.
    + intros H; exists n; split; [reflexivity | lia].
    + intros (m & [= <-] & H); lia.
  - split; [discriminate | intros (m & H & _); discriminate].
Qed.

Lemma port_attempt_ok (unicode_decimal : N -> option N)
  (max_str_digits : option N) (last_port raw : str) :
  fst (port_attempt unicode_decimal max_str_digits last_port raw) =
  if port_ok unicode_decimal max_str_digits (candidate last_port raw)
  then candidate last_port raw else [].
Proof.
  destruct (port_ok unicode_decimal max_str_digits (candidate last_port raw))
    eqn:E.
  - apply port_ok_in_range in E.
    now rewrite (port_attempt_accepts _ _ _ _ E).
  - apply port_attempt_rejects; intros H.
    apply port_ok_in_range in H; unfold candidate in E; congruence.
Qed.

Lemma port_ok_nonempty (unicode_decimal : N -> option N)
  (max_str_digits : option N) (s : str) :
  port_ok unicode_decimal max_str_digits s = true -> is_empty s = false.
Proof.
  intros H; apply port_ok_in_range in H as (n & Hn & _).
  apply is_empty_false; eapply py_int_nonempty; exact Hn.
Qed.

Lemma candidate_blank (default raw : str) :
  blank raw -> candidate default raw = default.
Proof. unfold blank, candidate; now intros ->. Qed.

(** *** What the loops let through *)

(** The host that the prompt lets through is never empty and holds
    neither a blank nor a slash; it is the stripped answer, or the saved
    default after a blank answer, of the first answer that passes, and
    every answer before it failed the test. *)
Theorem host_loop_accepts_first_valid
  (last_ip : str) (answers : list str) (host : str) (rest : list str) :
  host_loop last_ip answers = Some (host, rest) ->
  host <> [] /\ ~ In space host /\ ~ In slash host /\
  exists (skipped : list str) (raw : str),
    answers = skipped ++ raw :: rest /\
    host = candidate last_ip raw /\
    Forall (fun a => host_ok (candidate last_ip a) = false) skipped.
Proof.
  induction answers as [|a answers IH]; [discriminate|].
  cbn [host_loop]; rewrite host_attempt_ok; fold (candidate last_ip a).
  destruct (host_ok (candidate last_ip a)) eqn:E.
  - rewrite (host_ok_nonempty _ E); intros [= <- <-].
    pose proof E as E'; unfold host_ok in E'.
    apply andb_true_iff in E' as [E' Hslash].
    apply andb_true_iff in E' as [Hne Hspace].
    apply negb_true_iff in Hne, Hspace, Hslash.
    assert (Hin : forall c, existsb (N.eqb c) (candidate last_ip a) = false ->
                            ~ In c (candidate last_ip a)).
    { intros c Hc Hi.
      assert (X : existsb (N.eqb c) (candidate last_ip a) = true)
        by (apply existsb_exists; exists c; split;
            [exact Hi | apply N.eqb_refl]).
      congruence. }
    split; [now apply is_empty_false|].
    split; [now apply Hin|].
    split; [now apply Hin|].
    exists [], a; repeat split; constructor.
  - cbn [is_empty]; intros H.
    destruct (IH H) as (Hne & Hsp & Hsl & skipped & raw & -> & Hh & Hs).
    repeat split; auto.
    exists (a :: skipped), raw; repeat split; auto.
Qed.

Lemma host_loop_accepts_first_valid_witness :
  lit "10.0.0.5" <> [] /\ ~ In space (lit "10.0.0.5") /\
  ~ In slash (lit "10.0.0.5") /\
  exists (skipped : list str) (raw : str),
    [lit "my host"; lit "http://x"; lit " 10.0.0.5 "; lit "9997"]
      = skipped ++ raw :: [lit "9997"] /\
    lit "10.0.0.5" = candidate [] raw /\
    Forall (fun a => host_ok (candidate [] a) = false) skipped.
Proof.
  apply (host_loop_accepts_first_valid []
           [lit "my host"; lit "http://x"; lit " 10.0.0.5 "; lit "9997"]
           (lit "10.0.0.5") [lit "9997"]).
  reflexivity.
Defined.

(** The port that the prompt lets through parses, with [int], to an
    integer of 1-65535; it is the examined string of the first answer
    that passes, and every answer before it failed the test. *)
Theorem port_loop_accepts_first_valid
  (unicode_decimal : N -> option N) (max_str_digits : option N)
  (last_port : str) (answers : list str) (port : str) (rest : list str) :
  port_loop unicode_decimal max_str_digits last_port answers
    = Some (port, rest) ->
  port_in_range unicode_decimal max_str_digits port /\
  exists (skipped : list str) (raw : str),
    answers = skipped ++ raw :: rest /\
    port = candidate last_port raw /\
    Forall (fun a => ~ port_in_range unicode_decimal max_str_digits
                        (candidate last_port a)) skipped.
Proof.
  induction answers as [|a answers IH]; [discriminate|].
  cbn [port_loop]; rewrite port_attempt_ok.
  destruct (port_ok unicode_decimal max_str_digits (candidate last_port a))
    eqn:E.
  - rewrite (port_ok_nonempty _ _ _ E); intros [= <- <-].
    split; [now apply port_ok_in_range|].
    exists [], a; repeat split; constructor.
  - cbn [is_empty]; intros H.
    destruct (IH H) as (Hp & skipped & raw & -> & Hh & Hs).
    split; [exact Hp|].
    exists (a :: skipped), raw; repeat split; auto.
    constructor; [|exact Hs].
    intros Hr; apply port_ok_in_range in Hr; congruence.
Qed.

Lemma port_loop_accepts_first_valid_witness :
  port_in_range ascii_digits_only default_digit_limit (lit "8089") /\
  exists (skipped : list str) (raw : str),
    [lit "99999"; lit "abc"; lit " 8089 "; lit "more"]
      = skipped ++ raw :: [lit "more"] /\
    lit "8089" = candidate (lit "9997") raw /\
    Forall (fun a => ~ port_in_range ascii_digits_only default_digit_limit
                        (candidate (lit "9997") a)) skipped.
Proof.
  apply (port_loop_accepts_first_valid ascii_digits_only default_digit_limit
           (lit "9997") [lit "99999"; lit "abc"; lit " 8089 "; lit "more"]
           (lit "8089") [lit "more"]).
  reflexivity.
Defined.

(** Pressing Enter: on blank answers the saved default alone decides.  A
    default that passes the test is taken at the first blank answer; one
    that fails it (none saved, or one with a blank or a slash) is never
    taken, however often Enter is pressed. *)
Theorem host_loop_on_blank_answers (last_ip : str) (answers : list str) :
  Forall blank answers ->
  host_loop last_ip answers =
  match answers with
  | [] => None
  | _ :: rest => if host_ok last_ip then Some (last_ip, rest) else None
  end.
Proof.
  intros Hb; induction Hb as [|a answers Ha Hb IH]; [reflexivity|].
  cbn [host_loop]; rewrite host_attempt_ok.
  fold (candidate last_ip a); rewrite (candidate_blank last_ip a Ha).
  destruct (host_ok last_ip) eqn:E.
  - now rewrite (host_ok_nonempty _ E).
  - cbn [is_empty]; rewrite IH; now destruct answers.
Qed.

Lemma host_loop_on_blank_answers_witness :
  host_loop (lit "bad host") [lit " "; []; lit "   "] =
  if host_ok (lit "bad host")
  then Some (lit "bad host", [[]; lit "   "]) else None.
Proof.
  apply (host_loop_on_blank_answers (lit "bad host") [lit " "; []; lit "   "]).
  repeat constructor.
Defined.

(** The same for the port: a saved port that [int] does not read as an
    integer of 1-65535 is never taken on a blank answer. *)
Theorem port_loop_on_blank_answers
  (unicode_decimal : N -> option N) (max_str_digits : option N)
  (last_port : str) (answers : list str) :
  Forall blank answers ->
  port_loop unicode_decimal max_str_digits last_port answers =
  match answers with
  | [] => None
  | _ :: rest =>
      if port_ok unicode_decimal max_str_digits last_port
      then Some (last_port, rest) else None
  end.
Proof.
  intros Hb; induction Hb as [|a answers Ha Hb IH]; [reflexivity|].
  cbn [port_loop]; rewrite port_attempt_ok.
  rewrite (candidate_blank last_port a Ha).
  destruct (port_ok unicode_decimal max_str_digits last_port) eqn:E.
  - now rewrite (port_ok_nonempty _ _ _ E).
  - cbn [is_empty]; rewrite IH; now destruct answers.
Qed.

Lemma port_loop_on_blank_answers_witness :
  port_loop ascii_digits_only default_digit_limit (lit "9997") [lit " "; []] =
  if port_ok ascii_digits_only default_digit_limit (lit "9997")
  then Some (lit "9997", [[]]) else None.
Proof.
  apply (port_loop_on_blank_answers ascii_digits_only default_digit_limit
           (lit "9997") [lit " "; []]).
  repeat constructor.
Defined.

End PromptLoops.

(* ================================================================== *)
(** ** More on [run_command]: its outcome and what it prints on stdout
       (setup.py, lines 79-115) *)

Module ProcessFacts.

Import Process.

(** The lines that go to stdout; the others go to stderr. *)
Definition on_stdout (e : printed) : bool :=
  match e with
  | RunningCommand _ _ | Output _ => true
  | _ => false
  end.

(** The process was started, ended, and its exit status is zero. *)
Definition succeeded (p : spawned) : bool :=
  match p with
  | Ran result => (returncode result =? 0)%Z
  | _ => false
  end.

(** *** Lemmas *)

Lemma output_in_banner (cmd_str : str) (cwd : option str)
  (b : bool) (text : str) (l : list printed) :
  In (Output text) ((if b then [] else [RunningCommand cmd_str cwd]) ++ l)
  <-> In (Output text) l.
Proof.
  destruct b; simpl; [tauto|].
  split; [intros [H|H]; [discriminate | exact H] | now right].
Qed.

Lemma run_command_outcome_cases (lower : str -> str)
  (command_list : list str) (cwd : option str)
  (check suppress_output : bool) (p : spawned) :
  snd (run_command lower command_list cwd check suppress_output p) =
  if succeeded p then Returns true
  else match p with
       | Ran _ => if check then Exits 1 else Returns false
       | _ => Exits 1
       end.
Proof.
  unfold run_command, succeeded.
  destruct p as [result| |]; [|reflexivity|reflexivity].
  destruct (returncode result =? 0)%Z, check; reflexivity.
Qed.

(** *** Outcome *)


(** *** Standard output *)



End ProcessFacts.

(* ================================================================== *)
(** ** [check_prerequisites] (setup.py, lines 32-63) *)

Module Prerequisites.

Import Process ProcessFacts.

(** What the function shows, in order. *)
Inductive line :=
| Banner                 (* "--- Checking Prerequisites ---" *)
| PythonTooOld           (* "Error: Python 3.7 or higher is required." *)
| DockerNotFound         (* "Error: 'docker' command not found in PATH." *)
| CheckingDaemon         (* "Checking Docker daemon status..." *)
| DaemonUnresponsive     (* "Warning: Docker daemon unresponsive. ..." *)
| PressEnter             (* the prompt of [input] *)
| DaemonStillDown        (* "Error: Docker daemon still not responding." *)
| DaemonResponded        (* "Docker daemon responded." *)
| DaemonRunning          (* "Docker daemon is running." *)
| ComposeFailed          (* "Error: 'docker compose' (V2) command failed." *)
| ComposeAvailable       (* "Docker Compose V2 is available." *)
| ResolveIssues          (* "Please resolve prerequisite issues ..." *)
| Checked                (* "Prerequisites checked." *)
| FromCommand (e : printed).

(** The machine the script runs on.  [docker_on_path] is the answer of
    [shutil.which("docker")], which the function asks twice; the three
    [spawned] fields are what the successive commands lead to. *)
Record machine := {
  python_ok : bool;             (* [sys.version_info >= (3, 7)] *)
  docker_on_path : bool;
  docker_info_first : spawned;
  docker_info_second : spawned;
  compose_version : spawned
}.

(** The function returns or leaves through [sys.exit]. *)
Inductive ending :=
| Done
| Exit (status : Z).

Definition docker_info : list str := Eval cbv in [lit "docker"; lit "info"].
Definition docker_compose_version : list str := Eval cbv in
  [lit "docker"; lit "compose"; lit "version"].

(** A call [run_command(cmd, suppress_output=True, check=False)] inside
    the function: what it prints, and its boolean or the exit status. *)
Definition call (lower : str -> str) (cmd : list str) (p : spawned)
  : list line * outcome :=
  let '(events, result) := run_command lower cmd None false true p in
  (List.map FromCommand events, result).

Definition check_prerequisites (lower : str -> str) (m : machine)
  : list line * ending :=
  let start := [Banner] ++ (if python_ok m then [] else [PythonTooOld]) in
  let valid := python_ok m in
  (* the daemon *)
  let daemon : list line * (bool + Z) :=
    if negb (docker_on_path m) then ([DockerNotFound], inl false)
    else
      match call lower docker_info (docker_info_first m) with
      | (l1, Exits status) => (CheckingDaemon :: l1, inr status)
      | (l1, Returns true) =>
          (CheckingDaemon :: l1 ++ [DaemonRunning], inl valid)
      | (l1, Returns false) =>
          match call lower docker_info (docker_info_second m) with
          | (l2, Exits status) =>
              (CheckingDaemon :: l1 ++ [DaemonUnresponsive; PressEnter] ++ l2,
               inr status)
          | (l2, Returns true) =>
              (CheckingDaemon :: l1 ++ [DaemonUnresponsive; PressEnter] ++ l2
                 ++ [DaemonResponded], inl valid)
          | (l2, Returns false) =>
              (CheckingDaemon :: l1 ++ [DaemonUnresponsive; PressEnter] ++ l2
                 ++ [DaemonStillDown], inl false)
          end
      end in
  match daemon with
  | (shown, inr status) => (start ++ shown, Exit status)
  | (shown, inl valid) =>
      (* compose *)
      let compose : list line * (bool + Z) :=
        if docker_on_path m then
          match call lower docker_compose_version (compose_version m) with
          | (l3, Exits status) => (l3, inr status)
          | (l3, Returns true) => (l3 ++ [ComposeAvailable], inl valid)
          | (l3, Returns false) => (l3 ++ [ComposeFailed], inl false)
          end
        else ([ComposeAvailable], inl valid) in
      match compose with
      | (shown', inr status) => (start ++ shown ++ shown', Exit status)
      | (shown', inl valid) =>
          if valid
          then (start ++ shown ++ shown' ++ [Checked], Done)
          else (start ++ shown ++ shown' ++ [ResolveIssues], Exit 1)
      end
  end.

(** The process ended, whatever its status. *)
Definition ran (p : spawned) : bool :=
  match p with Ran _ => true | _ => false end.

(** The checks that let the wizard start. *)
Definition all_met (m : machine) : bool :=
  python_ok m && docker_on_path m
  && (succeeded (docker_info_first m)
      || (ran (docker_info_first m) && succeeded (docker_info_second m)))
  && succeeded (compose_version m).

(** How many times the operator is asked to press Enter. *)
Definition count_occ_prompt (shown : list line) : nat :=
  List.length
    (filter (fun x => match x with PressEnter => true | _ => false end) shown).

(** *** Lemmas *)

Lemma call_outcome (lower : str -> str) (cmd : list str) (p : spawned) :
  snd (call lower cmd p) =
  if succeeded p then Returns true
  else if ran p then Returns false else Exits 1.
Proof.
  unfold call.
  pose proof (run_command_outcome_cases lower cmd None false true p) as H.
  destruct (run_command lower cmd None false true p) as [events result].
  simpl in *; rewrite H.
  destruct p as [r| |]; simpl; [destruct (returncode r =? 0)%Z|..];
    reflexivity.
Qed.

Lemma call_no_prompt (lower : str -> str) (cmd : list str) (p : spawned) :
  ~ In PressEnter (fst (call lower cmd p)).
Proof.
  unfold call.
  destruct (run_command lower cmd None false true p) as [events result].
  simpl; rewrite in_map_iff; intros (e & H & _); discriminate.
Qed.

(** Replaces every call by the lines it shows and its outcome. *)
Ltac split_calls lower :=
  repeat match goal with
  | |- context [call lower ?cmd ?p] =>
      let l := fresh "l" in
      let r := fresh "r" in
      let E := fresh "E" in
      let Hn := fresh "Hn" in
      pose proof (call_outcome lower cmd p) as E;
      pose proof (call_no_prompt lower cmd p) as Hn;
      destruct (call lower cmd p) as [l r]; cbn [fst snd] in E, Hn; subst r
  end.

(** *** Properties *)

(** The function returns exactly when every check is met: a recent
    enough Python, [docker] on the path, a daemon that answers
    [docker info] at the first or at the second try, and a working
    [docker compose version].  In every other case the program ends with
    exit status 1. *)
Theorem check_prerequisites_ending (lower : str -> str) (m : machine) :
  snd (check_prerequisites lower m) = if all_met m then Done else Exit 1.
Proof.
  unfold check_prerequisites, all_met.
  destruct m as [py docker info1 info2 compose]; cbn [python_ok
    docker_on_path docker_info_first docker_info_second compose_version].
  destruct docker; cbn [negb andb]; [|destruct py; reflexivity].
  split_calls lower.
  destruct (succeeded info1), (ran info1), (succeeded info2), (ran info2),
    (succeeded compose), (ran compose), py; reflexivity.
Qed.

(** The operator is asked to press Enter exactly when [docker] is on
    the path and the first [docker info] ran and failed; the question is
    asked at most once. *)
Theorem check_prerequisites_prompt (lower : str -> str) (m : machine) :
  count_occ_prompt (fst (check_prerequisites lower m)) =
  if docker_on_path m && ran (docker_info_first m)
     && negb (succeeded (docker_info_first m))
  then 1%nat else 0%nat.
Proof.
  unfold check_prerequisites.
  destruct m as [py docker info1 info2 compose]; cbn [python_ok
    docker_on_path docker_info_first docker_info_second compose_version].
  destruct docker; cbn [negb andb]; [|destruct py; reflexivity].
  split_calls lower.
  assert (H0 : forall shown, ~ In PressEnter shown ->
            filter (fun x => match x with PressEnter => true | _ => false end)
              shown = []).
  { induction shown as [|x shown IH]; [reflexivity|]; intros Hx; simpl in *.
    destruct x; try (apply IH; tauto). tauto. }
  unfold count_occ_prompt.
  destruct (succeeded info1), (ran info1), (succeeded info2), (ran info2),
    (succeeded compose), (ran compose), py;
    cbn [fst andb negb app];
    repeat (rewrite filter_app || cbn [filter app]);
    repeat match goal with
    | H : ~ In PressEnter ?shown |- _ => rewrite ?(H0 shown H); clear H
    end;
    reflexivity.
Qed.

(** When [docker] is not on the path no command is run and nothing is
    asked: the function reports the missing command, still prints that
    Docker Compose V2 is available, and ends the program with status
    1. *)
Theorem check_prerequisites_without_docker
  (lower : str -> str) (m : machine) :
  docker_on_path m = false ->
  check_prerequisites lower m =
  ([Banner] ++ (if python_ok m then [] else [PythonTooOld])
     ++ [DockerNotFound; ComposeAvailable; ResolveIssues],
   Exit 1).
Proof.
  intros H; unfold check_prerequisites; rewrite H; cbn [negb].
  destruct (python_ok m); reflexivity.
Qed.

Lemma check_prerequisites_without_docker_witness :
  check_prerequisites lower_ascii
    {| python_ok := true; docker_on_path := false;
       docker_info_first := NotFound; docker_info_second := NotFound;
       compose_version := NotFound |}
  = ([Banner; DockerNotFound; ComposeAvailable; ResolveIssues], Exit 1).
Proof.
  apply (check_prerequisites_without_docker lower_ascii
           {| python_ok := true; docker_on_path := false;
              docker_info_first := NotFound; docker_info_second := NotFound;
              compose_version := NotFound |}).
  reflexivity.
Defined.

End Prerequisites.

(* ================================================================== *)
(** ** [get_local_hostname] (setup.py, lines 117-125) *)

Module Hostname.

Definition dot : N := 46.

Definition unknown_host : str := Eval cbv in lit "unknown_host".

(** [hostname.split('.')[0]]: the text before the first dot. *)
Fixpoint first_label (hostname : str) : str :=
  match hostname with
  | [] => []
  | c :: t => if c =? dot then [] else c :: first_label t
  end.

(** [os.getenv(a) or os.getenv(b)]: an unset variable is [None], and an
    empty value counts as unset for [or]. *)
Definition env_or (a b : option str) : option str :=
  match a with
  | Some x => if is_empty x then b else a
  | None => b
  end.

(** [gethostname] is what [socket.gethostname()] returns, [None] when it
    raises; the other two are the environment variables. *)
Definition get_local_hostname
  (gethostname COMPUTERNAME HOSTNAME : option str) : str :=
  let from_environment :=
    match env_or COMPUTERNAME HOSTNAME with
    | Some hostname => if is_empty hostname then unknown_host else hostname
    | None => unknown_host
    end in
  match gethostname with
  | Some hostname =>
      if negb (is_empty hostname) && (1 <? List.length hostname)%nat
      then first_label hostname
      else from_environment
  | None => from_environment
  end.

(** *** Lemmas *)

Lemma first_label_no_dot (h : str) : ~ In dot (first_label h).
Proof.
  induction h as [|c t IH]; simpl; [tauto|].
  destruct (N.eqb_spec c dot) as [->|Hne]; simpl; [tauto|].
  intros [E|H]; [now apply Hne | now apply IH].
Qed.

Lemma first_label_prefix (h : str) :
  exists rest, h = first_label h ++ rest /\ head_is (N.eqb dot) rest
                                            = negb (is_empty rest).
Proof.
  induction h as [|c t (rest & E & Hr)]; simpl.
  - exists []; split; reflexivity.
  - destruct (N.eqb_spec c dot) as [->|Hne].
    + exists (dot :: t); split; reflexivity.
    + exists rest; split; [simpl; now rewrite <- E | exact Hr].
Qed.

Lemma first_label_empty (h : str) :
  first_label h = [] <-> h = [] \/ head_is (N.eqb dot) h = true.
Proof.
  destruct h as [|c t]; [simpl; tauto|].
  cbn [first_label head_is].
  destruct (N.eqb_spec c dot) as [->|Hne].
  - split; [intros _; right; apply N.eqb_refl | reflexivity].
  - split; [discriminate|].
    intros [H|H]; [discriminate|].
    apply N.eqb_eq in H; now elim Hne.
Qed.

Lemma from_environment_nonempty (a b : option str) :
  match env_or a b with
  | Some hostname => if is_empty hostname then unknown_host else hostname
  | None => unknown_host
  end <> [].
Proof.
  destruct (env_or a b) as [[|c t]|]; simpl; discriminate.
Qed.

(** *** Properties *)

(** An environment variable that [or] passes over: unset or empty. *)
Definition unset (value : option str) : Prop :=
  value = None \/ value = Some [].

(** A socket host name of two characters or more is cut at its first
    dot: the result holds no dot and is a prefix of the name that ends
    where a dot or the end of the name follows.  When the socket call
    fails or gives a name of fewer than two characters, the result is
    [COMPUTERNAME] if it is set and not empty, else [HOSTNAME] if it is
    set and not empty, else [unknown_host].  The result is empty in one
    case only, a socket host name of two characters or more that begins
    with a dot. *)
Theorem get_local_hostname_shape
  (gethostname COMPUTERNAME HOSTNAME : option str) :
  let result := get_local_hostname gethostname COMPUTERNAME HOSTNAME in
  let falls_back :=
    gethostname = None \/
    exists h, gethostname = Some h /\ (List.length h <= 1)%nat in
  (forall h, gethostname = Some h -> (2 <= List.length h)%nat ->
     result = first_label h /\ ~ In dot result /\
     exists rest, h = result ++ rest /\
                  head_is (N.eqb dot) rest = negb (is_empty rest)) /\
  (falls_back ->
   (forall c, COMPUTERNAME = Some c -> c <> [] -> result = c) /\
   (forall h, unset COMPUTERNAME -> HOSTNAME = Some h -> h <> [] ->
      result = h) /\
   (unset COMPUTERNAME -> unset HOSTNAME -> result = unknown_host)) /\
  (result = [] <->
   exists t, gethostname = Some (dot :: t) /\ t <> []).
Proof.
  intros result falls_back; unfold result, get_local_hostname.
  split; [|split].
  - intros h -> Hlen.
    assert (E : negb (is_empty h) && (1 <? List.length h)%nat = true).
    { apply andb_true_iff; split.
      - destruct h; [simpl in Hlen; lia | reflexivity].
      - apply Nat.ltb_lt; lia. }
    rewrite E; split; [reflexivity|].
    split; [apply first_label_no_dot | apply first_label_prefix].
  - intros Hfb.
    assert (E : match gethostname with
                | Some hostname =>
                    if negb (is_empty hostname)
                       && (1 <? List.length hostname)%nat
                    then first_label hostname
                    else match env_or COMPUTERNAME HOSTNAME with
                         | Some hostname =>
                             if is_empty hostname then unknown_host
                             else hostname
                         | None => unknown_host
                         end
                | None => match env_or COMPUTERNAME HOSTNAME with
                          | Some hostname =>
                              if is_empty hostname then unknown_host
                              else hostname
                          | None => unknown_host
                          end
                end
                = match env_or COMPUTERNAME HOSTNAME with
                  | Some hostname =>
                      if is_empty hostname then unknown_host else hostname
                  | None => unknown_host
                  end).
    { destruct Hfb as [->|(h & -> & Hlen)]; [reflexivity|].
      replace (1 <? List.length h)%nat with false
        by (symmetry; apply Nat.ltb_ge; lia).
      now rewrite andb_false_r. }
    rewrite E; clear E.
    split; [|split].
    + intros c -> Hc; destruct c; [contradiction | reflexivity].
    + intros h Hc -> Hh.
      destruct Hc as [->| ->]; (destruct h; [contradiction | reflexivity]).
    + intros [->| ->] [->| ->]; reflexivity.
  - pose proof (from_environment_nonempty COMPUTERNAME HOSTNAME) as Henv.
    destruct gethostname as [h|].
    + destruct (negb (is_empty h) && (1 <? List.length h)%nat) eqn:E.
      * apply andb_true_iff in E as [Hne Hlen].
        apply Nat.ltb_lt in Hlen.
        rewrite first_label_empty; split.
        -- intros [->|Hd]; [discriminate Hne|].
           destruct h as [|c t]; [discriminate|]; cbn [head_is] in Hd.
           apply N.eqb_eq in Hd; subst c.
           exists t; split; [reflexivity|].
           destruct t; [simpl in Hlen; lia | discriminate].
        -- intros (t & [= ->] & _); right; apply N.eqb_refl.
      * split; [intros H; contradiction|].
        intros (t & [= ->] & Ht).
        destruct t; [contradiction|].
        simpl in E; discriminate.
    + split; [intros H; contradiction | intros (t & H & _); discriminate].
Qed.

Example get_local_hostname_samples :
  get_local_hostname (Some (lit "build7.corp.example")) None None
    = lit "build7" /\
  get_local_hostname (Some (lit ".local")) (Some (lit "PC")) None = [] /\
  get_local_hostname (Some (lit "x")) (Some []) (Some (lit "node.lan"))
    = lit "node.lan" /\
  get_local_hostname None None (Some []) = lit "unknown_host".
Proof. repeat split; reflexivity. Qed.

End Hostname.

(* ================================================================== *)
(** ** The default log count of [main] (setup.py, lines 175-186) *)

Module LogCount.

Import Prompts.

Inductive count_warning :=
| NotPositive    (* "... is not positive. Using 200." *)
| NotAnInteger.  (* "... is not a valid integer. Using 200." *)

(** The value of [default_log_count_int] after the [try] block, and the
    warnings printed. *)
Definition validate_log_count (unicode_decimal : N -> option N)
  (max_str_digits : option N) (default_log_count_str : str)
  : Z * list count_warning :=
  match py_int unicode_decimal max_str_digits default_log_count_str with
  | Some default_log_count_int =>
      if (default_log_count_int <=? 0)%Z then (200%Z, [NotPositive])
      else (default_log_count_int, [])
  | None => (200%Z, [NotAnInteger])
  end.

(** The count that reaches the generated script: the value of the
    setting, without a warning, when [int] reads it as a positive
    integer; 200 with the warning "not positive" when [int] reads zero
    or a negative integer; 200 with the warning "not a valid integer"
    when [int] refuses it.  It is a positive integer in every case. *)
Theorem validate_log_count_positive
  (unicode_decimal : N -> option N) (max_str_digits : option N)
  (default_log_count_str : str) :
  let read := py_int unicode_decimal max_str_digits default_log_count_str in
  let result :=
    validate_log_count unicode_decimal max_str_digits default_log_count_str in
  (forall n : Z, read = Some n -> (0 < n)%Z -> result = (n, [])) /\
  (forall n : Z, read = Some n -> (n <= 0)%Z ->
     result = (200%Z, [NotPositive])) /\
  (read = None -> result = (200%Z, [NotAnInteger])) /\
  (0 < fst result)%Z /\
  (snd result = [] <-> exists n : Z, read = Some n /\ (0 < n)%Z).
Proof.
  intros read result; unfold result, validate_log_count; fold read.
  destruct read as [n|].
  - destruct (Z.leb_spec n 0) as [Hle|Hlt]; cbn [fst snd].
    + split; [intros m [= <-] Hm; lia|].
      split; [reflexivity|].
      split; [discriminate|].
      split; [lia|].
      split; [discriminate | intros (m & [= <-] & Hm); lia].
    + split; [intros m [= <-] _; reflexivity|].
      split; [intros m [= <-] Hm; lia|].
      split; [discriminate|].
      split; [lia|].
      split; [intros _; now exists n | reflexivity].
  - cbn [fst snd].
    split; [discriminate|]. split; [discriminate|].
    split; [reflexivity|]. split; [lia|].
    split; [discriminate | intros (m & Hm & _); discriminate].
Qed.

Example validate_log_count_scenarios :
  validate_log_count ascii_digits_only default_digit_limit (lit "-5")
    = (200%Z, [NotPositive]) /\
  validate_log_count ascii_digits_only default_digit_limit (lit "75")
    = (75%Z, []) /\
  validate_log_count ascii_digits_only default_digit_limit (lit "many")
    = (200%Z, [NotAnInteger]) /\
  validate_log_count ascii_digits_only default_digit_limit (lit "0")
    = (200%Z, [NotPositive]).
Proof. repeat split; reflexivity. Qed.

End LogCount.

(* ================================================================== *)
(** ** More on the update of the root [.gitignore]: what it keeps
       (setup.py, lines 449-464) *)

Module GitignoreFacts.

Import Gitignore IgnoreList.

(** *** Lemmas *)

Lemma ignore_entry_injective (n1 n2 : str) :
  ignore_entry n1 = ignore_entry n2 -> n1 = n2.
Proof.
  unfold ignore_entry; intros [= E]; now apply app_inv_tail in E.
Qed.

Lemma other_entry_added (n1 n2 : str) (entries : list str) :
  n1 <> n2 ->
  occurrences (ignore_entry n1)
    (entries ++ [comment_line n2; ignore_entry n2])
  = occurrences (ignore_entry n1) entries.
Proof.
  intros Hne; rewrite occurrences_app; unfold occurrences at 2.
  cbn [filter].
  change (str_eqb (ignore_entry n1) (comment_line n2)) with false.
  destruct (str_eqb_spec (ignore_entry n1) (ignore_entry n2)) as [E|_].
  - apply ignore_entry_injective in E; contradiction.
  - simpl; lia.
Qed.

Lemma update_keeps_flags (name : str) (gitignore : ignore_file) :
  Forall (fun c => Sanitizer.safe c = true) name ->
  readable (snd (update_gitignore true name gitignore)) = readable gitignore /\
  appendable (snd (update_gitignore true name gitignore))
    = appendable gitignore.
Proof.
  intros Hname; rewrite (update_gitignore_file name gitignore Hname).
  destruct (appends name gitignore); split; reflexivity.
Qed.

(** The lines of the file after one update. *)
Lemma lines_after_update (name : str) (gitignore : ignore_file)
  (entries : list str) :
  Forall (fun c => Sanitizer.safe c = true) name ->
  lines_of gitignore = Some entries ->
  lines_of (snd (update_gitignore true name gitignore))
  = Some (entries ++ if appends name gitignore
                     then [comment_line name; ignore_entry name] else []).
Proof.
  intros Hname Hl; rewrite (update_gitignore_file name gitignore Hname).
  destruct (appends name gitignore).
  - now apply lines_of_appended.
  - now rewrite app_nil_r.
Qed.

Lemma read_entries_of_lines (gitignore : ignore_file) (entries : list str) :
  readable gitignore = true ->
  lines_of gitignore = Some entries ->
  read_entries gitignore = Entries entries.
Proof.
  unfold read_entries, lines_of; intros ->.
  destruct (data gitignore) as [content|].
  - destruct (Prefs.utf8_decode content); [|discriminate].
    intros H; injection H as <-; reflexivity.
  - intros H; injection H as <-; reflexivity.
Qed.

Lemma other_entry_after_update (n1 n2 : str) (gitignore : ignore_file)
  (entries : list str) :
  Forall (fun c => Sanitizer.safe c = true) n2 -> n1 <> n2 ->
  lines_of gitignore = Some entries ->
  exists entries',
    lines_of (snd (update_gitignore true n2 gitignore)) = Some entries' /\
    occurrences (ignore_entry n1) entries'
    = occurrences (ignore_entry n1) entries.
Proof.
  intros Hn2 Hne Hl.
  eexists; split; [apply (lines_after_update n2 _ _ Hn2 Hl)|].
  destruct (appends n2 gitignore).
  - now apply other_entry_added.
  - now rewrite app_nil_r.
Qed.

(** *** Properties *)




End GitignoreFacts.

(* ================================================================== *)
(** ** The preferences in [main]: reading the saved defaults and
       recording the answers (setup.py, lines 160-163, 202, 227, 242
       and 250) *)

Module PrefsFlow.

Import Json Prefs.

Definition DEFAULT_SPLUNK_PORT : str := Eval cbv in lit "9997".

(** [setup_config.get(key, default)]; [None] stands for the
    [AttributeError] that a value other than a [dict] raises. *)
Definition config_get (key : str) (default : json) (setup_config : json)
  : option json :=
  match setup_config with
  | JObj members =>
      Some (match dict_get key members with
            | Some value => value
            | None => default
            end)
  | _ => None
  end.

(** Lines 161-163: [default_parent_dir], [last_ip] and [last_port]. *)
Definition saved_defaults (setup_config : json)
  : option (json * json * json) :=
  match config_get default_parent_directory (JStr []) setup_config with
  | None => None
  | Some default_parent_dir =>
      match config_get last_indexer_ip (JStr []) setup_config with
      | None => None
      | Some last_ip =>
          match config_get last_indexer_port (JStr DEFAULT_SPLUNK_PORT)
                  setup_config with
          | None => None
          | Some last_port => Some (default_parent_dir, last_ip, last_port)
          end
      end
  end.

(** The three assignments [setup_config[...] = ...] of the wizard, on
    the items of the loaded [dict]. *)
Definition record_answers (members : list (str * json))
  (parent_dir indexer_ip indexer_port : str) : list (str * json) :=
  let members := dict_set default_parent_directory (JStr parent_dir) members in
  let members := dict_set last_indexer_ip (JStr indexer_ip) members in
  dict_set last_indexer_port (JStr indexer_port) members.

(** *** Lemmas *)

Lemma dict_get_set_same (key : str) (value : json) (d : list (str * json)) :
  dict_get key (dict_set key value d) = Some value.
Proof.
  induction d as [|[k v] d IH]; simpl; [now rewrite str_eqb_refl|].
  destruct (str_eqb k key) eqn:E; simpl; rewrite E; [reflexivity | exact IH].
Qed.

Lemma dict_get_set_other (key other : str) (value : json)
  (d : list (str * json)) :
  other <> key ->
  dict_get other (dict_set key value d) = dict_get other d.
Proof.
  intros Hne; induction d as [|[k v] d IH]; simpl.
  - destruct (str_eqb_spec key other); [congruence | reflexivity].
  - destruct (str_eqb_spec k key) as [->|Hk]; simpl.
    + destruct (str_eqb_spec key other); [congruence | reflexivity].
    + destruct (str_eqb k other); [reflexivity | exact IH].
Qed.

Lemma dict_set_keys (key : str) (value : json) (d : list (str * json)) :
  List.map fst (dict_set key value d) =
  if existsb (str_eqb key) (List.map fst d)
  then List.map fst d else List.map fst d ++ [key].
Proof.
  induction d as [|[k v] d IH]; [reflexivity|].
  cbn [dict_set List.map fst existsb].
  destruct (str_eqb_spec k key) as [->|Hk].
  - now rewrite str_eqb_refl.
  - destruct (str_eqb_spec key k) as [E|_]; [congruence|].
    cbn [orb List.map fst]; rewrite IH.
    destruct (existsb (str_eqb key) (List.map fst d)); reflexivity.
Qed.

Lemma dict_set_NoDup (key : str) (value : json) (d : list (str * json)) :
  NoDup (List.map fst d) -> NoDup (List.map fst (dict_set key value d)).
Proof.
  intros Hnd; rewrite dict_set_keys.
  destruct (existsb (str_eqb key) (List.map fst d)) eqn:E; [exact Hnd|].
  apply NoDup_app; [exact Hnd | repeat constructor; simpl; tauto |].
  intros k Hk [Ek|Ek]; [subst k | contradiction].
  assert (X : existsb (str_eqb key) (List.map fst d) = true)
    by (apply existsb_exists; exists key; split;
        [exact Hk | apply str_eqb_refl]).
  congruence.
Qed.

Section WithRuntime.

(** The interpreter, as in [Prefs]. *)
Variable max_str_digits : option N.
Variable recursion_limit : nat.
Variable floatstr : str -> str.

Let load_setup_config := load_setup_config max_str_digits recursion_limit.
Let save_setup_config := save_setup_config max_str_digits floatstr.
Let dumps := dumps floatstr.

(** What [save_setup_config] writes for a [dict] of strings, and what
    [load_setup_config] makes of that file. *)
Lemma written_file_loads (os : platform) (items : list (str * str)) :
  (0 < recursion_limit)%nat ->
  NoDup (List.map fst items) ->
  Forall (fun kv => text_ok (fst kv) /\ text_ok (snd kv)) items ->
  save_setup_config os (of_strings items) Missing
    = Returned (Data (write_newlines os (dumps (of_strings items)))) [] /\
  load_setup_config (Data (write_newlines os (dumps (of_strings items))))
    = Returned (of_strings items) [].
Proof.
  intros Hdepth Hnd Hok.
  pose proof (dumps_of_strings_plain floatstr items Hok) as Hplain.
  fold dumps in Hplain.
  assert (Hw : Forall (fun b => b < 128)
                 (write_newlines os (dumps (of_strings items))))
    by now apply write_newlines_ascii.
  assert (Henc : utf8_encode (write_newlines os (dumps (of_strings items)))
                 = Some (write_newlines os (dumps (of_strings items)))).
  { assert (Hgen : forall bs, Forall (fun b => b < 128) bs ->
                              utf8_encode bs = Some bs).
    { induction 1 as [|c t Hc Ht IH]; [reflexivity|].
      cbn [utf8_encode]; rewrite IH; unfold utf8_encode_char.
      apply N.ltb_lt in Hc; rewrite Hc; reflexivity. }
    now apply Hgen. }
  split.
  - unfold save_setup_config, Prefs.save_setup_config.
    rewrite ints_within_limit_of_strings.
    fold dumps; now rewrite Henc.
  - unfold load_setup_config, Prefs.load_setup_config.
    rewrite (utf8_decode_ascii _ Hw), (read_back_newlines os _ Hplain).
    unfold dumps; now rewrite loads_dumps_of_strings.
Qed.

(** *** Properties *)

(** Recording the three answers: each of the three keys then holds the
    answer given; every other key of the loaded preferences keeps its
    value, whatever it is; and the keys stay distinct. *)
Theorem record_answers_lookup
  (members : list (str * json)) (parent_dir indexer_ip indexer_port : str) :
  let after := record_answers members parent_dir indexer_ip indexer_port in
  dict_get default_parent_directory after = Some (JStr parent_dir) /\
  dict_get last_indexer_ip after = Some (JStr indexer_ip) /\
  dict_get last_indexer_port after = Some (JStr indexer_port) /\
  (forall key,
     key <> default_parent_directory -> key <> last_indexer_ip ->
     key <> last_indexer_port ->
     dict_get key after = dict_get key members) /\
  (NoDup (List.map fst members) -> NoDup (List.map fst after)).
Proof.
  intros after; unfold after, record_answers.
  split; [|split; [|split; [|split]]].
  - rewrite !dict_get_set_other by discriminate.
    apply dict_get_set_same.
  - rewrite dict_get_set_other by discriminate.
    apply dict_get_set_same.
  - apply dict_get_set_same.
  - intros key H1 H2 H3.
    now rewrite !dict_get_set_other by assumption.
  - intros Hnd; now repeat apply dict_set_NoDup.
Qed.

(** From one run to the next: when there is no preference file, the
    wizard's three answers, saved at the end of the run, are what the
    next run reads back as its defaults, on either platform; for answers
    that are strings with no surrogate pair written as two code
    points, in an interpreter whose recursion limit lets the decoder
    enter the one object of the file. *)
Theorem answers_are_next_defaults
  (os : platform) (parent_dir indexer_ip indexer_port : str) :
  (0 < recursion_limit)%nat ->
  text_ok parent_dir -> text_ok indexer_ip -> text_ok indexer_port ->
  exists (loaded : list (str * json)) (file : bytes),
    load_setup_config Missing = Returned (JObj loaded) [] /\
    save_setup_config os
      (JObj (record_answers loaded parent_dir indexer_ip indexer_port))
      Missing
      = Returned (Data file) [] /\
    exists next : json,
      load_setup_config (Data file) = Returned next [] /\
      saved_defaults next
        = Some (JStr parent_dir, JStr indexer_ip, JStr indexer_port).
Proof.
  intros Hdepth Hp Hi Hq.
  set (items := [(default_parent_directory, parent_dir);
                 (last_indexer_ip, indexer_ip);
                 (last_indexer_port, indexer_port)]).
  assert (Hnd : NoDup (List.map fst items)).
  { unfold items; cbn [List.map fst].
    repeat (apply NoDup_cons;
            [cbn [In]; intros H;
             repeat (destruct H as [H|H]; [discriminate H|]); exact H|]).
    apply NoDup_nil. }
  assert (Hok : Forall (fun kv => text_ok (fst kv) /\ text_ok (snd kv)) items).
  { assert (Hkey : forall key, In key (List.map fst items) -> text_ok key).
    { intros key Hk; cbn [items List.map fst In] in Hk.
      destruct Hk as [<-|[<-|[<-|[]]]]; (split; [|reflexivity]);
        repeat (apply Forall_cons; [reflexivity|]); apply Forall_nil. }
    unfold items; repeat (apply Forall_cons || apply Forall_nil);
      cbn [fst snd]; (split; [apply Hkey; cbn; auto | assumption]). }
  destruct (written_file_loads os items Hdepth Hnd Hok) as [Hsave Hload].
  exists [], (write_newlines os (dumps (of_strings items))).
  split; [reflexivity|].
  split; [exact Hsave|].
  exists (of_strings items); split; [exact Hload | reflexivity].
Qed.

(** A preference file that holds valid JSON which is not an object (a
    list, a string, a number, [null]) is returned by the loader as it
    is, without a warning, and the first [setup_config.get] of [main]
    then fails with [AttributeError]; the decoder decodes it when no
    integer of it is over the digit limit and its containers are not
    nested beyond the recursion limit. *)
Theorem non_object_preferences_fail
  (content : bytes) (text : str) (value : json) :
  utf8_decode content = Some text ->
  loads max_str_digits recursion_limit
    (Gitignore.translate_newlines false text) = inl value ->
  (forall members, value <> JObj members) ->
  load_setup_config (Data content) = Returned value [] /\
  saved_defaults value = None.
Proof.
  intros Hd Hl Hno; split.
  - unfold load_setup_config, Prefs.load_setup_config; now rewrite Hd, Hl.
  - destruct value; try reflexivity. now elim (Hno members).
Qed.

End WithRuntime.

Lemma answers_are_next_defaults_witness :
  exists (loaded : list (str * json)) (file : bytes),
    load_default Missing = Returned (JObj loaded) [] /\
    save_default Windows
      (JObj (record_answers loaded (lit "D:\SplunkInstances")
               (lit "10.0.0.5") (lit "9997")))
      Missing
      = Returned (Data file) [] /\
    exists next : json,
      load_default (Data file) = Returned next [] /\
      saved_defaults next
        = Some (JStr (lit "D:\SplunkInstances"), JStr (lit "10.0.0.5"),
                JStr (lit "9997")).
Proof.
  assert (Hok : forall s, forallb (fun c => c <? 128) s = true -> text_ok s).
  { intros s Hs; split.
    - apply Forall_forall; intros c Hc.
      apply (proj1 (forallb_forall _ s) Hs), N.ltb_lt in Hc; lia.
    - induction s as [|c t IH]; [reflexivity|].
      cbn [forallb] in Hs; apply andb_true_iff in Hs as [Hc Ht].
      apply N.ltb_lt in Hc; cbn [no_surrogate_pair].
      rewrite (not_high c) by lia; now apply IH. }
  apply (answers_are_next_defaults Prompts.default_digit_limit
           default_recursion_room floatstr_of_repr Windows
           (lit "D:\SplunkInstances") (lit "10.0.0.5") (lit "9997")
           default_recursion_room_positive); apply Hok; reflexivity.
Defined.

Lemma non_object_preferences_fail_witness :
  load_default (Data (lit "[]")) = Returned (JArr []) [] /\
  saved_defaults (JArr []) = None.
Proof.
  apply (non_object_preferences_fail Prompts.default_digit_limit
           default_recursion_room (lit "[]") (lit "[]") (JArr []));
    [reflexivity | reflexivity | discriminate].
Defined.

End PrefsFlow.

(* ================================================================== *)
(** ** The rendering of [config/outputs.conf] and of the instance
       [.env] (setup.py, lines 269-276 and 337-344) *)

Module RenderMore.

Import Render.

Definition text_outputs : str := Eval cbv in
  lit "# outputs.conf - Instance: ".
Definition text_arrow : str := Eval cbv in lit " -> ".
Definition text_tcpout : str := Eval cbv in lit "tcpout".
Definition text_default_group : str := Eval cbv in
  lit "defaultGroup = default-autolb-group".
Definition text_group_stanza : str := Eval cbv in
  lit "tcpout:default-autolb-group".
Definition key_server : str := Eval cbv in lit "server".

(** The lines of the f-string of [outputs_conf_content]. *)
Definition outputs_conf_lines
  (project_name_sanitized indexer_ip indexer_port : str) : list str :=
  [ text_outputs ++ project_name_sanitized ++ text_arrow
      ++ indexer_ip ++ 58 :: indexer_port;
    91 :: text_tcpout ++ [93];
    text_default_group;
    91 :: text_group_stanza ++ [93];
    key_server ++ [32; 61; 32] ++ indexer_ip ++ 58 :: indexer_port ].

Definition outputs_conf_content
  (project_name_sanitized indexer_ip indexer_port : str) : str :=
  unlines (outputs_conf_lines project_name_sanitized indexer_ip indexer_port).

Definition text_env_header : str := Eval cbv in
  lit "# Instance-specific .env for Docker Compose (".
Definition text_env_sets : str := Eval cbv in
  lit "# Sets project name for isolated networks/volumes & runtime vars.".
Definition key_compose_project : str := Eval cbv in
  lit "COMPOSE_PROJECT_NAME".
Definition text_password : str := Eval cbv in lit "SPLUNK_PASSWORD=changeme".
Definition text_tz : str := Eval cbv in lit "# TZ=America/New_York".

(** The lines of the f-string of [instance_env_content];
    [instance_env_path] is the text of [instance_dir / '.env']. *)
Definition instance_env_lines
  (instance_env_path project_name_sanitized : str) : list str :=
  [ text_env_header ++ instance_env_path ++ [41];
    text_env_sets;
    key_compose_project ++ [61] ++ project_name_sanitized;
    text_password;
    text_tz ].

Definition instance_env_content
  (instance_env_path project_name_sanitized : str) : str :=
  unlines (instance_env_lines instance_env_path project_name_sanitized).

(** *** Lemmas *)

Definition no_space (s : str) : Prop := Forall (fun c => isspace c = false) s.

(** A key of a setting: no whitespace, no equals sign, and a first
    character that starts neither a comment nor a stanza. *)
Definition plain_key (k : str) : Prop :=
  k <> [] /\
  Forall (fun c => isspace c = false /\ c <> 61) k /\
  head_is (fun c => (c =? 35) || (c =? 91)) k = false.

Lemma split_at_equals_app (a b : str) :
  Forall (fun c => c <> 61) a ->
  split_at_equals (a ++ 61 :: b) = Some (a, b).
Proof.
  induction 1 as [|c t Hc Ht IH]; [reflexivity|].
  simpl; destruct (N.eqb_spec c 61); [contradiction|].
  now rewrite IH.
Qed.

Lemma no_space_app (a b : str) : no_space a -> no_space b -> no_space (a ++ b).
Proof. intros Ha Hb; apply Forall_app; now split. Qed.

(** A line [key = value] or [key=value] is read as that setting. *)
Lemma classify_assignment (k v : str) (spaced : bool) :
  plain_key k -> v <> [] -> no_space v ->
  classify (k ++ (if spaced then [32; 61; 32] else [61]) ++ v)
  = Setting k v.
Proof.
  intros (Hne & Hk & Hhead) Hv Hsv.
  assert (Hks : no_space k)
    by (eapply Forall_impl; [|exact Hk]; simpl; tauto).
  assert (Hkeq : Forall (fun c => c <> 61) k)
    by (eapply Forall_impl; [|exact Hk]; simpl; tauto).
  set (line := k ++ (if spaced then [32; 61; 32] else [61]) ++ v).
  assert (Hline : strip line = line).
  { apply Gitignore.strip_fixed.
    - unfold line; destruct k as [|c t]; [contradiction|].
      simpl; now inversion Hks.
    - unfold line, last_is; rewrite !rev_app_distr.
      pose proof (last_is_no_space v Hsv) as Hl; unfold last_is in Hl.
      destruct (rev v) as [|d r] eqn:E; [|exact Hl].
      apply (f_equal (@rev N)) in E; rewrite rev_involutive in E.
      contradiction. }
  unfold classify; rewrite Hline.
  destruct k as [|c t] eqn:Ek; [contradiction|].
  unfold line; cbn [app]; cbn [head_is] in Hhead.
  apply orb_false_iff in Hhead as [H35 H91]; rewrite H35, H91.
  rewrite <- Ek in *.
  change (c :: t ++ (if spaced then [32; 61; 32] else [61]) ++ v)
    with ((c :: t) ++ (if spaced then [32; 61; 32] else [61]) ++ v).
  rewrite <- Ek.
  destruct spaced.
  - replace (k ++ [32; 61; 32] ++ v) with ((k ++ [32]) ++ 61 :: 32 :: v)
      by (rewrite <- app_assoc; reflexivity).
    rewrite split_at_equals_app.
    + rewrite (Gitignore.strip_snoc_space k 32 eq_refl), (strip_no_space k Hks).
      now rewrite (strip_cons_space 32 v eq_refl), (strip_no_space v Hsv).
    + apply Forall_app; split; [exact Hkeq|].
      repeat constructor; discriminate.
  - cbn [app]; rewrite split_at_equals_app by exact Hkeq.
    now rewrite (strip_no_space k Hks), (strip_no_space v Hsv).
Qed.

Lemma one_line_app (a b : str) : one_line a -> one_line b -> one_line (a ++ b).
Proof. intros Ha Hb; apply Forall_app; now split. Qed.

Lemma closed_one_line (s : str) :
  forallb (fun c => negb (c =? LF)) s = true -> one_line s.
Proof.
  intros H; apply Forall_forall; intros c Hc ->.
  apply (proj1 (forallb_forall _ s) H) in Hc; discriminate.
Qed.

Lemma closed_plain_key (k : str) :
  negb (is_empty k)
  && forallb (fun c => negb (isspace c) && negb (c =? 61)) k
  && negb (head_is (fun c => (c =? 35) || (c =? 91)) k) = true ->
  plain_key k.
Proof.
  intros H; apply andb_true_iff in H as [H Hh].
  apply andb_true_iff in H as [Hne Hall].
  split; [now apply is_empty_false, negb_true_iff|].
  split; [|now apply negb_true_iff].
  apply Forall_forall; intros c Hc.
  apply (proj1 (forallb_forall _ k) Hall) in Hc.
  apply andb_true_iff in Hc as [H1 H2].
  apply negb_true_iff in H1, H2; split; [exact H1|].
  intros ->; discriminate.
Qed.

Lemma sanitized_no_space (lower : str -> str) (raw : str) :
  no_space (Sanitizer.sanitize_for_docker lower raw).
Proof.
  eapply Forall_impl; [|apply Sanitizer.sanitize_safe].
  intros c; apply Sanitizer.safe_not_space.
Qed.

(** *** Properties *)

(** Read back as a [.conf] file, the rendered [outputs.conf] holds two
    settings and no more: the default group of [[tcpout]], and, in the
    stanza of that very group, the server [host:port] made of the two
    answers; for a host and a port without whitespace. *)
Theorem outputs_conf_server
  (lower : str -> str) (raw indexer_ip indexer_port : str) :
  no_space indexer_ip -> no_space indexer_port ->
  conf_settings
    (outputs_conf_content (Sanitizer.sanitize_for_docker lower raw)
       indexer_ip indexer_port)
  = [(text_tcpout, (lit "defaultGroup", lit "default-autolb-group"));
     (text_tcpout ++ 58 :: lit "default-autolb-group",
      (key_server, indexer_ip ++ 58 :: indexer_port))].
Proof.
  intros Hip Hport.
  set (name := Sanitizer.sanitize_for_docker lower raw).
  assert (Hname : no_space name) by apply sanitized_no_space.
  assert (Hserver : no_space (indexer_ip ++ 58 :: indexer_port)).
  { apply no_space_app; [exact Hip|]. constructor; [reflexivity | exact Hport]. }
  assert (Hlines : Forall one_line (outputs_conf_lines name indexer_ip
                                      indexer_port)).
  { unfold outputs_conf_lines.
    repeat match goal with
    | |- Forall one_line (_ :: _) => apply Forall_cons
    | |- Forall one_line [] => apply Forall_nil
    end;
      try (apply closed_one_line; reflexivity).
    - apply one_line_app; [apply closed_one_line; reflexivity|].
      apply one_line_app; [now apply no_space_one_line|].
      apply one_line_app; [apply closed_one_line; reflexivity|].
      now apply no_space_one_line.
    - apply one_line_app; [apply closed_one_line; reflexivity|].
      apply one_line_app; [apply closed_one_line; reflexivity|].
      now apply no_space_one_line. }
  unfold conf_settings, outputs_conf_content.
  rewrite (split_lines_unlines _ Hlines).
  unfold outputs_conf_lines; rewrite map_app; cbn [List.map].
  change (text_outputs ++ name ++ text_arrow ++ indexer_ip ++ 58 :: indexer_port)
    with (35 :: tl text_outputs ++ name ++ text_arrow
             ++ indexer_ip ++ 58 :: indexer_port).
  rewrite classify_comment, !classify_header.
  rewrite (classify_assignment key_server _ true).
  - reflexivity.
  - apply closed_plain_key; reflexivity.
  - destruct indexer_ip; discriminate.
  - exact Hserver.
Qed.

Lemma outputs_conf_server_witness :
  conf_settings
    (outputs_conf_content
       (Sanitizer.sanitize_for_docker lower_ascii (lit "Web App Logs!"))
       (lit "10.0.0.5") (lit "9997"))
  = [(text_tcpout, (lit "defaultGroup", lit "default-autolb-group"));
     (text_tcpout ++ 58 :: lit "default-autolb-group",
      (key_server, lit "10.0.0.5" ++ 58 :: lit "9997"))].
Proof.
  apply (outputs_conf_server lower_ascii (lit "Web App Logs!")
           (lit "10.0.0.5") (lit "9997")); repeat constructor.
Defined.

(** Read back as a list of [KEY=value] lines, the rendered [.env] sets
    [COMPOSE_PROJECT_NAME] to the sanitized instance name, a non-empty
    string over [[a-z0-9_-]] that begins with a letter or a digit, and
    [SPLUNK_PASSWORD] to the placeholder, and nothing else; whatever the
    path of the instance directory, as long as it holds no line
    feed. *)
Theorem instance_env_project_name
  (lower : str -> str) (raw instance_env_path : str) :
  one_line instance_env_path ->
  let name := Sanitizer.sanitize_for_docker lower raw in
  conf_settings (instance_env_content instance_env_path name)
  = [([], (key_compose_project, name));
     ([], (lit "SPLUNK_PASSWORD", lit "changeme"))] /\
  Sanitizer.all_safe name = true /\
  head_is Sanitizer.alnum name = true.
Proof.
  intros Hpath name.
  assert (Hname : no_space name) by apply sanitized_no_space.
  assert (Hne : name <> []) by apply Sanitizer.sanitize_nonempty.
  split; [|split; [apply Sanitizer.sanitize_all_safe
                  | apply Sanitizer.sanitize_head_alnum]].
  assert (Hlines : Forall one_line (instance_env_lines instance_env_path name)).
  { unfold instance_env_lines.
    repeat match goal with
    | |- Forall one_line (_ :: _) => apply Forall_cons
    | |- Forall one_line [] => apply Forall_nil
    end;
      try (apply closed_one_line; reflexivity).
    - apply one_line_app; [apply closed_one_line; reflexivity|].
      apply one_line_app; [exact Hpath | apply closed_one_line; reflexivity].
    - apply one_line_app; [apply closed_one_line; reflexivity|].
      apply one_line_app; [apply closed_one_line; reflexivity|].
      now apply no_space_one_line. }
  unfold conf_settings, instance_env_content.
  rewrite (split_lines_unlines _ Hlines).
  unfold instance_env_lines; rewrite map_app; cbn [List.map].
  change (text_env_header ++ instance_env_path ++ [41])
    with (35 :: tl text_env_header ++ instance_env_path ++ [41]).
  rewrite classify_comment.
  rewrite (classify_assignment key_compose_project name false).
  - reflexivity.
  - apply closed_plain_key; reflexivity.
  - exact Hne.
  - exact Hname.
Qed.

Lemma instance_env_project_name_witness :
  conf_settings
    (instance_env_content (lit "/data/splunk/web_app_logs/.env")
       (Sanitizer.sanitize_for_docker lower_ascii (lit "Web App Logs!")))
  = [([], (key_compose_project,
           Sanitizer.sanitize_for_docker lower_ascii (lit "Web App Logs!")));
     ([], (lit "SPLUNK_PASSWORD", lit "changeme"))] /\
  Sanitizer.all_safe
    (Sanitizer.sanitize_for_docker lower_ascii (lit "Web App Logs!")) = true /\
  head_is Sanitizer.alnum
    (Sanitizer.sanitize_for_docker lower_ascii (lit "Web App Logs!")) = true.
Proof.
  exact (instance_env_project_name lower_ascii (lit "Web App Logs!")
           (lit "/data/splunk/web_app_logs/.env")
           ltac:(apply closed_one_line; reflexivity)).
Defined.

End RenderMore.

(* ================================================================== *)
(** ** The Docker operations that end [main] (setup.py, lines 467-490) *)

Module DockerStage.

Import Process ProcessFacts.

Inductive shown :=
| Heading            (* "--- Docker Compose Operations ---" *)
| EnsuringImage      (* "Ensuring Docker image ... exists ..." *)
| BuildFailed        (* "Error: Docker build failed. ..." *)
| BuildComplete      (* "Docker image build check/run complete." *)
| StartingInstance   (* "Starting instance ... using 'docker compose up'" *)
| StartFailed        (* "Error: Failed to start instance ..." *)
| TroubleshootingTips  (* the five lines of tips *)
| Started            (* "Instance ... started successfully ..." *)
| SetupComplete      (* "--- Setup Complete ---" and the two lines after *)
| FromCommand (e : printed).

Inductive ending :=
| Done
| Exit (status : Z).

Definition build_command (image_name : str) : list str :=
  [lit "docker"; lit "build"; lit "--progress=plain"; lit "-t";
   image_name; lit "."].

Definition up_command : list str := Eval cbv in
  [lit "docker"; lit "compose"; lit "up"; lit "-d"; lit "--build";
   lit "--remove-orphans"; lit "--force-recreate"].

(** The two calls leave [check] and [suppress_output] at their defaults,
    [True] and [False].  [build] and [up] are what starting the two
    commands leads to. *)
Definition docker_operations (lower : str -> str)
  (image_name instance_dir : str) (build up : spawned)
  : list shown * ending :=
  let '(l1, r1) :=
    run_command lower (build_command image_name) (Some instance_dir)
      true false build in
  let before := [Heading; EnsuringImage] ++ List.map FromCommand l1 in
  match r1 with
  | Exits status => (before, Exit status)
  | Returns false => (before ++ [BuildFailed], Exit 1)
  | Returns true =>
      let '(l2, r2) :=
        run_command lower up_command (Some instance_dir) true false up in
      let before :=
        before ++ [BuildComplete; StartingInstance]
          ++ List.map FromCommand l2 in
      match r2 with
      | Exits status => (before, Exit status)
      | Returns false =>
          (before ++ [StartFailed; TroubleshootingTips], Exit 1)
      | Returns true => (before ++ [Started; SetupComplete], Done)
      end
  end.

(** The lines of [main] itself that report a failure. *)
Definition failure_report (x : shown) : bool :=
  match x with
  | BuildFailed | StartFailed | TroubleshootingTips => true
  | _ => false
  end.

(** *** Lemmas *)

Lemma checked_outcome (lower : str -> str) (cmd : list str)
  (cwd : option str) (p : spawned) :
  snd (run_command lower cmd cwd true false p) =
  if succeeded p then Returns true else Exits 1.
Proof.
  rewrite run_command_outcome_cases.
  destruct (succeeded p); [reflexivity|]; now destruct p.
Qed.

Lemma no_report_from_command (l : list printed) :
  existsb failure_report (List.map FromCommand l) = false.
Proof. induction l as [|e l IH]; [reflexivity | exact IH]. Qed.

(** *** Properties *)


(** The failure reports of [main] ("Docker build failed", "Failed to
    start instance" and the troubleshooting tips) are never shown,
    whatever the two commands do: with [check] left on, a failing
    command ends the program inside [run_command], which prints the
    exit status only. *)
Theorem docker_operations_never_reports
  (lower : str -> str) (image_name instance_dir : str) (build up : spawned) :
  existsb failure_report
    (fst (docker_operations lower image_name instance_dir build up)) = false.
Proof.
  unfold docker_operations.
  pose proof (checked_outcome lower (build_command image_name)
                (Some instance_dir) build) as E1.
  pose proof (checked_outcome lower up_command (Some instance_dir) up) as E2.
  destruct (run_command lower (build_command image_name) (Some instance_dir)
              true false build) as [l1 r1].
  destruct (run_command lower up_command (Some instance_dir) true false up)
    as [l2 r2].
  cbn [fst snd] in *; subst r1 r2.
  destruct (succeeded build), (succeeded up); cbn [fst];
    rewrite ?existsb_app, ?no_report_from_command; reflexivity.
Qed.

End DockerStage.
